(** * cheek: run records, the persistence store and the retry / fan-out wrapper

    A shallow embedding of [pkg/job.go] (JobSpec, JobRun, the executor, the
    retry loop and the on-event fan-out) and of the SQLite store
    ([InitDB] schema, [InsertLogLine], [GetLogLines], [InsertOrUpdateJobRun],
    [LoadJobRun]).

    Conventions.
    - A Go [int] / [int64] is a [Z]; the only arithmetic the code performs on
      them ([Retries+1], [tries++]) is written with its 64-bit wrap-around.
    - A [time.Time] is a [Z]: nanoseconds since the epoch.
    - A Go [error] is an [option string]: [None] is [nil].
    - A [*int] is an [option Z]: [None] is the nil pointer.  *)

From stdpp Require Import base tactics option list strings gmap pretty sorting.
From Stdlib Require Import ZArith.

Local Open Scope Z_scope.

(** ** Basic types *)

Definition Time := Z.
Definition error := option string.

(** Two's-complement wrap-around of a 64-bit Go [int]. *)
Definition wrap64 (z : Z) : Z := (z + 2 ^ 63) `mod` 2 ^ 64 - 2 ^ 63.

(** Global status constants. *)
Definition StatusOK : Z := 0.
Definition StatusError : Z := -1.

(** ** JobRun *)

Module JobRun.
(** [jobRef] is not a field here: every function that reads it receives
    the job it points to as an argument. *)
Record t := mk {
  LogEntryId : Z;
  Status : option Z;
  logBuf : string;
  Log : string;
  Name : string;
  TriggeredAt : Time;
  TriggeredBy : string;
  Triggered : list string;
  Duration : Z
}.

Definition zero : t := mk 0 None "" "" "" 0 "" [] 0.

Definition set_LogEntryId (v : Z) (jr : t) : t :=
  mk v (Status jr) (logBuf jr) (Log jr) (Name jr) (TriggeredAt jr)
     (TriggeredBy jr) (Triggered jr) (Duration jr).
Definition set_Status (v : option Z) (jr : t) : t :=
  mk (LogEntryId jr) v (logBuf jr) (Log jr) (Name jr) (TriggeredAt jr)
     (TriggeredBy jr) (Triggered jr) (Duration jr).
Definition set_logBuf (v : string) (jr : t) : t :=
  mk (LogEntryId jr) (Status jr) v (Log jr) (Name jr) (TriggeredAt jr)
     (TriggeredBy jr) (Triggered jr) (Duration jr).
Definition set_Log (v : string) (jr : t) : t :=
  mk (LogEntryId jr) (Status jr) (logBuf jr) v (Name jr) (TriggeredAt jr)
     (TriggeredBy jr) (Triggered jr) (Duration jr).
Definition set_Duration (v : Z) (jr : t) : t :=
  mk (LogEntryId jr) (Status jr) (logBuf jr) (Log jr) (Name jr)
     (TriggeredAt jr) (TriggeredBy jr) (Triggered jr) v.
End JobRun.

(** ** The persistence store *)

(** One row of the [log_lines] table. *)
Module LogLine.
Record t := mk {
  ID : Z;
  JobRunID : Z;
  LineNumber : Z;
  Timestamp : string;
  Content : string;
  Stream : string
}.
End LogLine.

(** One row of the [log] table as [InsertOrUpdateJobRun] writes it: only
    [status] is nullable in a row written through the store. *)
Module Row.
Record t := mk {
  id : Z;
  job : string;
  triggered_at : Time;
  triggered_by : string;
  duration : Z;
  status : option Z;
  message : string;
  is_running : Z
}.

(** The columns of [UNIQUE(job, triggered_at, triggered_by)]. *)
Definition key (r : t) : string * Time * string :=
  (job r, triggered_at r, triggered_by r).
End Row.

(** The open connection: the two tables, their AUTOINCREMENT counters, the
    connection's last insert rowid, and the storage faults the environment
    will inject: the n-th statement executed from now on fails with message
    [e] when the n-th entry is [Some e]; an exhausted list means no fault. *)
Module DB.
Record t := mk {
  log : list Row.t;
  log_seq : Z;
  log_lines : list LogLine.t;
  log_lines_seq : Z;
  last_insert_rowid : Z;
  faults : list (option string)
}.

Definition empty : t := mk [] 0 [] 0 0 [].

Definition set_faults (f : list (option string)) (db : t) : t :=
  mk (log db) (log_seq db) (log_lines db) (log_lines_seq db)
     (last_insert_rowid db) f.

(** Running one statement: the next pending fault, if any, is consumed. *)
Definition step (db : t) : error * t :=
  match faults db with
  | [] => (None, db)
  | f :: fs => (f, set_faults fs db)
  end.
End DB.

Definition key_of_run (jr : JobRun.t) : string * Time * string :=
  (JobRun.Name jr, JobRun.TriggeredAt jr, JobRun.TriggeredBy jr).

Definition same_key (jr : JobRun.t) (r : Row.t) : Prop :=
  Row.key r = key_of_run jr.

Global Instance same_key_dec jr r : Decision (same_key jr r).
Proof. unfold same_key. apply _. Defined.

(** [INSERT INTO log_lines ... VALUES (?, ?, ?, ?, ?)]; [ts] is
    [time.Now().Format(time.RFC3339)].  The table has
    [UNIQUE(job_run_id, line_number)]. *)
Definition InsertLogLine (db : DB.t) (jobRunID lineNumber : Z) (ts : string)
    (content stream : string) : error * DB.t :=
  match DB.step db with
  | (Some e, db1) => (Some ("insert log line: " +:+ e), db1)
  | (None, db1) =>
      if bool_decide (Exists (λ l, LogLine.JobRunID l = jobRunID
                                   ∧ LogLine.LineNumber l = lineNumber)
                             (DB.log_lines db1))
      then (Some ("insert log line: UNIQUE constraint failed: "
                  +:+ "log_lines.job_run_id, log_lines.line_number"), db1)
      else
        let i := DB.log_lines_seq db1 + 1 in
        (None, DB.mk (DB.log db1) (DB.log_seq db1)
                 (DB.log_lines db1
                  ++ [LogLine.mk i jobRunID lineNumber ts content stream])
                 i i (DB.faults db1))
  end.

(** [ORDER BY line_number ASC]. *)
Definition line_le (a b : LogLine.t) : Prop :=
  LogLine.LineNumber a ≤ LogLine.LineNumber b.

Global Instance line_le_dec a b : Decision (line_le a b).
Proof. unfold line_le. apply _. Defined.

(** [SELECT ... FROM log_lines WHERE job_run_id = ? AND line_number > ?
     ORDER BY line_number ASC]. *)
Definition select_log_lines (tbl : list LogLine.t) (jobRunID after : Z)
    : list LogLine.t :=
  merge_sort line_le
    (filter (λ l, LogLine.JobRunID l = jobRunID ∧ after < LogLine.LineNumber l)
            tbl).

Definition GetLogLines (db : DB.t) (jobRunID afterLineNumber : Z)
    : (list LogLine.t * error) * DB.t :=
  match DB.step db with
  | (Some e, db1) => (([], Some ("get log lines: " +:+ e)), db1)
  | (None, db1) =>
      ((select_log_lines (DB.log_lines db1) jobRunID afterLineNumber, None), db1)
  end.

(** The UPSERT of [InsertOrUpdateJobRun]: a row with the run's key is
    updated in place (and the connection's last insert rowid is left as it
    was); otherwise a row is appended under the next AUTOINCREMENT id. *)
Definition excluded (jr : JobRun.t) (isRunning : Z) (r : Row.t) : Row.t :=
  Row.mk (Row.id r) (Row.job r) (Row.triggered_at r) (Row.triggered_by r)
         (JobRun.Duration jr) (JobRun.Status jr) (JobRun.Log jr) isRunning.

Definition upsert (db : DB.t) (jr : JobRun.t) (isRunning : Z) : DB.t :=
  if bool_decide (Exists (same_key jr) (DB.log db)) then
    DB.mk ((λ r, if bool_decide (same_key jr r)
                 then excluded jr isRunning r else r) <$> DB.log db)
          (DB.log_seq db) (DB.log_lines db) (DB.log_lines_seq db)
          (DB.last_insert_rowid db) (DB.faults db)
  else
    let i := DB.log_seq db + 1 in
    DB.mk (DB.log db
           ++ [Row.mk i (JobRun.Name jr) (JobRun.TriggeredAt jr)
                 (JobRun.TriggeredBy jr) (JobRun.Duration jr)
                 (JobRun.Status jr) (JobRun.Log jr) isRunning])
          i (DB.log_lines db) (DB.log_lines_seq db) i (DB.faults db).

(** InsertOrUpdateJobRun inserts a new job run or updates an existing one. *)
Definition InsertOrUpdateJobRun (db : DB.t) (jr : JobRun.t)
    : (JobRun.t * error) * DB.t :=
  (* Determine is_running status *)
  let isRunning := match JobRun.Status jr with None => 1 | Some _ => 0 end in
  match DB.step db with
  | (Some e, db1) => ((jr, Some ("insert or update job run: " +:+ e)), db1)
  | (None, db1) =>
      let db2 := upsert db1 jr isRunning in
      (* Try to get the ID from the result if we don't have it yet *)
      if bool_decide (JobRun.LogEntryId jr = 0) then
        let lastId := DB.last_insert_rowid db2 in
        let jr1 := if bool_decide (0 < lastId)
                   then JobRun.set_LogEntryId lastId jr else jr in
        (* If LastInsertId doesn't work, query for the ID *)
        if bool_decide (JobRun.LogEntryId jr1 = 0) then
          match DB.step db2 with
          | (Some e, db3) => ((jr1, Some ("get job run ID: " +:+ e)), db3)
          | (None, db3) =>
              match head (filter (same_key jr) (DB.log db3)) with
              | Some r => ((JobRun.set_LogEntryId (Row.id r) jr1, None), db3)
              | None =>
                  ((jr1, Some ("get job run ID: "
                               +:+ "sql: no rows in result set")), db3)
              end
          end
        else ((jr1, None), db2)
      else ((jr, None), db2)
  end.

(** What [db.Get(&jr, "SELECT id, triggered_at, triggered_by, duration,
    status, message ...")] scans into a fresh [JobRun]: the [job] column is
    not selected, so [Name] stays empty. *)
Definition run_of_row (r : Row.t) : JobRun.t :=
  JobRun.mk (Row.id r) (Row.status r) "" (Row.message r) ""
            (Row.triggered_at r) (Row.triggered_by r) [] (Row.duration r).

(** [ORDER BY triggered_at DESC], the column compared as an instant. *)
Definition newer_first (a b : Row.t) : Prop :=
  Row.triggered_at b ≤ Row.triggered_at a.

Global Instance newer_first_dec a b : Decision (newer_first a b).
Proof. unfold newer_first. apply _. Defined.

(** LoadJobRun loads a single job run by ID, or the latest run if id is -1. *)
Definition LoadJobRun (db : DB.t) (jobName : string) (id : Z)
    : (JobRun.t * error) * DB.t :=
  (* if id -1 then load last run *)
  if bool_decide (id = -1) then
    match DB.step db with
    | (Some e, db1) => ((JobRun.zero, Some ("load latest job run: " +:+ e)), db1)
    | (None, db1) =>
        match head (merge_sort newer_first
                      (filter (λ r, Row.job r = jobName) (DB.log db1))) with
        | Some r => ((run_of_row r, None), db1)
        | None => ((JobRun.zero, Some ("load latest job run: "
                                       +:+ "sql: no rows in result set")), db1)
        end
    end
  else
    match DB.step db with
    | (Some e, db1) => ((JobRun.zero, Some ("load job run by id: " +:+ e)), db1)
    | (None, db1) =>
        match head (filter (λ r, Row.id r = id) (DB.log db1)) with
        | Some r => ((run_of_row r, None), db1)
        | None => ((JobRun.zero, Some ("load job run by id: "
                                       +:+ "sql: no rows in result set")), db1)
        end
    end.

(** ** Job definitions *)

(** OnEvent contains specs on what needs to happen after a job event. *)
Module OnEvent.
Record t := mk {
  TriggerJob : list string;
  NotifyWebhook : list string;
  NotifySlackWebhook : list string;
  NotifyDiscordWebhook : list string
}.

Definition zero : t := mk [] [] [] [].
End OnEvent.

(** [type secret string], with its custom marshaller to hide secrets. *)
Module secret.
Record t := mk { raw : string }.

Definition MarshalText (_ : t) : string * error := ("***", None).
End secret.

(** Modelled from the spec: the [Config] struct is declared outside the
    files at hand.  The job code reads two of its fields: [DB], the store
    connection (nil when the scheduler runs without a database; here a flag,
    the connection itself lives in the world), and [SuppressLogs], the
    "configuration flag that prevents mirroring child output to the
    scheduler's own stdout". *)
Module Config.
Record t := mk {
  DB : bool;
  SuppressLogs : bool
}.
End Config.

(** JobSpec holds specifications and metadata of a job.  [globalSchedule]
    records whether the back-pointer to the owning schedule is non-nil; the
    schedule itself is passed to the functions that follow the pointer.
    [Runs] and [mutex] are mutable and live in the world. *)
Module JobSpec.
Record t := mk {
  Cron : string;
  Command : list string;
  OnSuccess : OnEvent.t;
  OnError : OnEvent.t;
  Name : string;
  Retries : Z;
  Env : gmap string secret.t;
  WorkingDirectory : string;
  DisableConcurrentExecution : bool;
  globalSchedule : bool;
  cfg : Config.t
}.
End JobSpec.

(** Modelled from the spec: the [Schedule] struct is declared outside the
    files at hand.  "The collection of JobSpecs with global
    on_success/on_error hooks applied to every job in addition to the job's
    own hooks", held as "a name→spec mapping"; the job code reads
    [Jobs[name]], [OnSuccess] and [OnError]. *)
Module Schedule.
Record t := mk {
  Jobs : gmap string JobSpec.t;
  OnSuccess : OnEvent.t;
  OnError : OnEvent.t
}.
End Schedule.

(** Modelled from the spec: the webhook type and its constructors are
    declared outside the files at hand.  "Represent webhooks as a tagged
    variant {Default, Slack, Discord} with a common capability set (name,
    url, call(run)→response)." *)
Inductive webhookKind := DefaultWebhook | SlackWebhook | DiscordWebhook.

Module webhook.
Record t := mk {
  kind : webhookKind;
  URL : string
}.
End webhook.

Definition NewDefaultWebhook (url : string) : webhook.t :=
  webhook.mk DefaultWebhook url.
Definition NewSlackWebhook (url : string) : webhook.t :=
  webhook.mk SlackWebhook url.
Definition NewDiscordWebhook (url : string) : webhook.t :=
  webhook.mk DiscordWebhook url.

(** ** The world a job runs in *)

(** What the process observes of a run, in order.  Log lines at Info level
    and above are recorded with their structured fields; Debug lines are not
    part of the trace. *)
Inductive Level := Info | Warn | Error.
Inductive Logger := JobLogger | ScheduleLogger.

Inductive Event :=
  | EvLog (lg : Logger) (lvl : Level) (fields : list (string * string))
          (msg : string)
  | EvStdout (text : string)
  | EvStart (argv env : list string) (dir : string)
  | EvCall (wu : webhook.t) (jr : JobRun.t).

(** How a child process behaves: [cmd.Start] fails, or the child runs,
    writes [output] to its merged stdout/stderr, takes [elapsed]
    nanoseconds, and [cmd.Wait] returns nil, an [*exec.ExitError] with an
    exit code, or some other error. *)
Inductive WaitResult :=
  | WaitOk
  | WaitExitError (code : Z)
  | WaitError (msg : string).

Inductive ProcOutcome :=
  | StartError (msg : string)
  | Ran (output : string) (elapsed : Z) (res : WaitResult).

(** The supervising context: never cancelled, or cancelled at an instant. *)
Inductive Ctx :=
  | Background
  | CancelAt (t : Time).

Module World.
(** [procs n] is the behaviour of the n-th child the process spawns and
    [hooks n] the answer to its n-th webhook call; [locked] holds the
    names of the jobs whose mutex is held; [runs] is the in-memory
    [j.Runs] of the jobs, tagged by job name; [sched n] is the n-th
    decision of the Go scheduler: which of the goroutines that are ready
    runs next. *)
Record t := mk {
  db : DB.t;
  now : Time;
  environ : list string;
  procs : nat → ProcOutcome;
  nprocs : nat;
  hooks : nat → string * error;
  nhooks : nat;
  locked : gset string;
  runs : list (string * JobRun.t);
  trace : list Event;
  sched : nat → nat;
  nsched : nat
}.

Definition set_db (v : DB.t) (w : t) : t :=
  mk v (now w) (environ w) (procs w) (nprocs w) (hooks w) (nhooks w)
     (locked w) (runs w) (trace w) (sched w) (nsched w).
Definition set_now (v : Time) (w : t) : t :=
  mk (db w) v (environ w) (procs w) (nprocs w) (hooks w) (nhooks w)
     (locked w) (runs w) (trace w) (sched w) (nsched w).
Definition set_nprocs (v : nat) (w : t) : t :=
  mk (db w) (now w) (environ w) (procs w) v (hooks w) (nhooks w)
     (locked w) (runs w) (trace w) (sched w) (nsched w).
Definition set_nhooks (v : nat) (w : t) : t :=
  mk (db w) (now w) (environ w) (procs w) (nprocs w) (hooks w) v
     (locked w) (runs w) (trace w) (sched w) (nsched w).
Definition set_locked (v : gset string) (w : t) : t :=
  mk (db w) (now w) (environ w) (procs w) (nprocs w) (hooks w) (nhooks w)
     v (runs w) (trace w) (sched w) (nsched w).
Definition set_runs (v : list (string * JobRun.t)) (w : t) : t :=
  mk (db w) (now w) (environ w) (procs w) (nprocs w) (hooks w) (nhooks w)
     (locked w) v (trace w) (sched w) (nsched w).
Definition set_trace (v : list Event) (w : t) : t :=
  mk (db w) (now w) (environ w) (procs w) (nprocs w) (hooks w) (nhooks w)
     (locked w) (runs w) v (sched w) (nsched w).
Definition set_nsched (v : nat) (w : t) : t :=
  mk (db w) (now w) (environ w) (procs w) (nprocs w) (hooks w) (nhooks w)
     (locked w) (runs w) (trace w) (sched w) v.
End World.

(** How a call ends: it returns, it panics (which takes the process down),
    it waits for a mutex nobody will release, or the model ran out of
    nesting depth for downstream jobs. *)
Inductive Outcome (A : Type) :=
  | Done (a : A) (w : World.t)
  | Panicked (msg : string) (w : World.t)
  | Blocked (w : World.t)
  | OutOfFuel.
Arguments Done {A} a w.
Arguments Panicked {A} msg w.
Arguments Blocked {A} w.
Arguments OutOfFuel {A}.

Definition M (A : Type) : Type := World.t → Outcome A.

Global Instance M_ret : MRet M := λ A a w, Done a w.
Global Instance M_bind : MBind M := λ A B f m w,
  match m w with
  | Done a w' => f a w'
  | Panicked e w' => Panicked e w'
  | Blocked w' => Blocked w'
  | OutOfFuel => OutOfFuel
  end.

Definition ret {A} (a : A) : M A := mret a.
Definition skip : M unit := ret ().
Definition panic {A} (msg : string) : M A := λ w, Panicked msg w.
Definition emit (e : Event) : M unit := λ w,
  Done () (World.set_trace (World.trace w ++ [e]) w).
Definition clock : M Time := λ w, Done (World.now w) w.
Definition advance (d : Z) : M unit := λ w,
  Done () (World.set_now (World.now w + d) w).
Definition osEnviron : M (list string) := λ w, Done (World.environ w) w.

(** [cmd.Start()] followed by the child's behaviour. *)
Definition Start (argv env : list string) (dir : string) : M ProcOutcome :=
  λ w, Done (World.procs w (World.nprocs w))
            (World.set_trace (World.trace w ++ [EvStart argv env dir])
               (World.set_nprocs (S (World.nprocs w)) w)).

(** [wu.Call(jr)]. *)
Definition Call (wu : webhook.t) (jr : JobRun.t) : M (string * error) :=
  λ w, Done (World.hooks w (World.nhooks w))
            (World.set_trace (World.trace w ++ [EvCall wu jr])
               (World.set_nhooks (S (World.nhooks w)) w)).

Definition Lock (name : string) : M unit := λ w,
  if bool_decide (name ∈ World.locked w) then Blocked w
  else Done () (World.set_locked ({[name]} ∪ World.locked w) w).
Definition Unlock (name : string) : M unit := λ w,
  Done () (World.set_locked (World.locked w ∖ {[name]}) w).

(** Whether the context is done at instant [t]. *)
Definition doneBy (ctx : Ctx) (t : Time) : bool :=
  match ctx with
  | Background => false
  | CancelAt c => bool_decide (c ≤ t)
  end.

(** [ctx.Err() != nil]. *)
Definition ctxErr (ctx : Ctx) : M bool :=
  t ← clock; ret (doneBy ctx t).

(** [select { case <-time.After(d): case <-ctx.Done(): }]; the answer is
    [true] when the context was done first. *)
Definition afterOrDone (ctx : Ctx) (d : Z) : M bool :=
  t ← clock;
  if doneBy ctx (t + d)
  then advance (match ctx with
                | Background => d
                | CancelAt c => Z.max 0 (c - t)
                end);; ret true
  else advance d;; ret false.

(** ** Goroutines started together and waited for *)

(** The [i]-th element of [x :: l] (the last one when [i] is too large) and
    the others, in their order. *)
Fixpoint pick {T} (i : nat) (x : T) (l : list T) : T * list T :=
  match i, l with
  | S i, y :: l => let '(t, rest) := pick i y l in (t, x :: rest)
  | _, _ => (x, l)
  end.

(** The scheduler takes its next decision. *)
Definition decide_next (w : World.t) : World.t :=
  World.set_nsched (S (World.nsched w)) w.

(** [go func() {...}()] for every task and then [wg.Wait()]: the tasks run
    to their end one at a time, in the order the scheduler picks.  A task
    that waits for a mutex nobody will release is left waiting while the
    others run, and then [Wait] never returns; a panic in any task takes
    the process down; [n] is the number of tasks. *)
Fixpoint runAll {T} (run : T → M unit) (n : nat) (tasks : list T)
    (stuck : bool) : M unit :=
  match n, tasks with
  | S n, x :: l => λ w,
      let '(t, rest) := pick (World.sched w (World.nsched w)) x l in
      match run t (decide_next w) with
      | Done _ w' => runAll run n rest stuck w'
      | Blocked w' => runAll run n rest true w'
      | Panicked e w' => Panicked e w'
      | OutOfFuel => OutOfFuel
      end
  | _, _ => if stuck then (λ w, Blocked w) else skip
  end.

Definition goAll {T} (run : T → M unit) (tasks : list T) : M unit :=
  runAll run (length tasks) tasks false.

(** The same tasks run in a given order. *)
Fixpoint seqAll {T} (run : T → M unit) (order : list T) (stuck : bool)
    : M unit :=
  match order with
  | [] => if stuck then (λ w, Blocked w) else skip
  | t :: rest => λ w,
      match run t (decide_next w) with
      | Done _ w' => seqAll run rest stuck w'
      | Blocked w' => seqAll run rest true w'
      | Panicked e w' => Panicked e w'
      | OutOfFuel => OutOfFuel
      end
  end.

Definition nl : string := String (Ascii.ascii_of_nat 10) "".

(** [time.Since(t)]: a [time.Duration] saturates at the int64 bounds. *)
Definition Since (now t : Time) : Z :=
  Z.max (- 2 ^ 63) (Z.min (2 ^ 63 - 1) (now - t)).

(** [d.Milliseconds()]: integer division truncates towards zero. *)
Definition Milliseconds (d : Z) : Z := d `quot` 1000000.

(** ** The run lifecycle of [job.go] *)

Definition flushLogBuffer (jr : JobRun.t) : JobRun.t :=
  JobRun.set_Log (JobRun.logBuf jr) jr.

(** Modelled from the spec: [Schedule.now], to which [j.now()] defers when
    the job has a schedule, is declared outside the files at hand.  "The
    now() source must be injectable so tests can drive a virtual clock; real
    deployments use wall clock": with or without a schedule, [j.now()]
    reads the world's clock, as [time.Now()] does. *)
Definition now (j : JobSpec.t) : M Time := clock.

Definition logToDb (j : JobSpec.t) (jr : JobRun.t) : M JobRun.t :=
  if negb (Config.DB (JobSpec.cfg j)) then
    emit (EvLog JobLogger Warn [("job", JobRun.Name jr)]
            "No db connection, not saving job log to db.");;
    ret jr
  else
    '(jr', err) ← (λ w, let '(res, db') := InsertOrUpdateJobRun (World.db w) jr
                        in Done res (World.set_db db' w));
    match err with
    | None => ret jr'
    | Some e =>
        if JobSpec.globalSchedule j then
          emit (EvLog ScheduleLogger Warn
                  [("job", JobRun.Name jr'); ("error", e)]
                  "Couldn't save job log to db.");;
          ret jr'
        else panic e
    end.

Definition setup (j : JobSpec.t) (trigger : string) : M JobRun.t :=
  (* Initialize the JobRun before executing the command *)
  t ← now j;
  let jr := JobRun.mk 0 None "" "" (JobSpec.Name j) t trigger [] 0 in
  (* Log the job run immediately to the database to mark the job as started *)
  logToDb j jr.

Definition execCommandContext (j : JobSpec.t) (ctx : Ctx) (jr : JobRun.t)
    (trigger : string) : M JobRun.t :=
  emit (EvLog JobLogger Info
          [("job", JobSpec.Name j); ("trigger", trigger)] "Job triggered");;
  let suppressLogs := Config.SuppressLogs (JobSpec.cfg j) in
  match JobSpec.Command j with
  | [] =>
      let err := "no command specified" in
      let jr := JobRun.set_Log ("Job unable to start: " +:+ err) jr in
      emit (EvLog JobLogger Warn
              [("job", JobSpec.Name j); ("trigger", trigger); ("error", err)]
              (JobRun.Log jr));;
      (if suppressLogs then skip else emit (EvStdout (err +:+ nl)));;
      (* Set failure status when no command is specified *)
      ret (JobRun.set_Status (Some StatusError) jr)
  | argv =>
      (* Add env vars *)
      environ ← osEnviron;
      let env := environ
                 ++ ((λ kv, kv.1 +:+ "=" +:+ secret.raw kv.2)
                       <$> map_to_list (JobSpec.Env j)) in
      (* Start command execution; stdout and stderr share one writer *)
      started ← Start argv env (JobSpec.WorkingDirectory j);
      match started with
      | StartError e =>
          (if suppressLogs then skip else emit (EvStdout (e +:+ nl)));;
          let exitCode := StatusError in
          emit (EvLog JobLogger Warn
                  [("job", JobSpec.Name j); ("trigger", trigger);
                   ("exitcode", pretty exitCode); ("error", e)]
                  "job unable to start");;
          (* Also send this to terminal output *)
          let logMessage := "job unable to start: " +:+ e in
          (if suppressLogs then skip else emit (EvStdout logMessage));;
          let jr := JobRun.set_logBuf (JobRun.logBuf jr +:+ logMessage) jr in
          let jr := JobRun.set_Log logMessage jr in
          ret (JobRun.set_Status (Some exitCode) jr)
      | Ran output elapsed res =>
          (if suppressLogs then skip else emit (EvStdout output));;
          let jr := JobRun.set_logBuf (JobRun.logBuf jr +:+ output) jr in
          advance elapsed;;
          (* Wait for the command to finish and check for errors *)
          let finish (jr : JobRun.t) : M JobRun.t :=
            t ← clock;
            ret (JobRun.set_Duration
                    (Milliseconds (Since t (JobRun.TriggeredAt jr))) jr) in
          match res with
          | WaitExitError code =>
              (* Check if it was killed due to context cancellation *)
              cancelled ← ctxErr ctx;
              if cancelled : bool then
                let jr := JobRun.set_Log
                            (JobRun.Log jr +:+ nl
                             +:+ "Job killed due to scheduler shutdown") jr in
                let jr := JobRun.set_Status (Some StatusError) jr in
                emit (EvLog JobLogger Info [("job", JobSpec.Name j)]
                        "Job killed due to context cancellation");;
                finish jr
              else
                (* Get the exact exit code from ExitError *)
                let jr := JobRun.set_Status (Some code) jr in
                emit (EvLog JobLogger Warn [("job", JobSpec.Name j)]
                        ("Exit code: " +:+ pretty code));;
                let jr := JobRun.set_Log
                            (JobRun.Log jr +:+ "Exit code: "
                             +:+ pretty code +:+ nl) jr in
                finish jr
          | WaitError e =>
              (* Handle unexpected errors *)
              emit (EvLog JobLogger Error
                      [("job", JobSpec.Name j); ("error", e)]
                      "unexpected error during command execution");;
              ret (JobRun.set_Status (Some StatusError) jr)
          | WaitOk =>
              (* No error, command exited successfully *)
              finish (JobRun.set_Status (Some StatusOK) jr)
          end
      end
  end.

Definition execCommand (j : JobSpec.t) (jr : JobRun.t) (trigger : string)
    : M JobRun.t :=
  execCommandContext j Background jr trigger.

(** The goroutines [OnEvent] starts: one for a downstream job name, with
    the job the schedule has under that name (nil when it has none), and one
    for a webhook. *)
Inductive Task :=
  | TriggerTask (tn : string) (tj : option JobSpec.t)
  | WebhookTask (wu : webhook.t).

Section fan_out.
(** The schedule [j.globalSchedule] points to, and the retrying run of a
    downstream job, one level of nesting further down. *)
Variable s : Schedule.t.
Variable execCommandWithRetry : JobSpec.t → string → M JobRun.t.

(** The goroutine started for the downstream job [tn]; [tj] is
    [j.globalSchedule.Jobs[tn]], nil when the name is not a key. *)
Definition triggerTask (j : JobSpec.t) (tn : string)
    (tj : option JobSpec.t) : M unit :=
  match tj with
  | None => panic "invalid memory address or nil pointer dereference"
  | Some tj =>
      if JobSpec.DisableConcurrentExecution tj then
        Lock tn;;
        execCommandWithRetry tj ("job[" +:+ JobSpec.Name j +:+ "]");;
        Unlock tn
      else
        (* Use background context for triggered jobs *)
        execCommandWithRetry tj ("job[" +:+ JobSpec.Name j +:+ "]");;
        skip
  end.

(** The goroutine started for one webhook. *)
Definition webhookTask (j : JobSpec.t) (jr : JobRun.t) (wu : webhook.t)
    : M unit :=
  '(resp_body, err) ← Call wu jr;
  match err with
  | Some e =>
      emit (EvLog JobLogger Warn
              [("job", JobSpec.Name j); ("on_event", "webhook"); ("error", e)]
              "webhook notify failed")
  | None => skip
  end.

Definition webhooksOf (e : OnEvent.t) : list webhook.t :=
  (NewDefaultWebhook <$> OnEvent.NotifyWebhook e)
  ++ (NewSlackWebhook <$> OnEvent.NotifySlackWebhook e)
  ++ (NewDiscordWebhook <$> OnEvent.NotifyDiscordWebhook e).

(** The hooks fired by a run that ended with status [st]. *)
Definition eventsFor (j : JobSpec.t) (st : Z) : list OnEvent.t :=
  if bool_decide (st = StatusOK) then (* after success *)
    JobSpec.OnSuccess j
    :: (if JobSpec.globalSchedule j then [Schedule.OnSuccess s] else [])
  else (* after error *)
    JobSpec.OnError j
    :: (if JobSpec.globalSchedule j then [Schedule.OnError s] else []).

(** A goroutine of the fan-out: the one started for the downstream job
    [tn], or the one started for a webhook. *)
Definition runTask (j : JobSpec.t) (jr : JobRun.t) (t : Task) : M unit :=
  match t with
  | TriggerTask tn tj => triggerTask j tn tj
  | WebhookTask wu => webhookTask j jr wu
  end.

(** The [for _, tn := range jobsToTrigger] loop: [tj] is read from
    [j.globalSchedule.Jobs] before the goroutine is started. *)
Definition spawnTriggers (j : JobSpec.t) (names : list string)
    : M (list Task) :=
  match names with
  | [] => ret []
  | _ =>
      if JobSpec.globalSchedule j
      then ret ((λ tn, TriggerTask tn (Schedule.Jobs s !! tn)) <$> names)
      else panic "invalid memory address or nil pointer dereference"
  end.

(** Every goroutine is started before [wg.Wait()]; they run in the order
    the scheduler picks. *)
Definition OnEvent (j : JobSpec.t) (jr : JobRun.t) : M unit :=
  match JobRun.Status jr with
  | None => panic "invalid memory address or nil pointer dereference"
  | Some st =>
      let events := eventsFor j st in
      let jobsToTrigger := events ≫= OnEvent.TriggerJob in
      let webhooksToCall := events ≫= webhooksOf in
      triggers ← spawnTriggers j jobsToTrigger;
      (* trigger webhooks *)
      goAll (runTask j jr) (triggers ++ (WebhookTask <$> webhooksToCall))
  end.

Definition finalize (j : JobSpec.t) (jr : JobRun.t) : M JobRun.t :=
  (* flush logbuf to string *)
  let jr := flushLogBuffer jr in
  (* write logs to disk *)
  jr ← logToDb j jr;
  (* if no DB, store run in memory for testing/debugging *)
  (if Config.DB (JobSpec.cfg j) then skip
   else λ w, Done () (World.set_runs
                        (World.runs w ++ [(JobSpec.Name j, jr)]) w));;
  (* launch on_events *)
  OnEvent j jr;;
  ret jr.

Definition timeOut : Z := 5 * 1000000000.

(** The [for tries < j.Retries+1] loop; [n] bounds its iterations. *)
Fixpoint retryLoop (n : nat) (j : JobSpec.t) (ctx : Ctx) (trigger : string)
    (tries : Z) (jr : JobRun.t) : M JobRun.t :=
  if bool_decide (tries < wrap64 (JobSpec.Retries j + 1)) then
    match n with
    | O => λ _, OutOfFuel
    | S n =>
        (* Check if context is cancelled before starting *)
        cancelled ← ctxErr ctx;
        if cancelled : bool then
          let jr := JobRun.set_Log
                      "Job cancelled due to scheduler shutdown" jr in
          let jr := JobRun.set_Status (Some StatusError) jr in
          finalize j jr
        else
          jr ← execCommandContext j ctx jr
                 (if bool_decide (tries = 0)
                  then (* First attempt with the original trigger *)
                    trigger
                  else (* On retries, update the trigger with retry count *)
                    trigger +:+ "[retry=" +:+ pretty tries +:+ "]");
          (* Finalize logging, etc. *)
          jr ← finalize j jr;
          match JobRun.Status jr with
          | None => panic "invalid memory address or nil pointer dereference"
          | Some st =>
              if bool_decide (st = StatusOK) then
                (* Exit if the job succeeded (Status 0) *)
                ret jr
              else
                (* Increment the attempt counter *)
                let tries := wrap64 (tries + 1) in
                (* Sleep with context cancellation check *)
                done ← afterOrDone ctx timeOut;
                if done : bool then
                  let jr := JobRun.set_Log
                              (JobRun.Log jr +:+ nl
                               +:+ "Job cancelled during retry timeout") jr in
                  ret (JobRun.set_Status (Some StatusError) jr)
                else retryLoop n j ctx trigger tries jr
          end
    end
  else ret jr.
End fan_out.

(** [execCommandWithRetryContext]; [fuel] bounds how deep downstream jobs
    may nest ([execCommandWithRetry] is the call with the background
    context). *)
Fixpoint execCommandWithRetryContext (fuel : nat) (s : Schedule.t)
    (j : JobSpec.t) (ctx : Ctx) (trigger : string) : M JobRun.t :=
  match fuel with
  | O => λ _, OutOfFuel
  | S fuel =>
      (* Initialize the JobRun with the first trigger *)
      jr ← setup j trigger;
      retryLoop s
        (λ tj trig, execCommandWithRetryContext fuel s tj Background trig)
        (Z.to_nat (wrap64 (JobSpec.Retries j + 1))) j ctx trigger 0 jr
  end.

Definition execCommandWithRetry (fuel : nat) (s : Schedule.t)
    (j : JobSpec.t) (trigger : string) : M JobRun.t :=
  execCommandWithRetryContext fuel s j Background trigger.

(** ** Invariants of the [log] table and sample tables *)

(** [UNIQUE(job, triggered_at, triggered_by)]. *)
Definition unique_keys (rows : list Row.t) : Prop :=
  NoDup (Row.key <$> rows).

(** [status == null] iff the row is persisted with [is_running = 1]. *)
Definition running_flag_ok (rows : list Row.t) : Prop :=
  ∀ r, r ∈ rows → (Row.is_running r = 1 ↔ Row.status r = None).

(** The four lines of [TestGetLogLines]. *)
Definition lines_1234 : list LogLine.t :=
  [ LogLine.mk 1 1 1 "t" "Starting job" "stdout";
    LogLine.mk 2 1 2 "t" "Processing data" "stdout";
    LogLine.mk 3 1 3 "t" "Warning: low memory" "stderr";
    LogLine.mk 4 1 4 "t" "Job completed" "stdout" ].


(** The run of [TestInsertOrUpdateJobRun] when it is first saved. *)
Definition run_test_job : JobRun.t :=
  JobRun.mk 0 None "" "Job is starting..." "test_job" 1696154400 "manual" [] 0.

(** [id INTEGER PRIMARY KEY]. *)
Definition unique_ids (rows : list Row.t) : Prop :=
  NoDup (Row.id <$> rows).

(** Two runs of different jobs, as [TestLoadJobRunsMultipleJobs] has them. *)
Definition rows_two_jobs : list Row.t :=
  [ Row.mk 1 "job_a" 1696154400 "manual" 1000 (Some 0) "Job A completed" 0;
    Row.mk 2 "job_b" 1696154460 "cron" 1000 (Some 0) "Job B completed" 0;
    Row.mk 3 "job_a" 1696154520 "webhook" 1000 (Some 0) "Job A second run" 0 ].

Definition db_two_jobs : DB.t := DB.mk rows_two_jobs 3 [] 0 3 [].

(** ** Observations on runs and traces *)

(** [out] occurs in [log]. *)
Definition contains (log out : string) : Prop :=
  ∃ pre post, log = pre +:+ out +:+ post.

(** The executor invocations of a trace: the (job, trigger) pairs of its
    "Job triggered" lines, which [execCommandContext] writes on entry. *)
Definition invocation (e : Event) : option (string * string) :=
  match e with
  | EvLog JobLogger Info [(k1, n); (k2, t)] msg =>
      if bool_decide (k1 = "job" ∧ k2 = "trigger" ∧ msg = "Job triggered")
      then Some (n, t) else None
  | _ => None
  end.

Definition invocations (tr : list Event) : list (string * string) :=
  omap invocation tr.



(** The status a child's behaviour yields when the context is not
    cancelled. *)
Definition statusOf (o : ProcOutcome) : Z :=
  match o with
  | StartError _ => StatusError
  | Ran _ _ WaitOk => StatusOK
  | Ran _ _ (WaitExitError code) => code
  | Ran _ _ (WaitError _) => StatusError
  end.

(** The status of the [i]-th attempt a job makes from world [w] on. *)
Definition attemptStatus (j : JobSpec.t) (w : World.t) (i : nat) : Z :=
  match JobSpec.Command j with
  | [] => StatusError
  | _ => statusOf (World.procs w (World.nprocs w + i)%nat)
  end.

(** The trigger argument of attempt [n]: the original trigger string for
    attempt 0, ["<trigger>[retry=n]"] afterwards. *)
Definition retryTrigger (trigger : string) (n : Z) : string :=
  if bool_decide (n = 0) then trigger
  else trigger +:+ "[retry=" +:+ pretty n +:+ "]".

(** The hooks a run of [j] can fire name no downstream job. *)
Definition noDownstream (s : Schedule.t) (j : JobSpec.t) : Prop :=
  OnEvent.TriggerJob (JobSpec.OnSuccess j) = []
  ∧ OnEvent.TriggerJob (JobSpec.OnError j) = []
  ∧ (JobSpec.globalSchedule j = true →
     OnEvent.TriggerJob (Schedule.OnSuccess s) = []
     ∧ OnEvent.TriggerJob (Schedule.OnError s) = []).

(** [w'] differs from [w] at most in the store, in the in-memory runs, in
    the webhook calls made and in trace lines that are not executor
    invocations. *)
Definition quietStep (w w' : World.t) : Prop :=
  World.now w' = World.now w
  ∧ World.procs w' = World.procs w
  ∧ World.nprocs w' = World.nprocs w
  ∧ World.hooks w' = World.hooks w
  ∧ World.locked w' = World.locked w
  ∧ invocations (World.trace w') = invocations (World.trace w).

(** A quiet step that also leaves the in-memory runs and the store
    alone. *)
Definition calmStep (w w' : World.t) : Prop :=
  quietStep w w'
  ∧ World.runs w' = World.runs w
  ∧ World.db w' = World.db w.


(** The job cannot panic in [logToDb]: it has a schedule to log to, or no
    store to write to. *)
Definition savesQuietly (j : JobSpec.t) : Prop :=
  JobSpec.globalSchedule j = true ∨ Config.DB (JobSpec.cfg j) = false.

(** ** Sample jobs and worlds *)

Definition noHooks : nat → string * error := λ _, ("", None).

(** Scenario S1: job [hello] runs [echo world]. *)
Definition jHello : JobSpec.t :=
  JobSpec.mk "" ["echo"; "world"] OnEvent.zero OnEvent.zero "hello" 0 ∅ ""
             false false (Config.mk false true).

Definition runHello : JobRun.t :=
  JobRun.mk 0 None "" "" "hello" 1000 "manual" [] 0.

Definition wHello : World.t :=
  World.mk DB.empty 1000 [] (λ _, Ran ("world" +:+ nl) 2000000 WaitOk) 0
           noHooks 0 ∅ [] [] (λ _, 0%nat) 0.

Definition sched0 : Schedule.t := Schedule.mk ∅ OnEvent.zero OnEvent.zero.

(** Scenario S2 with one retry: job [fail] runs [sh -c "exit 2"]. *)
Definition jFail : JobSpec.t :=
  JobSpec.mk "" ["sh"; "-c"; "exit 2"] OnEvent.zero OnEvent.zero "fail" 1 ∅ ""
             false true (Config.mk true true).

Definition wFail : World.t :=
  World.mk DB.empty 1000 [] (λ _, Ran "" 7000000 (WaitExitError 2)) 0
           noHooks 0 ∅ [] [] (λ _, 0%nat) 0.

(** A job with three retries whose command fails once and then succeeds. *)
Definition jFlaky : JobSpec.t :=
  JobSpec.mk "" ["flaky.sh"] OnEvent.zero OnEvent.zero "flaky" 3 ∅ ""
             false true (Config.mk true true).

Definition wFlaky : World.t :=
  World.mk DB.empty 1000 []
           (λ n, match n with
                 | O => Ran "" 7000000 (WaitExitError 1)
                 | _ => Ran "ok" 7000000 WaitOk
                 end) 0
           noHooks 0 ∅ [] [] (λ _, 0%nat) 0.

(** A job without a schedule, and a store whose next two statements fail. *)
Definition jSolo : JobSpec.t :=
  JobSpec.mk "" ["echo"; "world"] OnEvent.zero OnEvent.zero "solo" 0 ∅ ""
             false false (Config.mk true true).

Definition wBrokenStore : World.t :=
  World.mk (DB.set_faults [Some "disk I/O error"; Some "disk I/O error"]
              DB.empty) 1000 []
           (λ _, Ran ("world" +:+ nl) 2000000 WaitOk) 0 noHooks 0 ∅ [] [] (λ _, 0%nat) 0.

(** The same store under a job that has a schedule. *)
Definition jScheduled : JobSpec.t :=
  JobSpec.mk "" ["echo"; "world"] OnEvent.zero OnEvent.zero "scheduled" 0 ∅ ""
             false true (Config.mk true true).




Definition jParent : JobSpec.t :=
  JobSpec.mk "" ["echo"; "parent"] (OnEvent.mk ["child"] [] [] [])
             OnEvent.zero "parent" 0 ∅ "" false true (Config.mk true true).




Definition wFamily : World.t :=
  World.mk DB.empty 1000 [] (λ _, Ran "ok" 2000000 WaitOk) 0 noHooks 0 ∅ [] [] (λ _, 0%nat) 0.

(** A job with a secret in its environment. *)
Definition jSecret : JobSpec.t :=
  JobSpec.mk "" ["deploy.sh"] OnEvent.zero OnEvent.zero "deploy" 0
             (<["TOKEN" := secret.mk "hunter2"]> ∅) "" false false
             (Config.mk false true).

(** ** The rest of the store: [InitDB], [OpenDB], [LoadJobRuns] *)

Definition withLog (rows : list Row.t) (db : DB.t) : DB.t :=
  DB.mk rows (DB.log_seq db) (DB.log_lines db) (DB.log_lines_seq db)
        (DB.last_insert_rowid db) (DB.faults db).

(** [SELECT MIN(id) FROM log GROUP BY job, triggered_at, triggered_by]: the
    smallest id of every group, listed once per row of the group. *)
Definition minIds (rows : list Row.t) : list Z :=
  (λ r, foldr Z.min (Row.id r)
          (Row.id <$> filter (λ r', Row.key r' = Row.key r) rows)) <$> rows.

(** [DELETE FROM log WHERE id NOT IN (SELECT MIN(id) ... GROUP BY ...)]. *)
Definition cleanup (rows : list Row.t) : list Row.t :=
  filter (λ r, Row.id r ∈ minIds rows) rows.

(** [InitDB] on a connection whose tables have the columns of the current
    schema (an absent table is an empty one): the four schema statements
    change no row, the error of the [ALTER TABLE] is ignored, and the
    cleanup removes old, non-conforming records. *)
Definition InitDB (db : DB.t) : error * DB.t :=
  (* Create the log table if it doesn't exist *)
  match DB.step db with
  | (Some e, db1) => (Some ("create log table: " +:+ e), db1)
  | (None, db1) =>
      (* Add is_running column to existing log table if it doesn't exist;
         ignore error if column already exists *)
      let db2 := (DB.step db1).2 in
      (* Create the log_lines table *)
      match DB.step db2 with
      | (Some e, db3) => (Some ("create log_lines table: " +:+ e), db3)
      | (None, db3) =>
          (* Create index for efficient queries *)
          match DB.step db3 with
          | (Some e, db4) => (Some ("create log_lines index: " +:+ e), db4)
          | (None, db4) =>
              (* Perform cleanup to remove old, non-conforming records *)
              match DB.step db4 with
              | (Some e, db5) =>
                  (Some ("cleanup old log records: " +:+ e), db5)
              | (None, db5) => (None, withLog (cleanup (DB.log db5)) db5)
              end
          end
      end
  end.

(** [OpenDB], for a database file that [sqlx.Open] opens: [db] is what the
    file holds. *)
Definition OpenDB (db : DB.t) : option DB.t * error :=
  match InitDB db with
  | (Some e, _) => (None, Some ("init db: " +:+ e))
  | (None, db') => (Some db', None)
  end.

(** What [db.Select] scans into a run when the [message] column is not in
    the projection. *)
Definition run_of_row_nolog (r : Row.t) : JobRun.t :=
  JobRun.mk (Row.id r) (Row.status r) "" "" "" (Row.triggered_at r)
            (Row.triggered_by r) [] (Row.duration r).

(** [LIMIT ?]: a negative limit is no limit. *)
Definition limitRows (n : Z) (rows : list Row.t) : list Row.t :=
  if bool_decide (n < 0) then rows else take (Z.to_nat n) rows.

(** LoadJobRuns loads multiple job runs for a specific job. *)
Definition LoadJobRuns (db : DB.t) (jobName : string) (nruns : Z)
    (includeLogs : bool) : (list JobRun.t * error) * DB.t :=
  match DB.step db with
  | (Some e, db1) => (([], Some ("load job runs: " +:+ e)), db1)
  | (None, db1) =>
      (((if includeLogs then run_of_row else run_of_row_nolog)
          <$> limitRows nruns
                (merge_sort newer_first
                   (filter (λ r, Row.job r = jobName) (DB.log db1))),
        None), db1)
  end.

(** ** The rest of [job.go]: loading runs, [RunJob] *)

(** The in-memory [j.Runs] of the job called [name]. *)
Definition runsOf (name : string) (w : World.t) : list JobRun.t :=
  (filter (λ p, p.1 = name) (World.runs w)).*2.

Definition loadLogFromDb (j : JobSpec.t) (id : Z) : M (JobRun.t * error) :=
  if negb (Config.DB (JobSpec.cfg j)) then
    emit (EvLog JobLogger Warn [("job", JobSpec.Name j)]
            "No db connection, not loading job run from db.");;
    ret (JobRun.zero, Some "no db connection")
  else
    '(jr, err) ← (λ w, let '(res, db') :=
                         LoadJobRun (World.db w) (JobSpec.Name j) id
                       in Done res (World.set_db db' w));
    match err with
    | Some e =>
        emit (EvLog JobLogger Warn [("job", JobSpec.Name j); ("error", e)]
                "Couldn't load job run from db.");;
        ret (jr, Some e)
    | None => ret (jr, None)
    end.

(** [j.Runs = jrs] replaces the runs tagged with the job's name. *)
Definition loadRunsFromDb (j : JobSpec.t) (nruns : Z) (includeLogs : bool)
    : M unit :=
  if negb (Config.DB (JobSpec.cfg j)) then
    emit (EvLog JobLogger Warn [("job", JobSpec.Name j)]
            "No db connection, not loading job runs from db.")
  else
    '(jrs, err) ← (λ w, let '(res, db') :=
                          LoadJobRuns (World.db w) (JobSpec.Name j) nruns
                            includeLogs
                        in Done res (World.set_db db' w));
    match err with
    | Some e =>
        emit (EvLog JobLogger Warn [("job", JobSpec.Name j); ("error", e)]
                "Couldn't load job runs from db.")
    | None =>
        λ w, Done () (World.set_runs
                        (filter (λ p, p.1 ≠ JobSpec.Name j) (World.runs w)
                         ++ ((λ jr, (JobSpec.Name j, jr)) <$> jrs)) w)
    end.

(** [RunJob] once [loadSchedule] has returned the schedule [s] without
    error; [jobs] is the order in which [range s.Jobs] yields the jobs, and
    the answer pairs the run with the error ([JobRun{}] on error). *)
Definition RunJob (fuel : nat) (s : Schedule.t) (jobs : list JobSpec.t)
    (scheduleFn jobName : string) : M (JobRun.t * error) :=
  match filter (λ job, JobSpec.Name job = jobName) jobs with
  | job :: _ =>
      (* Use the setup function to create a JobRun instance *)
      jr ← setup job "manual";
      (* Execute the command with the initialized JobRun and the trigger *)
      jr ← execCommand job jr "manual";
      jr ← finalize s (execCommandWithRetry fuel s) job jr;
      ret (jr, None)
  | [] =>
      ret (JobRun.zero,
           Some ("cannot find job " +:+ jobName +:+ " in schedule "
                 +:+ scheduleFn))
  end.

(** The webhook calls of a trace, each with the run it was handed. *)
Definition calls (tr : list Event) : list (webhook.t * JobRun.t) :=
  omap (λ e, match e with EvCall wu jr => Some (wu, jr) | _ => None end) tr.

(** Between [w] and [w'] exactly the webhook calls [expected] were made, in
    some order. *)
Definition notified (w w' : World.t)
    (expected : list (webhook.t * JobRun.t)) : Prop :=
  ∃ added, calls (World.trace w') = calls (World.trace w) ++ added
           ∧ added ≡ₚ expected.

(** [AUTOINCREMENT]: the table's sequence value is not negative, and every
    id in use is positive and at most the sequence value. *)
Definition ids_bounded (db : DB.t) : Prop :=
  0 ≤ DB.log_seq db ∧ ∀ r, r ∈ DB.log db → 0 < Row.id r ≤ DB.log_seq db.

(** [UNIQUE(job_run_id, line_number)]. *)
Definition unique_lines (tbl : list LogLine.t) : Prop :=
  NoDup ((λ l, (LogLine.JobRunID l, LogLine.LineNumber l)) <$> tbl).

(** A legacy [log] table in which one key occurs twice, as [TestInitDB]
    builds it. *)
Definition rows_legacy : list Row.t :=
  [ Row.mk 1 "job1" 1696154400 "user1" 120 (Some 1) "Success" 0;
    Row.mk 2 "job1" 1696154400 "user1" 150 (Some 1) "Success" 0;
    Row.mk 3 "job1" 1696158000 "user2" 90 (Some 0) "Failed" 0 ].

Definition db_legacy : DB.t := DB.mk rows_legacy 3 [] 0 3 [].

(** What the [i]-th attempt a job makes from world [w] on appends to the
    run's log buffer, and the time its child takes. *)
Definition attemptOutput (j : JobSpec.t) (w : World.t) (i : nat) : string :=
  match JobSpec.Command j with
  | [] => ""
  | _ =>
      match World.procs w (World.nprocs w + i)%nat with
      | StartError e => "job unable to start: " +:+ e
      | Ran output _ _ => output
      end
  end.

Definition attemptElapsed (j : JobSpec.t) (w : World.t) (i : nat) : Z :=
  match JobSpec.Command j with
  | [] => 0
  | _ =>
      match World.procs w (World.nprocs w + i)%nat with
      | StartError _ => 0
      | Ran _ elapsed _ => elapsed
      end
  end.

(** The outputs of attempts [0 .. n-1], one after the other, and the time
    they take together. *)
Fixpoint outputsTo (j : JobSpec.t) (w : World.t) (n : nat) : string :=
  match n with
  | O => ""
  | S n => outputsTo j w n +:+ attemptOutput j w n
  end.

Fixpoint elapsedTo (j : JobSpec.t) (w : World.t) (n : nat) : Z :=
  match n with
  | O => 0
  | S n => elapsedTo j w n + attemptElapsed j w n
  end.

(** The world but for its trace. *)
Definition untraced (w : World.t) : World.t := World.set_trace [] w.

(** A job whose error hook notifies a plain and a Slack webhook, under a
    schedule whose error hook notifies a Discord one; the second webhook
    call fails. *)
Definition jNotify : JobSpec.t :=
  JobSpec.mk "" ["sh"; "-c"; "exit 2"] OnEvent.zero
             (OnEvent.mk [] ["http://hook"] ["http://slack"] [])
             "notify" 0 ∅ "" false true (Config.mk false true).

Definition schedNotify : Schedule.t :=
  Schedule.mk (<["notify" := jNotify]> ∅) OnEvent.zero
              (OnEvent.mk [] [] [] ["http://discord"]).

Definition runFailed : JobRun.t :=
  JobRun.mk 0 (Some 2) "oops" "oops" "notify" 1000 "manual" [] 7.

Definition wNotify : World.t :=
  World.mk DB.empty 1000 [] (λ _, Ran "oops" 7000000 (WaitExitError 2)) 0
           (λ n, match n with
                 | 1%nat => ("", Some "connection refused")
                 | _ => ("ok", None)
                 end) 0 ∅ [] [] (λ _, 0%nat) 0.

(** A job whose retry count is -1. *)
Definition jNever : JobSpec.t :=
  JobSpec.mk "" ["echo"; "world"] OnEvent.zero OnEvent.zero "never" (-1) ∅ ""
             false true (Config.mk true true).

(** The attempts of [j] seen from a world [w'] in which one more of its
    children has run than in [w]. *)
Definition shifted (j : JobSpec.t) (w w' : World.t) : Prop :=
  ∀ i, attemptStatus j w' i = attemptStatus j w (S i)
       ∧ attemptOutput j w' i = attemptOutput j w (S i)
       ∧ attemptElapsed j w' i = attemptElapsed j w (S i).

(** A job without a store, with three retries, whose command fails once
    and then succeeds, writing a line each time. *)
Definition jChatty : JobSpec.t :=
  JobSpec.mk "" ["chatty.sh"] OnEvent.zero OnEvent.zero "chatty" 3 ∅ ""
             false false (Config.mk false true).

Definition wChatty : World.t :=
  World.mk DB.empty 1000 []
           (λ n, match n with
                 | O => Ran "first;" 7000000 (WaitExitError 1)
                 | _ => Ran "second;" 3000000 WaitOk
                 end) 0
           noHooks 0 ∅ [] [] (λ _, 0%nat) 0.

(** What a trace shows on the scheduler's own standard output. *)
Definition stdout (tr : list Event) : list string :=
  omap (λ e, match e with EvStdout text => Some text | _ => None end) tr.

(** A job that runs one at a time and triggers itself on success. *)
Definition jLoop : JobSpec.t :=
  JobSpec.mk "" ["echo"; "ok"] (OnEvent.mk ["loop"] [] [] []) OnEvent.zero
             "loop" 0 ∅ "" true true (Config.mk true true).

Definition schedLoop : Schedule.t :=
  Schedule.mk (<["loop" := jLoop]> ∅) OnEvent.zero OnEvent.zero.

(** A job that triggers itself on success, without the one-at-a-time
    limit. *)
Definition jAgain : JobSpec.t :=
  JobSpec.mk "" ["echo"; "ok"] (OnEvent.mk ["again"] [] [] []) OnEvent.zero
             "again" 0 ∅ "" false true (Config.mk true true).

Definition schedAgain : Schedule.t :=
  Schedule.mk (<["again" := jAgain]> ∅) OnEvent.zero OnEvent.zero.

(** A job with one retry whose command always fails and whose error hook
    names the job itself. *)
Definition jRetrigger : JobSpec.t :=
  JobSpec.mk "" ["sh"; "-c"; "exit 2"] OnEvent.zero
             (OnEvent.mk ["retrigger"] [] [] []) "retrigger" 1 ∅ ""
             false true (Config.mk true true).

Definition schedRetrigger : Schedule.t :=
  Schedule.mk (<["retrigger" := jRetrigger]> ∅) OnEvent.zero OnEvent.zero.

(** * Properties of the store *)

Section log_lines.
Implicit Types (tbl : list LogLine.t) (l : LogLine.t) (id n : Z).

Global Instance line_le_total : Total line_le.
Proof. intros a b. unfold line_le. lia. Qed.

Global Instance line_le_trans : Transitive line_le.
Proof. intros a b c. unfold line_le. lia. Qed.

Lemma select_log_lines_perm tbl id n :
  select_log_lines tbl id n
  ≡ₚ filter (λ l, LogLine.JobRunID l = id ∧ n < LogLine.LineNumber l) tbl.
Proof. apply merge_sort_Permutation. Qed.



Lemma select_log_lines_empty tbl id n :
  (∀ l, l ∈ tbl → LogLine.JobRunID l = id → LogLine.LineNumber l ≤ n) →
  select_log_lines tbl id n = [].
Proof.
  intros Hnone. apply Permutation_nil_r. rewrite select_log_lines_perm.
  induction tbl as [|x tbl IH]; [done|].
  rewrite filter_cons. destruct (decide _) as [[Hid Hn]|_].
  - specialize (Hnone x (list_elem_of_here _ _) Hid). lia.
  - apply IH. intros l Hl. apply Hnone. by constructor.
Qed.

End log_lines.



Section log_table.
Implicit Types (rows : list Row.t) (r : Row.t) (jr : JobRun.t).

Lemma excluded_key jr ir r : Row.key (excluded jr ir r) = Row.key r.
Proof. done. Qed.

Lemma upsert_update_keys jr ir rows :
  Row.key <$> ((λ r, if bool_decide (same_key jr r)
                     then excluded jr ir r else r) <$> rows)
  = Row.key <$> rows.
Proof.
  rewrite <-list_fmap_compose. apply list_fmap_ext. intros _ r _. simpl.
  by case_bool_decide.
Qed.

Lemma upsert_update_filter jr ir rows :
  unique_keys rows → Exists (same_key jr) rows →
  ∃ r0, r0 ∈ rows ∧ same_key jr r0
    ∧ filter (same_key jr)
        ((λ r, if bool_decide (same_key jr r)
               then excluded jr ir r else r) <$> rows)
      = [excluded jr ir r0].
Proof.
  unfold unique_keys. induction rows as [|x rows IH]; intros Hnd Hex.
  { by apply Exists_nil in Hex. }
  rewrite fmap_cons in Hnd. apply NoDup_cons in Hnd as [Hx Hnd].
  rewrite fmap_cons. destruct (decide (same_key jr x)) as [Hk|Hk].
  - exists x. split; [by left|]. split; [done|].
    rewrite bool_decide_eq_true_2 by done.
    rewrite filter_cons_True by done. f_equal.
    apply Permutation_nil_r, Permutation_nil_r.
    clear IH Hnd Hex. induction rows as [|y rows IH]; [done|].
    rewrite fmap_cons in Hx. apply not_elem_of_cons in Hx as [Hxy Hx].
    rewrite fmap_cons. case_bool_decide as Hy.
    { unfold same_key in Hk, Hy. congruence. }
    rewrite filter_cons_False by done. by apply IH.
  - apply Exists_cons in Hex as [?|Hex]; [done|].
    destruct (IH Hnd Hex) as (r0 & Hin & Hr0 & Hflt).
    exists r0. split; [by right|]. split; [done|].
    rewrite bool_decide_eq_false_2 by done.
    by rewrite filter_cons_False.
Qed.

Lemma filter_same_key_absent jr rows :
  ¬ Exists (same_key jr) rows → filter (same_key jr) rows = [].
Proof.
  intros Hno. induction rows as [|x rows IH]; [done|].
  rewrite filter_cons_False; [apply IH|]; intros ?; apply Hno;
    [by right|by left].
Qed.
End log_table.

(** What a successful [InsertOrUpdateJobRun] does to the table and to the run. *)
Lemma InsertOrUpdateJobRun_ok (db : DB.t) (jr : JobRun.t) :
  DB.faults db = [] → unique_keys (DB.log db) →
  ∃ jr' db' r,
    InsertOrUpdateJobRun db jr = ((jr', None), db')
    ∧ DB.faults db' = []
    ∧ filter (same_key jr) (DB.log db') = [r]
    ∧ (Row.is_running r = 1 ↔ JobRun.Status jr = None)
    ∧ (Row.is_running r = 0 ↔ JobRun.Status jr ≠ None)
    ∧ Row.status r = JobRun.Status jr
    ∧ Row.duration r = JobRun.Duration jr
    ∧ Row.message r = JobRun.Log jr
    ∧ (∀ r0, r0 ∈ DB.log db → same_key jr r0 →
         length (DB.log db') = length (DB.log db)
         ∧ Row.id r = Row.id r0
         ∧ DB.last_insert_rowid db' = DB.last_insert_rowid db)
    ∧ ((∀ r0, r0 ∈ DB.log db → ¬ same_key jr r0) →
         DB.log db' = DB.log db ++ [r]
         ∧ Row.id r = DB.log_seq db + 1
         ∧ DB.last_insert_rowid db' = Row.id r)
    ∧ (∀ r0, r0 ∈ DB.log db → ¬ same_key jr r0 → r0 ∈ DB.log db')
    ∧ unique_keys (DB.log db')
    ∧ (running_flag_ok (DB.log db) → running_flag_ok (DB.log db'))
    ∧ (JobRun.LogEntryId jr ≠ 0 → jr' = jr)
    ∧ (JobRun.LogEntryId jr = 0 →
         jr' = JobRun.set_LogEntryId
                 (if bool_decide (0 < DB.last_insert_rowid db')
                  then DB.last_insert_rowid db' else Row.id r) jr).
Proof.
  intros Hf Huniq.
  set (ir := match JobRun.Status jr with None => 1 | Some _ => 0 end).
  assert ((ir = 1 ↔ JobRun.Status jr = None)
          ∧ (ir = 0 ↔ JobRun.Status jr ≠ None)) as [Hir1 Hir0].
  { unfold ir. destruct (JobRun.Status jr); split; split; done. }
  (* the table after the UPSERT *)
  assert (∃ r,
    filter (same_key jr) (DB.log (upsert db jr ir)) = [r]
    ∧ Row.is_running r = ir
    ∧ Row.status r = JobRun.Status jr
    ∧ Row.duration r = JobRun.Duration jr
    ∧ Row.message r = JobRun.Log jr
    ∧ (∀ r0, r0 ∈ DB.log db → same_key jr r0 →
         length (DB.log (upsert db jr ir)) = length (DB.log db)
         ∧ Row.id r = Row.id r0
         ∧ DB.last_insert_rowid (upsert db jr ir) = DB.last_insert_rowid db)
    ∧ ((∀ r0, r0 ∈ DB.log db → ¬ same_key jr r0) →
         DB.log (upsert db jr ir) = DB.log db ++ [r]
         ∧ Row.id r = DB.log_seq db + 1
         ∧ DB.last_insert_rowid (upsert db jr ir) = Row.id r)
    ∧ (∀ r0, r0 ∈ DB.log db → ¬ same_key jr r0 →
         r0 ∈ DB.log (upsert db jr ir))
    ∧ unique_keys (DB.log (upsert db jr ir))
    ∧ (running_flag_ok (DB.log db) →
       running_flag_ok (DB.log (upsert db jr ir)))) as Hups.
  { unfold upsert. case_bool_decide as Hex; simpl.
    - destruct (upsert_update_filter jr ir _ Huniq Hex)
        as (r1 & Hin1 & Hk1 & Hflt).
      exists (excluded jr ir r1). split; [done|]. do 4 (split; [done|]).
      split.
      { intros r0 Hin0 Hk0. rewrite length_fmap.
        split; [done|]. split; [|done]. simpl. f_equal.
        assert (Row.key r1 = Row.key r0) as Hkk
          by (unfold same_key in *; congruence).
        clear -Hin0 Hin1 Hkk Huniq. unfold unique_keys in Huniq.
        apply list_elem_of_lookup in Hin0 as [i Hi].
        apply list_elem_of_lookup in Hin1 as [j Hj].
        assert (i = j) as ->; [|congruence].
        eapply NoDup_lookup; [exact Huniq|..];
          rewrite list_lookup_fmap; [by rewrite Hi|rewrite Hj; simpl; congruence]. }
      split.
      { intros Hnone. by destruct (Hnone r1 Hin1). }
      split.
      { intros r0 Hin0 Hk0. apply list_elem_of_fmap. exists r0.
        by rewrite bool_decide_eq_false_2. }
      split.
      { unfold unique_keys. by rewrite upsert_update_keys. }
      intros Hinv r [r0 [-> Hin0]]%list_elem_of_fmap.
      case_bool_decide; [|by apply Hinv]. simpl.
      rewrite Hir1. done.
    - eexists. split.
      { rewrite filter_app, filter_same_key_absent by done.
        rewrite filter_cons_True by done. done. }
      do 4 (split; [done|]).
      split.
      { intros r0 Hin0 Hk0. destruct Hex. apply Exists_exists. eauto. }
      split; [done|].
      split.
      { intros r0 Hin0 _. apply elem_of_app. by left. }
      split.
      { unfold unique_keys. rewrite fmap_app. apply NoDup_app.
        split; [done|]. split; [|apply NoDup_singleton].
        intros k [r0 [-> Hin0]]%list_elem_of_fmap Hk.
        apply list_elem_of_singleton in Hk.
        apply Hex, Exists_exists. by exists r0. }
      intros Hinv r [Hin|Hin]%elem_of_app; [by apply Hinv|].
      apply list_elem_of_singleton in Hin as ->. simpl. rewrite Hir1. done. }
  destruct Hups as (r & Hflt & Hrun & Hst & Hdur & Hmsg & Hupd & Hins
                    & Hkeep & Huniq' & Hinv).
  assert (DB.faults (upsert db jr ir) = []) as Hf'.
  { unfold upsert. by case_bool_decide. }
  unfold InsertOrUpdateJobRun, DB.step. rewrite Hf. fold ir.
  destruct (decide (JobRun.LogEntryId jr = 0)) as [Hid|Hid].
  - rewrite (bool_decide_eq_true_2 _ Hid).
    destruct (decide (0 < DB.last_insert_rowid (upsert db jr ir)))
      as [Hlast|Hlast].
    + rewrite (bool_decide_eq_true_2 _ Hlast).
      rewrite bool_decide_eq_false_2 by (simpl; lia).
      eexists _, _, r. split; [reflexivity|]. split; [done|].
      rewrite Hrun, (bool_decide_eq_true_2 _ Hlast).
      repeat (split; [done|]). done.
    + rewrite (bool_decide_eq_false_2 _ Hlast).
      rewrite (bool_decide_eq_true_2 _ Hid), Hf', Hflt. simpl.
      eexists _, _, r. split; [reflexivity|]. split; [done|].
      rewrite Hrun, (bool_decide_eq_false_2 _ Hlast).
      repeat (split; [done|]). done.
  - rewrite (bool_decide_eq_false_2 _ Hid).
    eexists _, _, r. split; [reflexivity|]. split; [done|].
    rewrite Hrun. repeat (split; [done|]). done.
Qed.

(** C6. [InsertOrUpdateJobRun] derives [is_running] from the status: the
    persisted row of the run has [is_running = 1] exactly when the status
    is null and [0] otherwise.  The call updates the row matched by the
    unique key or inserts a new one, fills [LogEntryId] from the last
    inserted id or by lookup, and keeps the table invariant
    [status == null] iff [is_running = 1]. *)
Theorem InsertOrUpdateJobRun_is_running (db : DB.t) (jr : JobRun.t) :
  DB.faults db = [] → unique_keys (DB.log db) →
  ∃ jr' db' r,
    InsertOrUpdateJobRun db jr = ((jr', None), db')
    ∧ filter (same_key jr) (DB.log db') = [r]
    ∧ (Row.is_running r = 1 ↔ JobRun.Status jr = None)
    ∧ (Row.is_running r = 0 ↔ JobRun.Status jr ≠ None)
    ∧ Row.status r = JobRun.Status jr
    ∧ Row.duration r = JobRun.Duration jr
    ∧ Row.message r = JobRun.Log jr
    ∧ (∀ r0, r0 ∈ DB.log db → same_key jr r0 →
         length (DB.log db') = length (DB.log db)
         ∧ Row.id r = Row.id r0
         ∧ DB.last_insert_rowid db' = DB.last_insert_rowid db)
    ∧ ((∀ r0, r0 ∈ DB.log db → ¬ same_key jr r0) →
         DB.log db' = DB.log db ++ [r]
         ∧ Row.id r = DB.log_seq db + 1
         ∧ DB.last_insert_rowid db' = Row.id r)
    ∧ (∀ r0, r0 ∈ DB.log db → ¬ same_key jr r0 → r0 ∈ DB.log db')
    ∧ unique_keys (DB.log db')
    ∧ (running_flag_ok (DB.log db) → running_flag_ok (DB.log db'))
    ∧ (JobRun.LogEntryId jr ≠ 0 → jr' = jr)
    ∧ (JobRun.LogEntryId jr = 0 →
         jr' = JobRun.set_LogEntryId
                 (if bool_decide (0 < DB.last_insert_rowid db')
                  then DB.last_insert_rowid db' else Row.id r) jr).
Proof.
  intros Hf Huniq.
  destruct (InsertOrUpdateJobRun_ok db jr Hf Huniq)
    as (jr' & db' & r & Hcall & _ & Hrest).
  by exists jr', db', r.
Qed.

Lemma InsertOrUpdateJobRun_is_running_witness :
  ∃ jr' db' r,
    InsertOrUpdateJobRun DB.empty run_test_job = ((jr', None), db')
    ∧ DB.log db' = [r]
    ∧ Row.is_running r = 1
    ∧ JobRun.LogEntryId jr' = 1.
Proof.
  destruct (InsertOrUpdateJobRun_is_running DB.empty run_test_job eq_refl
              (NoDup_nil_2 : unique_keys (DB.log DB.empty)))
    as (jr' & db' & r & Hcall & _ & Hrun & _ & _ & _ & _ & _ & Hins & _ & _
        & _ & _ & Hid).
  exists jr', db', r.
  destruct Hins as (Hlog & Hrid & Hlast).
  { intros r0 Hr0. by apply elem_of_nil in Hr0. }
  split; [done|]. split; [done|]. split; [by apply Hrun|].
  rewrite (Hid eq_refl), Hlast, Hrid. done.
Defined.

Section load.
Implicit Types (rows : list Row.t) (r : Row.t).

Global Instance newer_first_total : Total newer_first.
Proof. intros a b. unfold newer_first. lia. Qed.

Global Instance newer_first_trans : Transitive newer_first.
Proof. intros a b c. unfold newer_first. lia. Qed.

(** The head of the rows sorted newest first is a newest row. *)
Lemma head_newest rows r :
  head (merge_sort newer_first rows) = Some r →
  r ∈ rows ∧ ∀ r', r' ∈ rows → Row.triggered_at r' ≤ Row.triggered_at r.
Proof.
  intros Hhd.
  pose proof (StronglySorted_merge_sort newer_first rows) as Hs.
  pose proof (merge_sort_Permutation newer_first rows) as Hp.
  apply head_Some in Hhd as [tl Htl]. rewrite Htl in Hs, Hp.
  apply StronglySorted_inv in Hs as [_ Hall]. split.
  - rewrite <-Hp. by left.
  - intros r' Hr'. rewrite <-Hp in Hr'.
    apply elem_of_cons in Hr' as [->|Hr']; [done|].
    rewrite Forall_forall in Hall. by apply Hall.
Qed.

Lemma head_merge_sort_is_Some rows r :
  r ∈ rows → is_Some (head (merge_sort newer_first rows)).
Proof.
  intros Hr. apply head_is_Some. intros Hnil.
  pose proof (merge_sort_Permutation newer_first rows) as Hp.
  rewrite Hnil in Hp. apply Permutation_nil_l in Hp. subst rows.
  by apply elem_of_nil in Hr.
Qed.

Lemma head_filter_unique (P : Row.t → Prop) `{!∀ r, Decision (P r)} rows r :
  r ∈ rows → P r → (∀ r', r' ∈ rows → P r' → r' = r) →
  head (filter P rows) = Some r.
Proof.
  intros Hin HP Huniq.
  assert (r ∈ filter P rows) as Hf by (by apply list_elem_of_filter).
  destruct (filter P rows) as [|x tl] eqn:Heq.
  { by apply elem_of_nil in Hf. }
  simpl. f_equal. assert (x ∈ filter P rows) as Hx by (rewrite Heq; by left).
  apply list_elem_of_filter in Hx as [? ?]. by apply Huniq.
Qed.

Lemma unique_ids_eq rows r r' :
  unique_ids rows → r ∈ rows → r' ∈ rows → Row.id r' = Row.id r → r' = r.
Proof.
  unfold unique_ids. intros Hnd [i Hi]%list_elem_of_lookup
    [j Hj]%list_elem_of_lookup Hid.
  assert (j = i) as ->; [|congruence].
  eapply NoDup_lookup; [exact Hnd|..]; rewrite list_lookup_fmap;
    [by rewrite Hj|rewrite Hi; simpl; congruence].
Qed.
End load.

(** C8. [LoadJobRun] with the sentinel id -1 returns a run of the job
    whose [triggered_at] is the latest among the job's runs; with any other
    id it returns the run stored under that exact id; in both cases it
    returns an error when no row matches.  The run returned carries the
    row's id, status, message (as its log), trigger time, trigger and
    duration, and no name. *)
Theorem LoadJobRun_latest_or_exact (db : DB.t) (jobName : string) (id : Z) :
  DB.faults db = [] →
  (id = -1 →
     ((∀ r, r ∈ DB.log db → Row.job r ≠ jobName) →
        ∃ jr e, LoadJobRun db jobName id = ((jr, Some e), db))
     ∧ ((∃ r, r ∈ DB.log db ∧ Row.job r = jobName) →
        ∃ r, r ∈ DB.log db ∧ Row.job r = jobName
          ∧ (∀ r', r' ∈ DB.log db → Row.job r' = jobName →
                   Row.triggered_at r' ≤ Row.triggered_at r)
          ∧ LoadJobRun db jobName id
            = ((JobRun.mk (Row.id r) (Row.status r) "" (Row.message r) ""
                  (Row.triggered_at r) (Row.triggered_by r) []
                  (Row.duration r), None), db)))
  ∧ (id ≠ -1 →
     ((∀ r, r ∈ DB.log db → Row.id r ≠ id) →
        ∃ jr e, LoadJobRun db jobName id = ((jr, Some e), db))
     ∧ ((∃ r, r ∈ DB.log db ∧ Row.id r = id) →
        ∃ r, r ∈ DB.log db ∧ Row.id r = id
          ∧ LoadJobRun db jobName id
            = ((JobRun.mk id (Row.status r) "" (Row.message r) ""
                  (Row.triggered_at r) (Row.triggered_by r) []
                  (Row.duration r), None), db))).
Proof.
  intros Hf. unfold LoadJobRun, DB.step. rewrite Hf. split; intros Hid.
  - rewrite (bool_decide_eq_true_2 _ Hid). split.
    + intros Hnone.
      assert (filter (λ r, Row.job r = jobName) (DB.log db) = []) as ->.
      { apply Permutation_nil_r, Permutation_nil_r.
        induction (DB.log db) as [|x l IH]; [done|].
        rewrite filter_cons_False; [apply IH|].
        - intros r Hr. apply Hnone. by right.
        - apply Hnone. by left. }
      by eexists _, _.
    + intros (r0 & Hin0 & Hjob0).
      destruct (head_merge_sort_is_Some
                  (filter (λ r, Row.job r = jobName) (DB.log db)) r0)
        as [r Hhd].
      { by apply list_elem_of_filter. }
      rewrite Hhd. apply head_newest in Hhd as [Hin Hmax].
      apply list_elem_of_filter in Hin as [Hjob Hin].
      exists r. do 2 (split; [done|]). split; [|done].
      intros r' Hin' Hjob'. apply Hmax. by apply list_elem_of_filter.
  - rewrite (bool_decide_eq_false_2 _ Hid). split.
    + intros Hnone.
      assert (filter (λ r, Row.id r = id) (DB.log db) = []) as ->.
      { apply Permutation_nil_r, Permutation_nil_r.
        induction (DB.log db) as [|x l IH]; [done|].
        rewrite filter_cons_False; [apply IH|].
        - intros r Hr. apply Hnone. by right.
        - apply Hnone. by left. }
      by eexists _, _.
    + intros (r0 & Hin0 & Hid0).
      destruct (filter (λ r, Row.id r = id) (DB.log db)) as [|r tl] eqn:Heq.
      { assert (r0 ∈ filter (λ r, Row.id r = id) (DB.log db)) as Hr0
          by (by apply list_elem_of_filter).
        rewrite Heq in Hr0. by apply elem_of_nil in Hr0. }
      assert (r ∈ filter (λ r, Row.id r = id) (DB.log db)) as Hr
        by (rewrite Heq; by left).
      apply list_elem_of_filter in Hr as [Hrid Hr]. simpl.
      exists r. do 2 (split; [done|]). unfold run_of_row. by rewrite Hrid.
Qed.

Lemma LoadJobRun_latest_or_exact_witness :
  LoadJobRun db_two_jobs "job_a" (-1)
  = ((JobRun.mk 3 (Some 0) "" "Job A second run" "" 1696154520 "webhook" []
        1000, None), db_two_jobs)
  ∧ ∃ jr e, LoadJobRun db_two_jobs "job_a" 9999 = ((jr, Some e), db_two_jobs).
Proof.
  destruct (LoadJobRun_latest_or_exact db_two_jobs "job_a" (-1) eq_refl)
    as [Hlatest _].
  destruct (LoadJobRun_latest_or_exact db_two_jobs "job_a" 9999 eq_refl)
    as [_ Hexact].
  split.
  - destruct Hlatest as [_ Hsome]; [done|].
    destruct Hsome as (r & _ & _ & _ & Hload).
    { eexists. split; [by left|done]. }
    rewrite Hload.
    pose proof (f_equal (λ x, x.1.1) Hload) as Hjr. simpl in Hjr.
    rewrite <-Hjr. by vm_compute.
  - destruct Hexact as [Hnone _]; [done|]. apply Hnone.
    apply Forall_forall. by repeat constructor.
Defined.

(** C10. For an id other than the sentinel -1, [LoadJobRun] selects by the
    id alone and never reads the job name: every job name gives the same
    answer, so when the row stored under that id belongs to another job
    the call succeeds and returns that other job's run, with that row's
    id, status, message, trigger time, trigger and duration. *)
Theorem LoadJobRun_by_id_ignores_job
    (db : DB.t) (jobName other : string) (id : Z) :
  id ≠ -1 →
  LoadJobRun db jobName id = LoadJobRun db other id
  ∧ (DB.faults db = [] → unique_ids (DB.log db) →
     ∀ r, r ∈ DB.log db → Row.id r = id → Row.job r ≠ jobName →
          LoadJobRun db jobName id
          = ((JobRun.mk id (Row.status r) "" (Row.message r) ""
                (Row.triggered_at r) (Row.triggered_by r) []
                (Row.duration r), None), db)).
Proof.
  intros Hid. unfold LoadJobRun. rewrite (bool_decide_eq_false_2 _ Hid).
  split; [done|]. intros Hf Huniq r Hin Hrid _.
  unfold DB.step. rewrite Hf.
  assert (head (filter (λ r, Row.id r = id) (DB.log db)) = Some r) as ->;
    [|unfold run_of_row; by rewrite Hrid].
  apply head_filter_unique; [done..|].
  intros r' Hin' Hrid'. apply (unique_ids_eq (DB.log db)); [done..|congruence].
Qed.

Lemma LoadJobRun_by_id_ignores_job_witness :
  LoadJobRun db_two_jobs "job_a" 2 = LoadJobRun db_two_jobs "job_c" 2
  ∧ LoadJobRun db_two_jobs "job_a" 2
    = ((JobRun.mk 2 (Some 0) "" "Job B completed" "" 1696154460 "cron" []
          1000, None), db_two_jobs).
Proof.
  destruct (LoadJobRun_by_id_ignores_job db_two_jobs "job_a" "job_c" 2)
    as [Hsame Hother]; [done|].
  split; [exact Hsame|].
  refine (Hother eq_refl _
            (Row.mk 2 "job_b" 1696154460 "cron" 1000 (Some 0)
               "Job B completed" 0) _ eq_refl _).
  - unfold unique_ids. compute_done.
  - by right; left.
  - done.
Defined.

(** * Properties of the executor *)

Section monad.
Context {A B : Type}.
Implicit Types (m : M A) (f : A → M B) (w : World.t).

Lemma bind_Done m f w a w' : m w = Done a w' → (m ≫= f) w = f a w'.
Proof. unfold mbind, M_bind. by intros ->. Qed.

Lemma bind_Panicked m f w e w' :
  m w = Panicked e w' → (m ≫= f) w = Panicked e w'.
Proof. unfold mbind, M_bind. by intros ->. Qed.

Lemma bind_inv_Done m f w b w2 :
  (m ≫= f) w = Done b w2 → ∃ a w1, m w = Done a w1 ∧ f a w1 = Done b w2.
Proof. unfold mbind, M_bind. destruct (m w); try done. eauto. Qed.
End monad.

Lemma append_empty_r (s : string) : s +:+ "" = s.
Proof.
  induction s as [|c s IH]; [done|].
  change (String c (s +:+ "") = String c s). by rewrite IH.
Qed.

Lemma append_assoc (s1 s2 s3 : string) :
  (s1 +:+ s2) +:+ s3 = s1 +:+ s2 +:+ s3.
Proof.
  induction s1 as [|c s1 IH]; [done|].
  change (String c ((s1 +:+ s2) +:+ s3) = String c (s1 +:+ s2 +:+ s3)).
  by rewrite IH.
Qed.

Lemma invocations_app tr1 tr2 :
  invocations (tr1 ++ tr2) = invocations tr1 ++ invocations tr2.
Proof. apply omap_app. Qed.

Lemma ctxErr_Done ctx w : ∃ b, ctxErr ctx w = Done b w.
Proof. destruct ctx; by eexists. Qed.

(** What one call of the executor does to the run and to the world. *)
Lemma execCommandContext_Done j ctx jr trigger w :
  ∃ jr' w',
    execCommandContext j ctx jr trigger w = Done jr' w'
    ∧ is_Some (JobRun.Status jr')
    ∧ (JobRun.LogEntryId jr', JobRun.Name jr', JobRun.TriggeredAt jr',
       JobRun.TriggeredBy jr')
      = (JobRun.LogEntryId jr, JobRun.Name jr, JobRun.TriggeredAt jr,
         JobRun.TriggeredBy jr)
    ∧ World.db w' = World.db w
    ∧ World.procs w' = World.procs w
    ∧ World.hooks w' = World.hooks w
    ∧ World.locked w' = World.locked w
    ∧ invocations (World.trace w')
      = invocations (World.trace w) ++ [(JobSpec.Name j, trigger)]
    ∧ match JobSpec.Command j with
      | [] =>
          JobRun.Status jr' = Some StatusError
          ∧ JobRun.logBuf jr' = JobRun.logBuf jr
          ∧ World.nprocs w' = World.nprocs w
      | _ =>
          World.nprocs w' = S (World.nprocs w)
          ∧ match World.procs w (World.nprocs w) with
            | StartError e =>
                JobRun.Status jr' = Some StatusError
                ∧ JobRun.logBuf jr'
                  = JobRun.logBuf jr +:+ "job unable to start: " +:+ e
            | Ran output elapsed res =>
                JobRun.logBuf jr' = JobRun.logBuf jr +:+ output
                ∧ match res with
                  | WaitOk =>
                      JobRun.Status jr' = Some StatusOK
                      ∧ JobRun.Log jr' = JobRun.Log jr
                      ∧ JobRun.Duration jr'
                        = Milliseconds (Since (World.now w + elapsed)
                                          (JobRun.TriggeredAt jr))
                  | WaitExitError code =>
                      JobRun.Status jr'
                      = Some (if doneBy ctx (World.now w + elapsed)
                              then StatusError else code)
                      ∧ JobRun.Duration jr'
                        = Milliseconds (Since (World.now w + elapsed)
                                          (JobRun.TriggeredAt jr))
                  | WaitError _ =>
                      JobRun.Status jr' = Some StatusError
                      ∧ JobRun.Duration jr' = JobRun.Duration jr
                  end
            end
      end.
Proof.
  unfold execCommandContext.
  destruct (JobSpec.Command j) as [|c argv] eqn:Hcmd.
  { destruct (Config.SuppressLogs (JobSpec.cfg j)); eexists _, _;
      (split; [reflexivity|]); simpl;
      rewrite ?invocations_app, ?app_nil_r; by repeat split. }
  unfold mbind, M_bind, emit, osEnviron, Start. simpl.
  destruct (World.procs w (World.nprocs w)) as [e|output elapsed res].
  { destruct (Config.SuppressLogs (JobSpec.cfg j)); eexists _, _;
      (split; [reflexivity|]); simpl;
      rewrite ?invocations_app, ?app_nil_r; by repeat split. }
  destruct res as [|code|e].
  - destruct (Config.SuppressLogs (JobSpec.cfg j)); eexists _, _;
      (split; [reflexivity|]); simpl;
      rewrite ?invocations_app, ?app_nil_r; by repeat split.
  - unfold ctxErr, mbind, M_bind, clock, skip, ret, mret, M_ret, emit, advance.
    destruct (Config.SuppressLogs (JobSpec.cfg j)); simpl;
      destruct (doneBy ctx (World.now w + elapsed)); eexists _, _;
      (split; [reflexivity|]); simpl;
      rewrite ?invocations_app, ?app_nil_r; by repeat split.
  - destruct (Config.SuppressLogs (JobSpec.cfg j)); eexists _, _;
      (split; [reflexivity|]); simpl;
      rewrite ?invocations_app, ?app_nil_r; by repeat split.
Qed.

Lemma set_LogEntryId_same jr :
  JobRun.set_LogEntryId (JobRun.LogEntryId jr) jr = jr.
Proof. by destruct jr. Qed.

(** [InsertOrUpdateJobRun] touches no field of the run but [LogEntryId]. *)
Lemma InsertOrUpdateJobRun_run db jr :
  ∃ i, (InsertOrUpdateJobRun db jr).1.1 = JobRun.set_LogEntryId i jr.
Proof.
  unfold InsertOrUpdateJobRun.
  destruct (DB.step db) as [[e|] db1]; simpl.
  { exists (JobRun.LogEntryId jr). by rewrite set_LogEntryId_same. }
  set (db2 := upsert db1 jr _).
  destruct (decide (JobRun.LogEntryId jr = 0)) as [H0|H0];
    [rewrite (bool_decide_eq_true_2 _ H0)
    |rewrite (bool_decide_eq_false_2 _ H0)]; simpl.
  2:{ exists (JobRun.LogEntryId jr). by rewrite set_LogEntryId_same. }
  destruct (decide (0 < DB.last_insert_rowid db2)) as [Hl|Hl];
    [rewrite (bool_decide_eq_true_2 _ Hl)
    |rewrite (bool_decide_eq_false_2 _ Hl)].
  { rewrite bool_decide_eq_false_2 by (simpl; lia). simpl. by eexists. }
  rewrite (bool_decide_eq_true_2 _ H0).
  destruct (DB.step db2) as [[e|] db3]; simpl;
    [exists (JobRun.LogEntryId jr); by rewrite set_LogEntryId_same|].
  destruct (head _); simpl; [by eexists|].
  exists (JobRun.LogEntryId jr). by rewrite set_LogEntryId_same.
Qed.

Lemma logToDb_inv j jr w jr' w' :
  logToDb j jr w = Done jr' w' → ∃ i, jr' = JobRun.set_LogEntryId i jr.
Proof.
  unfold logToDb. destruct (Config.DB (JobSpec.cfg j)); simpl.
  2:{ intros [= <- _]. exists (JobRun.LogEntryId jr).
      by rewrite set_LogEntryId_same. }
  unfold mbind, M_bind.
  destruct (InsertOrUpdateJobRun_run (World.db w) jr) as [i Hi].
  destruct (InsertOrUpdateJobRun (World.db w) jr) as [[jr1 [e|]] db'];
    simpl in *; subst jr1.
  - destruct (JobSpec.globalSchedule j); [|done].
    intros [= <- _]. by eexists.
  - intros [= <- _]. by eexists.
Qed.

Lemma finalize_inv s downstream j jr w jr' w' :
  finalize s downstream j jr w = Done jr' w' →
  ∃ i, jr' = JobRun.set_LogEntryId i (flushLogBuffer jr).
Proof.
  intros Hrun. unfold finalize in Hrun.
  apply bind_inv_Done in Hrun as (jr1 & w1 & Hlog & Hrun).
  apply logToDb_inv in Hlog as [i ->].
  apply bind_inv_Done in Hrun as ([] & w2 & _ & Hrun).
  apply bind_inv_Done in Hrun as ([] & w3 & _ & Hrun).
  injection Hrun as <- _. by exists i.
Qed.

(** C4 (as the code has it). [execCommandContext] returns on every path
    with a non-null status: -1 for an empty command, a start failure, a
    cancelled run and an unexpected wait error, the exit code for an exit
    error, 0 for a clean exit.  On normal completion the duration is the
    number of milliseconds since [TriggeredAt].  The captured output is
    appended to the run's log buffer; the [Log] field holds it once the
    buffer is flushed, which [finalize] does: the run [finalize] hands back
    has the output in its [Log]. *)
Theorem execCommandContext_terminal_status
    (j : JobSpec.t) (ctx : Ctx) (jr : JobRun.t) (trigger : string)
    (w : World.t) :
  ∃ jr' w',
    execCommandContext j ctx jr trigger w = Done jr' w'
    ∧ is_Some (JobRun.Status jr')
    ∧ match JobSpec.Command j with
      | [] => JobRun.Status jr' = Some (-1)
      | _ =>
          match World.procs w (World.nprocs w) with
          | StartError e => JobRun.Status jr' = Some (-1)
          | Ran output elapsed res =>
              JobRun.logBuf jr' = JobRun.logBuf jr +:+ output
              ∧ contains (JobRun.Log (flushLogBuffer jr')) output
              ∧ (∀ s downstream w1 jr2 w2,
                   finalize s downstream j jr' w1 = Done jr2 w2 →
                   contains (JobRun.Log jr2) output)
              ∧ match res with
                | WaitOk =>
                    JobRun.Status jr' = Some 0
                    ∧ JobRun.Duration jr'
                      = Milliseconds (Since (World.now w + elapsed)
                                        (JobRun.TriggeredAt jr))
                | WaitExitError code =>
                    JobRun.Status jr'
                    = Some (if doneBy ctx (World.now w + elapsed)
                            then -1 else code)
                    ∧ JobRun.Duration jr'
                      = Milliseconds (Since (World.now w + elapsed)
                                        (JobRun.TriggeredAt jr))
                | WaitError _ => JobRun.Status jr' = Some (-1)
                end
          end
      end.
Proof.
  destruct (execCommandContext_Done j ctx jr trigger w)
    as (jr' & w' & Hrun & Hst & _ & _ & _ & _ & _ & _ & Hpath).
  exists jr', w'. do 2 (split; [done|]).
  destruct (JobSpec.Command j); [by destruct Hpath|].
  destruct Hpath as [_ Hpath].
  destruct (World.procs w (World.nprocs w)) as [e|output elapsed res];
    [by destruct Hpath|].
  destruct Hpath as [Hbuf Hres]. split; [done|].
  assert (contains (JobRun.logBuf jr') output) as Hcont.
  { exists (JobRun.logBuf jr), "". by rewrite Hbuf, append_empty_r. }
  split; [done|]. split.
  { intros sch ds w1 jr2 w2 Hfin.
    by apply finalize_inv in Hfin as [i ->]. }
  destruct res; [by destruct Hres as (? & _ & ?)|done|by destruct Hres].
Qed.

(** C4, as stated, fails: after a clean exit of [echo world] the executor
    returns a run whose [Log] is still empty; the output sits in the log
    buffer. *)
Lemma execCommandContext_log_misses_output :
  ¬ ∃ jr' w',
      execCommandContext jHello Background runHello "manual" wHello
      = Done jr' w'
      ∧ is_Some (JobRun.Status jr')
      ∧ contains (JobRun.Log jr') ("world" +:+ nl).
Proof.
  intros (jr' & w' & Hrun & _ & pre & post & Hlog).
  vm_compute in Hrun. injection Hrun as <- _. simpl in Hlog.
  by destruct pre.
Qed.

(** The child is started with the process environment followed by the
    job's variables, each as [name=value] with the value as it is. *)
Lemma execCommandContext_env j ctx jr trigger w :
  JobSpec.Command j ≠ [] →
  ∃ jr' w',
    execCommandContext j ctx jr trigger w = Done jr' w'
    ∧ EvStart (JobSpec.Command j)
        (World.environ w
         ++ ((λ kv, kv.1 +:+ "=" +:+ secret.raw kv.2)
               <$> map_to_list (JobSpec.Env j)))
        (JobSpec.WorkingDirectory j)
      ∈ World.trace w'.
Proof.
  intros Hcmd. unfold execCommandContext.
  destruct (JobSpec.Command j) as [|c argv]; [done|].
  unfold mbind, M_bind, emit, osEnviron, Start, ctxErr, clock, skip, ret,
    mret, M_ret, advance. simpl.
  destruct (World.procs w (World.nprocs w)) as [e|output elapsed [|code|e]];
    destruct (Config.SuppressLogs (JobSpec.cfg j)); simpl;
    try destruct (doneBy ctx (World.now w + elapsed)); simpl;
    eexists _, _; (split; [reflexivity|]); simpl;
    rewrite !elem_of_app, !list_elem_of_singleton; tauto.
Qed.

(** C9. A secret is marshalled for display as the literal ["***"] whatever
    its value, while the child process is started with the raw value in its
    environment. *)
Theorem secret_is_display_only (value : string) :
  secret.MarshalText (secret.mk value) = ("***", None)
  ∧ ∀ j ctx jr trigger w name,
      JobSpec.Env j !! name = Some (secret.mk value) →
      JobSpec.Command j ≠ [] →
      ∃ jr' w' env,
        execCommandContext j ctx jr trigger w = Done jr' w'
        ∧ EvStart (JobSpec.Command j) env (JobSpec.WorkingDirectory j)
          ∈ World.trace w'
        ∧ name +:+ "=" +:+ value ∈ env
        ∧ (∀ x, x ∈ World.environ w → x ∈ env).
Proof.
  split; [done|]. intros j ctx jr trigger w name Hname Hcmd.
  destruct (execCommandContext_env j ctx jr trigger w Hcmd)
    as (jr' & w' & Hrun & Hstart).
  eexists jr', w', _. do 2 (split; [done|]). split.
  - apply elem_of_app. right. apply list_elem_of_fmap.
    exists (name, secret.mk value). split; [done|].
    by apply elem_of_map_to_list.
  - intros x Hx. apply elem_of_app. by left.
Qed.

Lemma secret_is_display_only_witness :
  secret.MarshalText (secret.mk "hunter2") = ("***", None)
  ∧ ∃ jr' w' env,
      execCommandContext jSecret Background runHello "manual" wHello
      = Done jr' w'
      ∧ EvStart ["deploy.sh"] env "" ∈ World.trace w'
      ∧ "TOKEN=hunter2" ∈ env.
Proof.
  destruct (secret_is_display_only "hunter2") as [Hshow Hrun].
  split; [exact Hshow|].
  destruct (Hrun jSecret Background runHello "manual" wHello "TOKEN")
    as (jr' & w' & env & Hexec & Hstart & Hin & _); [done..|].
  by exists jr', w', env.
Defined.

(** * Goroutines waited for together *)

Lemma pick_perm {T} (i : nat) (x : T) (l : list T) :
  (pick i x l).1 :: (pick i x l).2 ≡ₚ x :: l
  ∧ length (pick i x l).2 = length l.
Proof.
  revert i x. induction l as [|y l IH]; intros i x.
  { by destruct i. }
  destruct i as [|i]; [done|]. simpl.
  destruct (IH i y) as [Hp Hl]. destruct (pick i y l) as [t rest].
  simpl in *. split; [|by rewrite Hl].
  rewrite Permutation_swap. by rewrite Hp.
Qed.

(** Whatever the scheduler decides, the tasks run in some order. *)
Lemma runAll_seqAll {T} (run : T → M unit) (n : nat) (tasks : list T)
    (stuck : bool) (w : World.t) :
  n = length tasks →
  ∃ order, order ≡ₚ tasks ∧ runAll run n tasks stuck w = seqAll run order stuck w.
Proof.
  revert tasks stuck w. induction n as [|n IH]; intros tasks stuck w Hn.
  { destruct tasks; [|done]. by exists []. }
  destruct tasks as [|x l]; [done|]. simpl in Hn. simpl.
  destruct (pick_perm (World.sched w (World.nsched w)) x l) as [Hp Hl].
  destruct (pick (World.sched w (World.nsched w)) x l) as [t rest].
  simpl in Hp, Hl.
  destruct (run t (decide_next w)) as [[] w'|e w'|w'|] eqn:Hrun.
  - destruct (IH rest stuck w') as (order & Hperm & ->); [lia|].
    exists (t :: order). split; [by rewrite Hperm|]. simpl. by rewrite Hrun.
  - exists (t :: rest). split; [done|]. simpl. by rewrite Hrun.
  - destruct (IH rest true w') as (order & Hperm & ->); [lia|].
    exists (t :: order). split; [by rewrite Hperm|]. simpl. by rewrite Hrun.
  - exists (t :: rest). split; [done|]. simpl. by rewrite Hrun.
Qed.

Lemma goAll_seqAll {T} (run : T → M unit) (tasks : list T) (w : World.t) :
  ∃ order, order ≡ₚ tasks ∧ goAll run tasks w = seqAll run order false w.
Proof. by apply runAll_seqAll. Qed.

Section tasks.
Context {T : Type}.
Variable run : T → M unit.
Variable I : World.t → Prop.
Variable R : World.t → World.t → Prop.
Hypothesis R_refl : ∀ w, R w w.
Hypothesis R_trans : ∀ w1 w2 w3, R w1 w2 → R w2 w3 → R w1 w3.
Hypothesis I_next : ∀ w, I w → I (decide_next w).
Hypothesis R_next : ∀ w, R w (decide_next w).

(** Tasks that all return: each leaves its mark [Q], and the marks
    last. *)
Lemma seqAll_Done (Q : T → World.t → Prop) (order : list T) :
  (∀ t w w', Q t w → R w w' → Q t w') →
  (∀ t, t ∈ order → ∀ w, I w →
        ∃ w', run t w = Done () w' ∧ I w' ∧ R w w' ∧ Q t w') →
  ∀ w, I w →
    ∃ w', seqAll run order false w = Done () w' ∧ I w' ∧ R w w'
      ∧ ∀ t, t ∈ order → Q t w'.
Proof.
  intros Hstable. induction order as [|t rest IH]; intros Htask w HI.
  { exists w. repeat split; try done. intros t Ht.
    by apply elem_of_nil in Ht. }
  destruct (Htask t ltac:(by left) (decide_next w) (I_next w HI))
    as (w1 & Hrun & HI1 & HR1 & HQ1).
  destruct (IH ltac:(intros t' Ht'; apply Htask; by right) w1 HI1)
    as (w' & Hrest & HI' & HR' & HQ').
  exists w'. simpl. rewrite Hrun. split; [done|]. split; [done|].
  split; [eauto|].
  intros t' [->|Ht']%elem_of_cons; [by eapply Hstable|by apply HQ'].
Qed.

(** What the tasks add to a list the world keeps. *)
Lemma seqAll_acc {X} (f : World.t → list X) (c : T → list X)
    (order : list T) :
  (∀ w, f (decide_next w) = f w) →
  (∀ t, t ∈ order → ∀ w, I w →
        ∃ w', run t w = Done () w' ∧ I w' ∧ f w' = f w ++ c t) →
  ∀ w, I w →
    ∃ w', seqAll run order false w = Done () w' ∧ I w'
      ∧ f w' = f w ++ (order ≫= c).
Proof.
  intros Hnext. induction order as [|t rest IH]; intros Htask w HI.
  { exists w. simpl. by rewrite app_nil_r. }
  destruct (Htask t ltac:(by left) (decide_next w) (I_next w HI))
    as (w1 & Hrun & HI1 & Hf1).
  destruct (IH ltac:(intros t' Ht'; apply Htask; by right) w1 HI1)
    as (w' & Hrest & HI' & Hf').
  exists w'. simpl. rewrite Hrun. split; [done|]. split; [done|].
  by rewrite Hf', Hf1, Hnext, <-app_assoc.
Qed.

(** A task that waits for ever keeps [Wait] from returning. *)
Lemma seqAll_Blocked (order : list T) (stuck : bool) :
  (∀ t, t ∈ order → ∀ w, I w →
        ∃ w', (run t w = Done () w' ∨ run t w = Blocked w')
              ∧ I w' ∧ R w w') →
  stuck = true
  ∨ (∃ t, t ∈ order ∧ ∀ w, I w → ∃ w', run t w = Blocked w') →
  ∀ w, I w →
    ∃ w', seqAll run order stuck w = Blocked w' ∧ I w' ∧ R w w'.
Proof.
  revert stuck. induction order as [|t rest IH]; intros stuck Htask Hst w HI.
  { destruct Hst as [->|(t & Ht & _)]; [by exists w|].
    by apply elem_of_nil in Ht. }
  destruct (Htask t ltac:(by left) (decide_next w) (I_next w HI))
    as (w1 & Hrun & HI1 & HR1).
  assert (R w w1) as HRw by eauto.
  simpl. destruct Hrun as [Hrun|Hrun]; rewrite Hrun.
  - destruct (IH stuck ltac:(intros t' Ht'; apply Htask; by right)) with w1
      as (w' & Hrest & HI' & HR'); [|done|by eauto].
    destruct Hst as [?|(t0 & [->|Ht0]%elem_of_cons & Hblock)]; [by left| |].
    + destruct (Hblock (decide_next w) (I_next w HI)) as (w2 & Hb).
      congruence.
    + right. by exists t0.
  - destruct (IH true ltac:(intros t' Ht'; apply Htask; by right)) with w1
      as (w' & Hrest & HI' & HR'); [by left|done|by eauto].
Qed.

(** A task that never returns keeps [Wait] from returning. *)
Lemma seqAll_OutOfFuel (order : list T) (stuck : bool) :
  (∀ t, t ∈ order → ∀ w, I w →
        run t w = OutOfFuel
        ∨ ∃ w', (run t w = Done () w' ∨ run t w = Blocked w') ∧ I w') →
  (∃ t, t ∈ order ∧ ∀ w, I w → run t w = OutOfFuel) →
  ∀ w, I w → seqAll run order stuck w = OutOfFuel.
Proof.
  revert stuck. induction order as [|t rest IH];
    intros stuck Htask (t0 & Ht0 & Hout) w HI.
  { by apply elem_of_nil in Ht0. }
  simpl.
  destruct (Htask t ltac:(by left) (decide_next w) (I_next w HI))
    as [Hrun|(w1 & Hrun & HI1)]; [by rewrite Hrun|].
  apply elem_of_cons in Ht0 as [->|Ht0].
  { by rewrite (Hout (decide_next w) (I_next w HI)). }
  destruct Hrun as [Hrun|Hrun]; rewrite Hrun;
    (apply IH; [intros t' Ht'; apply Htask; by right|by exists t0|done]).
Qed.
End tasks.


(** * Properties of the retry loop and of the fan-out *)

Lemma wrap64_id z : - 2 ^ 63 ≤ z < 2 ^ 63 → wrap64 z = z.
Proof. intros Hz. unfold wrap64. rewrite Z.mod_small; lia. Qed.

Lemma wrap64_range z : - 2 ^ 63 ≤ wrap64 z < 2 ^ 63.
Proof.
  unfold wrap64.
  pose proof (Z.mod_pos_bound (z + 2 ^ 63) (2 ^ 64) ltac:(lia)). lia.
Qed.


Lemma quietStep_refl w : quietStep w w.
Proof. by repeat split. Qed.

Lemma quietStep_trans w1 w2 w3 :
  quietStep w1 w2 → quietStep w2 w3 → quietStep w1 w3.
Proof.
  unfold quietStep. intros (?&?&?&?&?&?) (?&?&?&?&?&?).
  repeat split; congruence.
Qed.


Section retry.
Variable s : Schedule.t.
Variable downstream : JobSpec.t → string → M JobRun.t.
Variable j : JobSpec.t.

(** Saving a run never panics for a job that has a schedule (or no
    store); it changes the run's [LogEntryId] at most. *)
Lemma logToDb_Done jr w :
  savesQuietly j ∨ (InsertOrUpdateJobRun (World.db w) jr).1.2 = None →
  ∃ jr' w',
    logToDb j jr w = Done jr' w'
    ∧ (∃ i, jr' = JobRun.set_LogEntryId i jr)
    ∧ quietStep w w'
    ∧ World.runs w' = World.runs w
    ∧ World.db w'
      = (if Config.DB (JobSpec.cfg j)
         then (InsertOrUpdateJobRun (World.db w) jr).2 else World.db w)
    ∧ (∀ e, Config.DB (JobSpec.cfg j) = true →
            (InsertOrUpdateJobRun (World.db w) jr).1.2 = Some e →
            World.trace w'
            = World.trace w
              ++ [EvLog ScheduleLogger Warn
                    [("job", JobRun.Name jr); ("error", e)]
                    "Couldn't save job log to db."]).
Proof.
  intros Hq. unfold logToDb.
  destruct (Config.DB (JobSpec.cfg j)) eqn:Hdb; simpl.
  2:{ eexists _, _. split; [reflexivity|].
      split; [exists (JobRun.LogEntryId jr); by rewrite set_LogEntryId_same|].
      split; [|done]. repeat split; simpl.
      by rewrite invocations_app, app_nil_r. }
  unfold mbind, M_bind.
  destruct (InsertOrUpdateJobRun_run (World.db w) jr) as [i Hi].
  destruct (InsertOrUpdateJobRun (World.db w) jr) as [[jr' [e|]] db'];
    simpl in *; subst jr'.
  - destruct Hq as [[Hgs|?]|?]; [|congruence|done]. rewrite Hgs.
    eexists _, _. split; [reflexivity|]. split; [by eexists|]. simpl.
    split; [|by do 2 (split; [done|]); intros e0 _ [= ->]].
    repeat split; simpl. by rewrite invocations_app, app_nil_r.
  - eexists _, _. split; [reflexivity|]. split; [by eexists|].
    by repeat split.
Qed.

Lemma webhookTask_Done jr wu w :
  ∃ w',
    webhookTask j jr wu w = Done () w'
    ∧ quietStep w w'
    ∧ World.runs w' = World.runs w
    ∧ World.db w' = World.db w.
Proof.
  unfold webhookTask, Call, mbind, M_bind.
  destruct (World.hooks w (World.nhooks w)) as [resp [e|]]; simpl;
    eexists; (split; [reflexivity|]); repeat split; simpl;
    by rewrite ?invocations_app, ?app_nil_r.
Qed.

Lemma calmStep_refl w : calmStep w w.
Proof. split; [apply quietStep_refl|done]. Qed.

Lemma calmStep_trans w1 w2 w3 :
  calmStep w1 w2 → calmStep w2 w3 → calmStep w1 w3.
Proof.
  intros (Hq1 & Hr1 & Hd1) (Hq2 & Hr2 & Hd2).
  split; [eauto using quietStep_trans|]. split; congruence.
Qed.

Lemma calmStep_next w : calmStep w (decide_next w).
Proof. by repeat split. Qed.

(** The webhook goroutines, in whatever order they run. *)
Lemma webhookTasks_Done jr l w :
  ∃ w',
    goAll (runTask downstream j jr) (WebhookTask <$> l) w = Done () w'
    ∧ quietStep w w'
    ∧ World.runs w' = World.runs w
    ∧ World.db w' = World.db w.
Proof.
  destruct (goAll_seqAll (runTask downstream j jr) (WebhookTask <$> l) w)
    as (order & Hperm & ->).
  destruct (seqAll_Done (runTask downstream j jr) (λ _, True) calmStep
              calmStep_refl calmStep_trans (λ _ _, Logic.I) calmStep_next
              (λ _ _, True) order) with w as (w' & Hrun & _ & Hcalm & _);
    [done| |done|by exists w'].
  intros t Ht w0 _. rewrite Hperm in Ht.
  apply list_elem_of_fmap in Ht as (wu & -> & _).
  destruct (webhookTask_Done jr wu w0) as (w1 & Hone & Hq1).
  by exists w1.
Qed.

Lemma eventsFor_noDownstream st :
  noDownstream s j → eventsFor s j st ≫= OnEvent.TriggerJob = [].
Proof.
  intros (Hs & He & Hg). unfold eventsFor.
  destruct (JobSpec.globalSchedule j);
    [destruct Hg as [Hgs Hge]; [done|]|]; case_bool_decide; simpl;
    by rewrite ?Hs, ?He, ?Hgs, ?Hge.
Qed.

(** Without downstream jobs the fan-out only calls webhooks. *)
Lemma OnEvent_Done jr w :
  noDownstream s j → is_Some (JobRun.Status jr) →
  ∃ w',
    OnEvent s downstream j jr w = Done () w'
    ∧ quietStep w w'
    ∧ World.runs w' = World.runs w
    ∧ World.db w' = World.db w.
Proof.
  intros Hq [st Hst]. unfold OnEvent. rewrite Hst.
  rewrite (eventsFor_noDownstream st Hq). simpl.
  unfold mbind, M_bind, ret, mret, M_ret.
  apply webhookTasks_Done.
Qed.

Lemma finalize_Done jr w :
  savesQuietly j
  ∨ (InsertOrUpdateJobRun (World.db w) (flushLogBuffer jr)).1.2 = None →
  noDownstream s j → is_Some (JobRun.Status jr) →
  ∃ jr' w',
    finalize s downstream j jr w = Done jr' w'
    ∧ (∃ i, jr' = JobRun.set_LogEntryId i (flushLogBuffer jr))
    ∧ quietStep w w'
    ∧ World.db w'
      = (if Config.DB (JobSpec.cfg j)
         then (InsertOrUpdateJobRun (World.db w) (flushLogBuffer jr)).2
         else World.db w).
Proof.
  intros Hsave Hq Hst. unfold finalize.
  destruct (logToDb_Done (flushLogBuffer jr) w Hsave)
    as (jr1 & w1 & Hlog & [i ->] & Hq1 & _ & Hdb1 & _).
  rewrite (bind_Done _ _ _ _ _ Hlog).
  set (appendRun := if Config.DB (JobSpec.cfg j) then skip else _).
  assert (∃ w2, appendRun w1 = Done () w2 ∧ quietStep w1 w2
                ∧ World.db w2 = World.db w1) as (w2 & Happ & Hq2 & Hdb2).
  { unfold appendRun. destruct (Config.DB (JobSpec.cfg j));
      eexists; (split; [reflexivity|]); by repeat split. }
  rewrite (bind_Done _ _ _ _ _ Happ).
  destruct (OnEvent_Done (JobRun.set_LogEntryId i (flushLogBuffer jr)) w2 Hq)
    as (w3 & Hev & Hq3 & _ & Hdb3); [done|].
  rewrite (bind_Done _ _ _ _ _ Hev).
  eexists _, w3. split; [reflexivity|]. split; [by eexists|]. split.
  - eauto using quietStep_trans.
  - by rewrite Hdb3, Hdb2, Hdb1.
Qed.

Lemma ctxErr_eq ctx w : ctxErr ctx w = Done (doneBy ctx (World.now w)) w.
Proof. done. Qed.

Lemma afterOrDone_Done ctx d w :
  ∃ w', afterOrDone ctx d w
        = Done (doneBy ctx (World.now w + d)) w'
    ∧ World.db w' = World.db w
    ∧ World.procs w' = World.procs w
    ∧ World.nprocs w' = World.nprocs w
    ∧ World.trace w' = World.trace w.
Proof.
  unfold afterOrDone, mbind, M_bind, clock. simpl.
  destruct (doneBy ctx (World.now w + d)); by eexists.
Qed.

(** The loop returns, and with a status as soon as the run had one or one
    attempt is made. *)
Lemma retryLoop_Done ctx trigger n tries jr w :
  savesQuietly j → noDownstream s j →
  - 2 ^ 63 ≤ tries →
  wrap64 (JobSpec.Retries j + 1) - tries ≤ Z.of_nat n →
  ∃ jr' w',
    retryLoop s downstream n j ctx trigger tries jr w = Done jr' w'
    ∧ (tries < wrap64 (JobSpec.Retries j + 1) ∨ is_Some (JobRun.Status jr)
       → is_Some (JobRun.Status jr')).
Proof.
  intros Hsave Hq. revert tries jr w.
  induction n as [|n IH]; intros tries jr w Hlo Hn.
  { simpl. rewrite bool_decide_eq_false_2 by lia.
    exists jr, w. split; [done|]. intros [?|?]; [lia|done]. }
  simpl. case_bool_decide as Hlt.
  2:{ exists jr, w. split; [done|]. intros [?|?]; [lia|done]. }
  rewrite (bind_Done _ _ _ _ _ (ctxErr_eq ctx w)).
  destruct (doneBy ctx (World.now w)).
  { edestruct finalize_Done as (jr' & w' & -> & [i ->] & _);
      [by left|done| |].
    { by eexists. }
    eexists _, _. split; [done|]. intros _. by eexists. }
  destruct (execCommandContext_Done j ctx jr
              (if bool_decide (tries = 0) then trigger
               else trigger +:+ "[retry=" +:+ pretty tries +:+ "]") w)
    as (jr1 & w1 & Hexec & [st Hst] & _).
  rewrite (bind_Done _ _ _ _ _ Hexec).
  destruct (finalize_Done jr1 w1 (or_introl Hsave) Hq)
    as (jr2 & w2 & Hfin & [i ->] & _).
  { by eexists. }
  rewrite (bind_Done _ _ _ _ _ Hfin). simpl. rewrite Hst.
  destruct (bool_decide (st = StatusOK)).
  { eexists _, _. split; [done|]. intros _. simpl. by eexists. }
  destruct (afterOrDone_Done ctx timeOut w2) as (w3 & Hsleep & _).
  rewrite (bind_Done _ _ _ _ _ Hsleep).
  destruct (doneBy ctx (World.now w2 + timeOut)).
  { eexists _, _. split; [done|]. intros _. simpl. by eexists. }
  pose proof (wrap64_range (JobSpec.Retries j + 1)).
  rewrite (wrap64_id (tries + 1)) by lia.
  destruct (IH (tries + 1)
              (JobRun.set_LogEntryId i (flushLogBuffer jr1)) w3)
    as (jr' & w' & -> & Hsome); [lia..|].
  exists jr', w'. split; [done|]. intros _. apply Hsome. right.
  simpl. by eexists.
Qed.



Lemma filter_same_key jr1 jr2 (rows : list Row.t) :
  key_of_run jr1 = key_of_run jr2 →
  filter (same_key jr1) rows = filter (same_key jr2) rows.
Proof.
  intros Hk. apply list_filter_iff. intros r. unfold same_key.
  by rewrite Hk.
Qed.

(** One attempt under a context that is never cancelled, with a store
    that works: the executor runs, and [finalize] writes the attempt's
    status into the row the run already has. *)
Lemma attempt_Done trig jr w r0 :
  Config.DB (JobSpec.cfg j) = true → noDownstream s j →
  DB.faults (World.db w) = [] → unique_keys (DB.log (World.db w)) →
  r0 ∈ DB.log (World.db w) → same_key jr r0 →
  ∃ jr1 w1 jr2 w2 r,
    execCommandContext j Background jr trig w = Done jr1 w1
    ∧ finalize s downstream j jr1 w1 = Done jr2 w2
    ∧ JobRun.Status jr2 = Some (attemptStatus j w 0)
    ∧ key_of_run jr2 = key_of_run jr
    ∧ DB.faults (World.db w2) = []
    ∧ unique_keys (DB.log (World.db w2))
    ∧ length (DB.log (World.db w2)) = length (DB.log (World.db w))
    ∧ filter (same_key jr) (DB.log (World.db w2)) = [r]
    ∧ Row.status r = Some (attemptStatus j w 0)
    ∧ Row.is_running r = 0
    ∧ Row.id r = Row.id r0
    ∧ invocations (World.trace w2)
      = invocations (World.trace w) ++ [(JobSpec.Name j, trig)]
    ∧ World.procs w2 = World.procs w
    ∧ World.nprocs w2
      = match JobSpec.Command j with
        | [] => World.nprocs w
        | _ => S (World.nprocs w)
        end.
Proof.
  intros Hdb Hq Hf Huniq Hin0 Hk0.
  destruct (execCommandContext_Done j Background jr trig w)
    as (jr1 & w1 & Hexec & _ & Hfields & Hdb1 & Hprocs1 & _ & _ & Hinv1
        & Hpath).
  assert (key_of_run (flushLogBuffer jr1) = key_of_run jr) as Hkey.
  { unfold key_of_run. simpl. congruence. }
  assert (JobRun.Status jr1 = Some (attemptStatus j w 0)
          ∧ World.nprocs w1 = match JobSpec.Command j with
                              | [] => World.nprocs w
                              | _ => S (World.nprocs w)
                              end) as [Hst Hn1].
  { unfold attemptStatus. rewrite Nat.add_0_r.
    destruct (JobSpec.Command j); [by destruct Hpath as (? & _ & ?)|].
    destruct Hpath as [Hn Hpath]. split; [|done].
    destruct (World.procs w (World.nprocs w)) as [e|out dt res];
      [by destruct Hpath|].
    destruct Hpath as [_ Hres]. by destruct res; destruct Hres. }
  destruct (InsertOrUpdateJobRun_ok (World.db w1) (flushLogBuffer jr1))
    as (jr' & db' & r & Hcall & Hf' & Hflt & _ & Hrun0 & Hstr & _ & _
        & Hupd & _ & _ & Huniq' & _); [by rewrite Hdb1..|].
  destruct (finalize_Done jr1 w1) as (jr2 & w2 & Hfin & [i ->] & Hq2 & Hdb2);
    [right; by rewrite Hcall|done|by rewrite Hst|].
  rewrite Hdb, Hcall in Hdb2. simpl in Hdb2.
  destruct (Hupd r0) as (Hlen & Hid & _).
  { by rewrite Hdb1. }
  { unfold same_key. by rewrite Hkey. }
  destruct Hq2 as (_ & Hprocs2 & Hn2 & _ & _ & Hinv2).
  exists jr1, w1, (JobRun.set_LogEntryId i (flushLogBuffer jr1)), w2, r.
  rewrite Hdb2. rewrite Hdb1 in Hlen.
  rewrite <-(filter_same_key _ _ _ Hkey).
  simpl in Hstr, Hrun0. rewrite Hst in Hstr, Hrun0.
  repeat split; try done; try congruence.
  by apply Hrun0.
Qed.

Lemma attemptStatus_shift w w' i :
  World.procs w' = World.procs w →
  World.nprocs w' = match JobSpec.Command j with
                    | [] => World.nprocs w
                    | _ => S (World.nprocs w)
                    end →
  attemptStatus j w' i = attemptStatus j w (S i).
Proof.
  intros Hp Hn. unfold attemptStatus.
  destruct (JobSpec.Command j); [done|].
  by rewrite Hp, Hn, Nat.add_succ_r.
Qed.

Lemma retryLoop_stop n ctx trigger tries jr w :
  ¬ tries < wrap64 (JobSpec.Retries j + 1) →
  retryLoop s downstream n j ctx trigger tries jr w = Done jr w.
Proof. intros Hge. destruct n; simpl; by rewrite bool_decide_eq_false_2. Qed.

(** The loop under a context that is never cancelled, with a store that
    works: after [a] attempts, [m] more attempts fail and the next one is
    the last the loop makes (it succeeds, or the budget is spent). *)
Lemma retryLoop_attempts trigger m n a jr w r0 :
  Config.DB (JobSpec.cfg j) = true → noDownstream s j →
  0 ≤ JobSpec.Retries j < 2 ^ 63 - 1 →
  DB.faults (World.db w) = [] → unique_keys (DB.log (World.db w)) →
  r0 ∈ DB.log (World.db w) → same_key jr r0 →
  Z.of_nat a + Z.of_nat m ≤ JobSpec.Retries j →
  JobSpec.Retries j + 1 - Z.of_nat a ≤ Z.of_nat n →
  (∀ i, (i < m)%nat → attemptStatus j w i ≠ 0) →
  (Z.of_nat a + Z.of_nat m < JobSpec.Retries j → attemptStatus j w m = 0) →
  ∃ jr' w' r,
    retryLoop s downstream n j Background trigger (Z.of_nat a) jr w
    = Done jr' w'
    ∧ invocations (World.trace w')
      = invocations (World.trace w)
        ++ ((λ i, (JobSpec.Name j, retryTrigger trigger i))
              <$> seqZ (Z.of_nat a) (Z.of_nat m + 1))
    ∧ JobRun.Status jr' = Some (attemptStatus j w m)
    ∧ key_of_run jr' = key_of_run jr
    ∧ DB.faults (World.db w') = []
    ∧ unique_keys (DB.log (World.db w'))
    ∧ length (DB.log (World.db w')) = length (DB.log (World.db w))
    ∧ filter (same_key jr) (DB.log (World.db w')) = [r]
    ∧ Row.status r = Some (attemptStatus j w m)
    ∧ Row.is_running r = 0
    ∧ Row.id r = Row.id r0.
Proof.
  intros Hdb Hq HR. revert n a jr w r0.
  induction m as [|m IH];
    intros n a jr w r0 Hf Huniq Hin0 Hk0 Ham Hn Hfail Hlast.
  all: destruct n as [|n]; [lia|]; simpl.
  all: rewrite (wrap64_id (JobSpec.Retries j + 1)) by lia.
  all: rewrite bool_decide_eq_true_2 by lia.
  all: rewrite (bind_Done _ _ _ _ _ (ctxErr_eq Background w)); simpl.
  all: destruct (attempt_Done (if bool_decide (Z.of_nat a = 0) then trigger
                    else trigger +:+ "[retry=" +:+ pretty (Z.of_nat a) +:+ "]")
                   jr w r0 Hdb Hq Hf Huniq Hin0 Hk0)
         as (jr1 & w1 & jr2 & w2 & r & Hexec & Hfin & Hst & Hkey & Hf2
             & Huniq2 & Hlen2 & Hflt2 & Hrst & Hrun & Hid & Hinv2 & Hp2 & Hn2).
  all: rewrite (bind_Done _ _ _ _ _ Hexec), (bind_Done _ _ _ _ _ Hfin).
  all: rewrite Hst.
  all: destruct (afterOrDone_Done Background timeOut w2)
         as (w3 & Hsleep & Hdb3 & Hp3 & Hn3 & Htr3).
  - (* the last attempt *)
    change (seqZ (Z.of_nat a) (Z.of_nat 0 + 1)) with [Z.of_nat a].
    destruct (decide (attemptStatus j w 0 = StatusOK)) as [Hok|Hko].
    + rewrite (bool_decide_eq_true_2 _ Hok).
      exists jr2, w2, r. by repeat split.
    + rewrite (bool_decide_eq_false_2 _ Hko).
      rewrite (bind_Done _ _ _ _ _ Hsleep). simpl.
      assert (Z.of_nat a = JobSpec.Retries j) as Ha.
      { destruct (decide (Z.of_nat a + Z.of_nat 0 < JobSpec.Retries j));
          [by destruct Hko; apply Hlast|lia]. }
      rewrite retryLoop_stop
        by (rewrite (wrap64_id (Z.of_nat a + 1)), wrap64_id; lia).
      exists jr2, w3, r. rewrite Hdb3, Htr3. by repeat split.
  - (* a failing attempt, then the rest *)
    assert (attemptStatus j w 0 ≠ StatusOK) as Hko by (apply Hfail; lia).
    rewrite (bool_decide_eq_false_2 _ Hko).
    rewrite (bind_Done _ _ _ _ _ Hsleep). simpl.
    rewrite (wrap64_id (Z.of_nat a + 1)) by lia.
    assert (r ∈ DB.log (World.db w3) ∧ same_key jr2 r) as [Hin3 Hk3].
    { assert (r ∈ filter (same_key jr) (DB.log (World.db w2))) as Hr
        by (rewrite Hflt2; by left).
      apply list_elem_of_filter in Hr as [Hk Hr]. rewrite Hdb3.
      split; [done|]. unfold same_key in *. by rewrite Hkey. }
    replace (Z.of_nat a + 1) with (Z.of_nat (S a)) by lia.
    destruct (IH n (S a) jr2 w3 r) as (jr' & w' & r' & Hloop & Hinv & Hst'
        & Hkey' & Hf' & Huniq' & Hlen' & Hflt' & Hrst' & Hrun' & Hid');
      try done; try (rewrite ?Hdb3; done); try lia.
    { intros i Hi. rewrite (attemptStatus_shift w); [apply Hfail; lia|..];
        congruence. }
    { intros Hlt. rewrite (attemptStatus_shift w); [apply Hlast; lia|..];
        congruence. }
    rewrite (attemptStatus_shift w) in Hst', Hrst' by congruence.
    exists jr', w', r'. split; [done|].
    replace (Z.of_nat (S m) + 1) with (Z.succ (Z.of_nat m + 1)) by lia.
    rewrite seqZ_cons by lia. rewrite fmap_cons.
    replace (Z.succ (Z.of_nat a)) with (Z.of_nat (S a)) by lia.
    replace (Z.pred (Z.succ (Z.of_nat m + 1))) with (Z.of_nat m + 1) by lia.
    rewrite Hinv, Htr3, Hinv2, <-app_assoc.
    split; [done|]. split; [done|]. split; [congruence|].
    do 2 (split; [done|]). split; [rewrite Hlen', Hdb3; done|].
    rewrite <-(filter_same_key _ _ _ Hkey).
    repeat split; try done. congruence.
Qed.
End retry.

(** [setup] with a store that works: the run gets its row. *)
Lemma setup_saved j trigger w :
  Config.DB (JobSpec.cfg j) = true →
  DB.faults (World.db w) = [] → unique_keys (DB.log (World.db w)) →
  ∃ jr0 w0 r0,
    setup j trigger w = Done jr0 w0
    ∧ key_of_run jr0 = (JobSpec.Name j, World.now w, trigger)
    ∧ DB.faults (World.db w0) = []
    ∧ unique_keys (DB.log (World.db w0))
    ∧ r0 ∈ DB.log (World.db w0) ∧ same_key jr0 r0
    ∧ (length (DB.log (World.db w0)) ≤ S (length (DB.log (World.db w))))%nat
    ∧ World.procs w0 = World.procs w
    ∧ World.nprocs w0 = World.nprocs w
    ∧ invocations (World.trace w0) = invocations (World.trace w).
Proof.
  intros Hdb Hf Huniq. unfold setup, now.
  rewrite (bind_Done _ _ _ _ _ (eq_refl : clock w = Done (World.now w) w)).
  set (jr := JobRun.mk 0 None "" "" (JobSpec.Name j) (World.now w) trigger [] 0).
  destruct (InsertOrUpdateJobRun_ok (World.db w) jr Hf Huniq)
    as (jr' & db' & r & Hcall & Hf' & Hflt & _ & _ & _ & _ & _ & Hupd & Hins
        & _ & Huniq' & _).
  destruct (logToDb_Done j jr w) as (jr0 & w0 & Hlog & [i ->] & Hq & _ & Hdb0 & _).
  { right. by rewrite Hcall. }
  rewrite Hdb, Hcall in Hdb0. simpl in Hdb0.
  destruct Hq as (_ & Hp & Hn & _ & _ & Hinv).
  assert (r ∈ filter (same_key jr) (DB.log db')) as Hr
    by (rewrite Hflt; by left).
  apply list_elem_of_filter in Hr as [Hk Hr].
  exists (JobRun.set_LogEntryId i jr), w0, r. rewrite Hdb0.
  repeat split; try done.
  destruct (decide (Exists (same_key jr) (DB.log (World.db w)))) as [Hex|Hex].
  - apply Exists_exists in Hex as (r1 & Hin1 & Hk1).
    destruct (Hupd r1 Hin1 Hk1) as (-> & _). lia.
  - destruct Hins as (-> & _).
    { intros r1 Hin1 Hk1. apply Hex, Exists_exists. eauto. }
    rewrite length_app. simpl. lia.
Qed.

(** The retrying run of a job whose hooks name no downstream job, under a
    context that is never cancelled and with a store that works: the first
    [k] attempts fail and attempt [k] is the last one made. *)
Lemma execCommandWithRetryContext_attempts fuel s j trigger w (k : nat) :
  Config.DB (JobSpec.cfg j) = true →
  DB.faults (World.db w) = [] → unique_keys (DB.log (World.db w)) →
  noDownstream s j → 0 ≤ JobSpec.Retries j < 2 ^ 63 - 1 →
  Z.of_nat k ≤ JobSpec.Retries j →
  (∀ i, (i < k)%nat → attemptStatus j w i ≠ 0) →
  (Z.of_nat k < JobSpec.Retries j → attemptStatus j w k = 0) →
  ∃ jr' w' r,
    execCommandWithRetryContext (S fuel) s j Background trigger w = Done jr' w'
    ∧ invocations (World.trace w')
      = invocations (World.trace w)
        ++ ((λ n, (JobSpec.Name j, retryTrigger trigger n))
              <$> seqZ 0 (Z.of_nat k + 1))
    ∧ JobRun.Status jr' = Some (attemptStatus j w k)
    ∧ key_of_run jr' = (JobSpec.Name j, World.now w, trigger)
    ∧ DB.faults (World.db w') = []
    ∧ unique_keys (DB.log (World.db w'))
    ∧ (length (DB.log (World.db w')) ≤ S (length (DB.log (World.db w))))%nat
    ∧ filter (same_key jr') (DB.log (World.db w')) = [r]
    ∧ Row.key r = (JobSpec.Name j, World.now w, trigger)
    ∧ Row.status r = Some (attemptStatus j w k)
    ∧ Row.is_running r = 0.
Proof.
  intros Hdb Hf Huniq Hq HR Hk Hfail Hlast. simpl.
  destruct (setup_saved j trigger w Hdb Hf Huniq)
    as (jr0 & w0 & r0 & Hsetup & Hkey0 & Hf0 & Huniq0 & Hin0 & Hk0 & Hlen0
        & Hp0 & Hn0 & Hinv0).
  rewrite (bind_Done _ _ _ _ _ Hsetup).
  assert (∀ i, attemptStatus j w0 i = attemptStatus j w i) as Hsame.
  { intros i. unfold attemptStatus. by rewrite Hp0, Hn0. }
  rewrite (wrap64_id (JobSpec.Retries j + 1)) by lia.
  destruct (retryLoop_attempts s
              (λ tj trig, execCommandWithRetryContext fuel s tj Background trig)
              j trigger k (Z.to_nat (JobSpec.Retries j + 1)) 0 jr0 w0 r0)
    as (jr' & w' & r & Hloop & Hinv & Hst & Hkey & Hf' & Huniq' & Hlen' & Hflt
        & Hrst & Hrun & _); try done; try lia.
  { intros i Hi. rewrite Hsame. by apply Hfail. }
  { intros Hlt. rewrite Hsame. apply Hlast. lia. }
  change (Z.of_nat 0) with 0 in *. rewrite Hsame in Hst, Hrst.
  exists jr', w', r. split; [done|]. split; [by rewrite Hinv, Hinv0|].
  split; [done|]. split; [congruence|]. do 2 (split; [done|]).
  split; [lia|]. split; [by rewrite (filter_same_key _ _ _ Hkey)|].
  split; [|done].
  assert (r ∈ filter (same_key jr0) (DB.log (World.db w'))) as Hr
    by (rewrite Hflt; by left).
  apply list_elem_of_filter in Hr as [Hkr _]. unfold same_key in Hkr.
  congruence.
Qed.

(** C1 (what the code does). The retry suffix reaches the executor's
    trigger argument only: the run keeps the [TriggeredBy] that [setup] gave
    it, so every attempt is saved under the same key.  Starting from an
    empty table, a run whose R+1 attempts all fail leaves one row, keyed by
    the original trigger. *)
Theorem retries_share_one_row (fuel : nat) (s : Schedule.t) (j : JobSpec.t)
    (trigger : string) (w : World.t) :
  Config.DB (JobSpec.cfg j) = true →
  DB.faults (World.db w) = [] → DB.log (World.db w) = [] →
  noDownstream s j → 0 ≤ JobSpec.Retries j < 2 ^ 63 - 1 →
  (∀ i, attemptStatus j w i ≠ 0) →
  ∃ jr' w' r,
    execCommandWithRetryContext (S fuel) s j Background trigger w = Done jr' w'
    ∧ length (invocations (World.trace w'))
      = (length (invocations (World.trace w))
         + Z.to_nat (JobSpec.Retries j + 1))%nat
    ∧ DB.log (World.db w') = [r]
    ∧ Row.key r = (JobSpec.Name j, World.now w, trigger)
    ∧ JobRun.TriggeredBy jr' = trigger.
Proof.
  intros Hdb Hf Hempty Hq HR Hfail.
  destruct (execCommandWithRetryContext_attempts fuel s j trigger w
              (Z.to_nat (JobSpec.Retries j)))
    as (jr' & w' & r & Hrun & Hinv & _ & Hkey & _ & _ & Hlen & Hflt & Hrk & _);
    try done; try lia.
  { rewrite Hempty. apply NoDup_nil_2. }
  exists jr', w', r. split; [done|]. split.
  { rewrite Hinv, length_app, length_fmap, length_seqZ. lia. }
  split; [|split; [done|by injection Hkey]].
  assert (r ∈ filter (same_key jr') (DB.log (World.db w'))) as Hr
    by (rewrite Hflt; by left).
  apply list_elem_of_filter in Hr as [_ Hr].
  rewrite Hempty in Hlen. simpl in Hlen.
  destruct (DB.log (World.db w')) as [|x [|y l]]; simpl in Hlen; [|  |lia].
  - by apply elem_of_nil in Hr.
  - by apply list_elem_of_singleton in Hr as ->.
Qed.

Lemma retries_share_one_row_witness :
  ∃ jr' w' r,
    execCommandWithRetryContext 1 sched0 jFail Background "manual" wFail
    = Done jr' w'
    ∧ length (invocations (World.trace w')) = 2%nat
    ∧ DB.log (World.db w') = [r]
    ∧ Row.key r = ("fail", 1000, "manual").
Proof.
  destruct (retries_share_one_row 0 sched0 jFail "manual" wFail)
    as (jr' & w' & r & Hrun & Hlen & Hlog & Hkey & _); try done.
  by exists jr', w', r.
Defined.

Lemma setup_Done j trigger w :
  savesQuietly j →
  ∃ jr0 w0, setup j trigger w = Done jr0 w0.
Proof.
  intros Hsave. unfold setup, now.
  rewrite (bind_Done _ _ _ _ _ (eq_refl : clock w = Done (World.now w) w)).
  edestruct logToDb_Done as (jr0 & w0 & Hlog & _); [by left|].
  by exists jr0, w0.
Qed.

(** C3 (as the code has it). For a job that belongs to a schedule, a
    failure of the store while saving a run is logged as a warning on the
    schedule's logger and the run goes on unchanged; such a job, when its
    retry count is from 0 up (below the largest 64-bit integer) and its
    hooks name no downstream job, always returns from its retrying run with
    a terminal status, whatever the store, the child processes and the
    context do.  For a job without a schedule the same failure makes
    [logToDb] panic with the storage error. *)
Theorem logToDb_failure_warns (s : Schedule.t) (j : JobSpec.t) :
  (JobSpec.globalSchedule j = true →
   (∀ jr w,
      ∃ jr' w',
        logToDb j jr w = Done jr' w'
        ∧ JobRun.Status jr' = JobRun.Status jr
        ∧ (∀ e, Config.DB (JobSpec.cfg j) = true →
                (InsertOrUpdateJobRun (World.db w) jr).1.2 = Some e →
                World.trace w'
                = World.trace w
                  ++ [EvLog ScheduleLogger Warn
                        [("job", JobRun.Name jr); ("error", e)]
                        "Couldn't save job log to db."]))
   ∧ (0 ≤ JobSpec.Retries j < 2 ^ 63 - 1 → noDownstream s j →
      ∀ fuel ctx trigger w,
        ∃ jr' w',
          execCommandWithRetryContext (S fuel) s j ctx trigger w = Done jr' w'
          ∧ is_Some (JobRun.Status jr')))
  ∧ (JobSpec.globalSchedule j = false →
     ∀ jr w e,
       Config.DB (JobSpec.cfg j) = true →
       (InsertOrUpdateJobRun (World.db w) jr).1.2 = Some e →
       ∃ w', logToDb j jr w = Panicked e w').
Proof.
  split.
  - intros Hgs. assert (savesQuietly j) as Hsave by (by left). split.
    + intros jr w.
      destruct (logToDb_Done j jr w (or_introl Hsave))
        as (jr' & w' & Hlog & [i ->] & _ & _ & _ & Hwarn).
      by eexists _, _.
    + intros HR Hq fuel ctx trigger w. simpl.
      destruct (setup_Done j trigger w Hsave) as (jr0 & w0 & Hsetup).
      rewrite (bind_Done _ _ _ _ _ Hsetup).
      pose proof (wrap64_id (JobSpec.Retries j + 1) ltac:(lia)) as Hb.
      destruct (retryLoop_Done s
                  (λ tj trig,
                     execCommandWithRetryContext fuel s tj Background trig)
                  j ctx trigger (Z.to_nat (wrap64 (JobSpec.Retries j + 1)))
                  0 jr0 w0 Hsave Hq)
        as (jr' & w' & Hloop & Hst); [lia..|].
      exists jr', w'. split; [done|]. apply Hst. left. lia.
  - intros Hgs jr w e Hdb Herr. unfold logToDb. rewrite Hdb, Hgs. simpl.
    unfold mbind, M_bind.
    destruct (InsertOrUpdateJobRun (World.db w) jr) as [[jr1 err] db'].
    simpl in Herr. subst err. by eexists.
Qed.

Lemma logToDb_failure_warns_witness :
  ∃ jr' w',
    execCommandWithRetryContext 1 sched0 jScheduled Background "manual"
      wBrokenStore = Done jr' w'
    ∧ is_Some (JobRun.Status jr').
Proof.
  destruct (logToDb_failure_warns sched0 jScheduled) as [Hattached _].
  destruct (Hattached eq_refl) as [_ Hrun]. apply Hrun; done.
Defined.

(** C3, as stated, fails: for a job without a schedule a failure of the
    store makes [logToDb] panic, and the run the executor never started
    has no status. *)
Lemma logToDb_panics_without_schedule :
  (∃ w', logToDb jSolo runHello wBrokenStore
         = Panicked "insert or update job run: disk I/O error" w')
  ∧ ¬ ∃ jr' w',
        execCommandWithRetryContext 1 sched0 jSolo Background "manual"
          wBrokenStore = Done jr' w'.
Proof.
  split.
  - by eexists.
  - intros (jr' & w' & Hrun). by vm_compute in Hrun.
Qed.

(** * The fan-out to downstream jobs *)




Section dispatch.
Variable fuel : nat.
Variable s : Schedule.t.
Variable j : JobSpec.t.
Hypothesis Hgs : JobSpec.globalSchedule j = true.





End dispatch.




(** * Further properties of the store *)

Lemma InsertLogLine_cases db id n ts content stream :
  DB.faults db = [] →
  (Exists (λ l, LogLine.JobRunID l = id ∧ LogLine.LineNumber l = n)
          (DB.log_lines db)
   ∧ is_Some (InsertLogLine db id n ts content stream).1
   ∧ (InsertLogLine db id n ts content stream).2 = db)
  ∨ (¬ Exists (λ l, LogLine.JobRunID l = id ∧ LogLine.LineNumber l = n)
               (DB.log_lines db)
     ∧ InsertLogLine db id n ts content stream
       = (None,
          DB.mk (DB.log db) (DB.log_seq db)
            (DB.log_lines db
             ++ [LogLine.mk (DB.log_lines_seq db + 1) id n ts content stream])
            (DB.log_lines_seq db + 1) (DB.log_lines_seq db + 1) [])).
Proof.
  intros Hf. unfold InsertLogLine, DB.step. rewrite Hf.
  case_bool_decide as Hex; [left|right].
  - split; [done|]. by split; [eexists|].
  - split; [done|]. by rewrite Hf.
Qed.

(** X1. [InsertLogLine] fails exactly when the run already has a line with
    that number, and then changes nothing; otherwise it appends the line
    under the next id and leaves the [log] table alone.  Either way the
    lines stay unique per (run, line number). *)
Theorem InsertLogLine_duplicate
    (db : DB.t) (id n : Z) (ts content stream : string) :
  DB.faults db = [] →
  (is_Some (InsertLogLine db id n ts content stream).1
   ↔ ∃ l, l ∈ DB.log_lines db
          ∧ LogLine.JobRunID l = id ∧ LogLine.LineNumber l = n)
  ∧ (is_Some (InsertLogLine db id n ts content stream).1 →
     (InsertLogLine db id n ts content stream).2 = db)
  ∧ ((InsertLogLine db id n ts content stream).1 = None →
     DB.log_lines (InsertLogLine db id n ts content stream).2
     = DB.log_lines db
       ++ [LogLine.mk (DB.log_lines_seq db + 1) id n ts content stream]
     ∧ DB.log (InsertLogLine db id n ts content stream).2 = DB.log db)
  ∧ (unique_lines (DB.log_lines db) →
     unique_lines (DB.log_lines (InsertLogLine db id n ts content stream).2)).
Proof.
  intros Hf.
  destruct (InsertLogLine_cases db id n ts content stream Hf)
    as [(Hex & Herr & ->)|(Hex & ->)]; simpl.
  - split; [split; [intros _; by apply Exists_exists in Hex|done]|].
    split; [done|]. split; [|done].
    intros Hnone. rewrite Hnone in Herr. by destruct Herr.
  - split.
    { split; [by intros [? ?]|]. intros Hl. destruct Hex.
      by apply Exists_exists. }
    split; [by intros [? ?]|]. split; [done|].
    unfold unique_lines. intros Hnd. rewrite fmap_app. apply NoDup_app.
    split; [done|]. split; [|apply NoDup_singleton].
    intros p [l [-> Hl]]%list_elem_of_fmap Hp.
    apply list_elem_of_singleton in Hp. simpl in Hp.
    apply Hex, Exists_exists. exists l. split; [done|]. by injection Hp.
Qed.

Lemma InsertLogLine_duplicate_witness :
  is_Some (InsertLogLine (DB.mk [] 1 lines_1234 4 4 []) 1 1 "t"
             "Duplicate line" "stdout").1
  ∧ (InsertLogLine (DB.mk [] 1 lines_1234 4 4 []) 1 1 "t"
       "Duplicate line" "stdout").2 = DB.mk [] 1 lines_1234 4 4 [].
Proof.
  destruct (InsertLogLine_duplicate (DB.mk [] 1 lines_1234 4 4 []) 1 1 "t"
              "Duplicate line" "stdout" eq_refl) as (Hiff & Hsame & _).
  assert (is_Some (InsertLogLine (DB.mk [] 1 lines_1234 4 4 []) 1 1 "t"
                     "Duplicate line" "stdout").1) as Herr.
  { apply Hiff. eexists. split; [by left|done]. }
  split; [exact Herr|exact (Hsame Herr)].
Defined.

(** X2. Tailing after an append: when every stored line of the run has a
    number up to the cursor [c], a line inserted with a number above [c] is
    exactly what the next read from [c] returns, and reads of other runs
    are as before. *)
Theorem InsertLogLine_then_tail
    (db : DB.t) (id c n : Z) (ts content stream : string) :
  DB.faults db = [] → c < n →
  (∀ l, l ∈ DB.log_lines db → LogLine.JobRunID l = id →
        LogLine.LineNumber l ≤ c) →
  ∃ db',
    InsertLogLine db id n ts content stream = (None, db')
    ∧ (GetLogLines db' id c).1
      = ([LogLine.mk (DB.log_lines_seq db + 1) id n ts content stream], None)
    ∧ ∀ id' c', id' ≠ id →
        (GetLogLines db' id' c').1 = (GetLogLines db id' c').1.
Proof.
  intros Hf Hcn Hseen.
  destruct (InsertLogLine_cases db id n ts content stream Hf)
    as [(Hex & _)|(Hex & ->)].
  { apply Exists_exists in Hex as (l & Hl & Hid & Hn).
    specialize (Hseen l Hl Hid). lia. }
  eexists. split; [done|].
  unfold GetLogLines, DB.step, select_log_lines. rewrite Hf. simpl. split.
  - rewrite filter_app.
    assert (filter (λ l, LogLine.JobRunID l = id ∧ c < LogLine.LineNumber l)
              (DB.log_lines db) = []) as ->.
    { apply Permutation_nil_r. rewrite <-select_log_lines_perm.
      by rewrite select_log_lines_empty. }
    rewrite filter_cons_True by (simpl; lia). done.
  - intros id' c' Hne. rewrite filter_app, filter_cons_False, filter_nil,
      app_nil_r by (simpl; intros [? _]; congruence). done.
Qed.

Lemma InsertLogLine_then_tail_witness :
  ∃ db',
    InsertLogLine (DB.mk [] 1 lines_1234 4 4 []) 1 5 "t" "More" "stdout"
    = (None, db')
    ∧ (GetLogLines db' 1 4).1
      = ([LogLine.mk 5 1 5 "t" "More" "stdout"], None).
Proof.
  destruct (InsertLogLine_then_tail (DB.mk [] 1 lines_1234 4 4 []) 1 4 5 "t"
              "More" "stdout" eq_refl) as (db' & Hins & Hget & _); [lia| |].
  { apply (Forall_forall
             (λ l, LogLine.JobRunID l = 1 → LogLine.LineNumber l ≤ 4)).
    repeat constructor; simpl; lia. }
  by exists db'.
Defined.

(** With a store that works, the tables after [InsertOrUpdateJobRun] are
    those after the UPSERT. *)
Lemma InsertOrUpdateJobRun_db db jr :
  DB.faults db = [] →
  (InsertOrUpdateJobRun db jr).2
  = upsert db jr (match JobRun.Status jr with None => 1 | Some _ => 0 end).
Proof.
  intros Hf. unfold InsertOrUpdateJobRun, DB.step. rewrite Hf.
  set (db2 := upsert db jr _).
  assert (DB.faults db2 = []) as Hf2.
  { unfold db2, upsert. by case_bool_decide. }
  rewrite Hf2. repeat case_bool_decide; try done; by destruct (head _).
Qed.

Lemma upsert_absent db jr ir :
  (∀ r, r ∈ DB.log db → ¬ same_key jr r) →
  upsert db jr ir
  = DB.mk (DB.log db
           ++ [Row.mk (DB.log_seq db + 1) (JobRun.Name jr)
                 (JobRun.TriggeredAt jr) (JobRun.TriggeredBy jr)
                 (JobRun.Duration jr) (JobRun.Status jr) (JobRun.Log jr) ir])
          (DB.log_seq db + 1) (DB.log_lines db) (DB.log_lines_seq db)
          (DB.log_seq db + 1) (DB.faults db).
Proof.
  intros Habs. unfold upsert. rewrite bool_decide_eq_false_2; [done|].
  intros (r & Hr & Hk)%Exists_exists. by apply (Habs r).
Qed.

Lemma upsert_present db jr ir r0 :
  r0 ∈ DB.log db → same_key jr r0 →
  upsert db jr ir
  = DB.mk ((λ r, if bool_decide (same_key jr r)
                 then excluded jr ir r else r) <$> DB.log db)
          (DB.log_seq db) (DB.log_lines db) (DB.log_lines_seq db)
          (DB.last_insert_rowid db) (DB.faults db).
Proof.
  intros Hin Hk. unfold upsert. rewrite bool_decide_eq_true_2; [done|].
  apply Exists_exists. eauto.
Qed.

(** X3. Row ids are never reused or changed: with the AUTOINCREMENT
    invariant (ids positive, at most the sequence value, and distinct),
    [InsertOrUpdateJobRun] keeps the invariant, never lowers the sequence
    value, and every row keeps its id and its key; no row is deleted. *)
Theorem InsertOrUpdateJobRun_keeps_ids (db : DB.t) (jr : JobRun.t) :
  DB.faults db = [] → ids_bounded db → unique_ids (DB.log db) →
  ids_bounded (InsertOrUpdateJobRun db jr).2
  ∧ unique_ids (DB.log (InsertOrUpdateJobRun db jr).2)
  ∧ DB.log_seq db ≤ DB.log_seq (InsertOrUpdateJobRun db jr).2
  ∧ (∀ r, r ∈ DB.log db →
          ∃ r', r' ∈ DB.log (InsertOrUpdateJobRun db jr).2
                ∧ Row.id r' = Row.id r ∧ Row.key r' = Row.key r)
  ∧ DB.log_lines (InsertOrUpdateJobRun db jr).2 = DB.log_lines db.
Proof.
  intros Hf [Hseq Hb] Hu. rewrite (InsertOrUpdateJobRun_db db jr Hf).
  set (ir := match JobRun.Status jr with None => 1 | Some _ => 0 end).
  destruct (decide (Exists (same_key jr) (DB.log db))) as [Hex|Hex].
  - apply Exists_exists in Hex as (r0 & Hin0 & Hk0).
    rewrite (upsert_present db jr ir r0 Hin0 Hk0). simpl.
    assert (Row.id <$> ((λ r, if bool_decide (same_key jr r)
                              then excluded jr ir r else r) <$> DB.log db)
            = Row.id <$> DB.log db) as Hids.
    { rewrite <-list_fmap_compose. apply list_fmap_ext. intros _ r _. simpl.
      by case_bool_decide. }
    split; [|split; [|split; [lia|split; [|done]]]].
    + split; [done|]. simpl. intros r [r1 [-> Hr1]]%list_elem_of_fmap.
      replace (Row.id (if bool_decide (same_key jr r1)
                       then excluded jr ir r1 else r1)) with (Row.id r1)
        by (by case_bool_decide).
      by apply Hb.
    + unfold unique_ids. by rewrite Hids.
    + intros r Hr. eexists. split; [apply list_elem_of_fmap; eauto|].
      by case_bool_decide.
  - assert (∀ r, r ∈ DB.log db → ¬ same_key jr r) as Habs.
    { intros r Hr Hk. apply Hex, Exists_exists. eauto. }
    rewrite (upsert_absent db jr ir Habs). simpl.
    split; [|split; [|split; [lia|split; [|done]]]].
    + split; [simpl; lia|]. simpl. intros r [Hr|Hr]%elem_of_app.
      * specialize (Hb r Hr). lia.
      * apply list_elem_of_singleton in Hr as ->. simpl. lia.
    + unfold unique_ids. rewrite fmap_app. apply NoDup_app.
      split; [done|]. split; [|apply NoDup_singleton].
      intros i [r [-> Hr]]%list_elem_of_fmap Hi.
      apply list_elem_of_singleton in Hi. simpl in Hi.
      specialize (Hb r Hr). lia.
    + intros r Hr. exists r. split; [|done]. apply elem_of_app. by left.
Qed.

Lemma InsertOrUpdateJobRun_keeps_ids_witness :
  ids_bounded (InsertOrUpdateJobRun db_two_jobs run_test_job).2
  ∧ unique_ids (DB.log (InsertOrUpdateJobRun db_two_jobs run_test_job).2).
Proof.
  destruct (InsertOrUpdateJobRun_keeps_ids db_two_jobs run_test_job)
    as (Hb & Hu & _); [done| |compute_done|done].
  split; [done|]. apply Forall_forall. repeat constructor; simpl; lia.
Defined.

Lemma filter_none {A} (P : A → Prop) `{!∀ x, Decision (P x)} (l : list A) :
  (∀ x, x ∈ l → ¬ P x) → filter P l = [].
Proof.
  intros Hno. induction l as [|x l IH]; [done|].
  rewrite filter_cons_False; [apply IH|apply Hno; by left].
  intros y Hy. apply Hno. by right.
Qed.

Lemma upsert_update_others jr ir (rows : list Row.t) :
  (∀ r, r ∈ rows → ¬ same_key jr r) →
  (λ r, if bool_decide (same_key jr r) then excluded jr ir r else r) <$> rows
  = rows.
Proof.
  intros Habs. rewrite <-(list_fmap_id rows) at 2.
  apply list_fmap_ext. intros i r Hr. simpl.
  rewrite bool_decide_eq_false_2; [done|].
  apply Habs. by eapply list_elem_of_lookup_2.
Qed.

(** The first save of a run that has no row yet. *)
Lemma first_save (db : DB.t) (jr : JobRun.t) :
  DB.faults db = [] → 0 ≤ DB.log_seq db →
  JobRun.LogEntryId jr = 0 →
  (∀ r, r ∈ DB.log db → ¬ same_key jr r) →
  ∃ db1,
    InsertOrUpdateJobRun db jr
    = ((JobRun.set_LogEntryId (DB.log_seq db + 1) jr, None), db1)
    ∧ DB.faults db1 = []
    ∧ DB.log db1
      = DB.log db
        ++ [Row.mk (DB.log_seq db + 1) (JobRun.Name jr)
              (JobRun.TriggeredAt jr) (JobRun.TriggeredBy jr)
              (JobRun.Duration jr) (JobRun.Status jr) (JobRun.Log jr)
              (match JobRun.Status jr with None => 1 | Some _ => 0 end)].
Proof.
  intros Hf Hseq Hid Habs.
  set (ir := match JobRun.Status jr with None => 1 | Some _ => 0 end).
  pose proof (upsert_absent db jr ir Habs) as Hdb1.
  exists (upsert db jr ir). split; [|split].
  - unfold InsertOrUpdateJobRun, DB.step. rewrite Hf. fold ir.
    rewrite (bool_decide_eq_true_2 _ Hid). rewrite Hdb1. simpl.
    rewrite (bool_decide_eq_true_2 (0 < DB.log_seq db + 1)) by lia.
    simpl. by rewrite bool_decide_eq_false_2 by lia.
  - by rewrite Hdb1.
  - by rewrite Hdb1.
Qed.

(** X4. The two saves of a run's life: a run that has no row yet and no
    [LogEntryId] gets a row under the next id when it is first saved, and
    saving it again once it has a status, a log and a duration rewrites
    that same row; no second row appears and every other row is as it
    was. *)
Theorem run_saved_twice
    (db : DB.t) (jr : JobRun.t) (st dur : Z) (msg : string) :
  DB.faults db = [] → 0 ≤ DB.log_seq db →
  JobRun.LogEntryId jr = 0 →
  (∀ r, r ∈ DB.log db → ¬ same_key jr r) →
  ∃ jr1 db1 db2,
    InsertOrUpdateJobRun db jr = ((jr1, None), db1)
    ∧ jr1 = JobRun.set_LogEntryId (DB.log_seq db + 1) jr
    ∧ DB.log db1
      = DB.log db
        ++ [Row.mk (DB.log_seq db + 1) (JobRun.Name jr)
              (JobRun.TriggeredAt jr) (JobRun.TriggeredBy jr)
              (JobRun.Duration jr) (JobRun.Status jr) (JobRun.Log jr)
              (match JobRun.Status jr with None => 1 | Some _ => 0 end)]
    ∧ InsertOrUpdateJobRun db1
        (JobRun.set_Duration dur
           (JobRun.set_Log msg (JobRun.set_Status (Some st) jr1)))
      = ((JobRun.set_Duration dur
            (JobRun.set_Log msg (JobRun.set_Status (Some st) jr1)), None),
         db2)
    ∧ DB.log db2
      = DB.log db
        ++ [Row.mk (DB.log_seq db + 1) (JobRun.Name jr)
              (JobRun.TriggeredAt jr) (JobRun.TriggeredBy jr)
              dur (Some st) msg 0].
Proof.
  intros Hf Hseq Hid Habs.
  set (ir := match JobRun.Status jr with None => 1 | Some _ => 0 end).
  set (jr1 := JobRun.set_LogEntryId (DB.log_seq db + 1) jr).
  set (jr2 := JobRun.set_Duration dur
                (JobRun.set_Log msg (JobRun.set_Status (Some st) jr1))).
  assert (InsertOrUpdateJobRun db jr = ((jr1, None), upsert db jr ir)) as H1.
  { unfold InsertOrUpdateJobRun, DB.step. rewrite Hf. fold ir.
    rewrite (bool_decide_eq_true_2 _ Hid).
    rewrite (upsert_absent db jr ir Habs). simpl.
    rewrite (bool_decide_eq_true_2 (0 < DB.log_seq db + 1)) by lia.
    simpl. by rewrite bool_decide_eq_false_2 by lia. }
  pose proof (upsert_absent db jr ir Habs) as Hdb1.
  set (r1 := Row.mk (DB.log_seq db + 1) (JobRun.Name jr)
               (JobRun.TriggeredAt jr) (JobRun.TriggeredBy jr)
               (JobRun.Duration jr) (JobRun.Status jr) (JobRun.Log jr) ir)
    in *.
  assert (∀ r, same_key jr2 r ↔ same_key jr r) as Hsame by done.
  assert (InsertOrUpdateJobRun (upsert db jr ir) jr2
          = ((jr2, None), upsert (upsert db jr ir) jr2 0)) as H2.
  { unfold InsertOrUpdateJobRun, DB.step. rewrite Hdb1. simpl. rewrite Hf.
    by rewrite bool_decide_eq_false_2 by (simpl; lia). }
  exists jr1, (upsert db jr ir), (upsert (upsert db jr ir) jr2 0).
  split; [done|]. split; [done|]. split; [by rewrite Hdb1|].
  split; [done|].
  rewrite (upsert_present _ jr2 0 r1).
  - rewrite Hdb1. simpl. rewrite fmap_app. f_equal.
    + apply upsert_update_others. intros r Hr. rewrite Hsame. by apply Habs.
    + simpl. by rewrite bool_decide_eq_true_2.
  - rewrite Hdb1. simpl. apply elem_of_app. right. by left.
  - done.
Qed.

Lemma run_saved_twice_witness :
  ∃ jr1 db1 db2,
    InsertOrUpdateJobRun DB.empty run_test_job = ((jr1, None), db1)
    ∧ InsertOrUpdateJobRun db1
        (JobRun.set_Duration 5000
           (JobRun.set_Log "done" (JobRun.set_Status (Some 0) jr1)))
      = ((JobRun.set_Duration 5000
            (JobRun.set_Log "done" (JobRun.set_Status (Some 0) jr1)), None),
         db2)
    ∧ DB.log db2
      = [Row.mk 1 "test_job" 1696154400 "manual" 5000 (Some 0) "done" 0].
Proof.
  destruct (run_saved_twice DB.empty run_test_job 0 5000 "done")
    as (jr1 & db1 & db2 & H1 & _ & _ & H2 & Hlog); [done|done|done| |].
  { intros r Hr. by apply elem_of_nil in Hr. }
  by exists jr1, db1, db2.
Defined.

(** X5. Save, then load by id: for a run without a row and without a
    [LogEntryId], in a table that keeps the AUTOINCREMENT invariant, the
    id [InsertOrUpdateJobRun] puts in the run is the one [LoadJobRun]
    finds it under, whatever job name is passed; the loaded run has the
    saved status, log, duration and trigger, and an empty [Name]. *)
Theorem save_then_load (db : DB.t) (jr : JobRun.t) (jobName : string) :
  DB.faults db = [] → ids_bounded db →
  JobRun.LogEntryId jr = 0 →
  (∀ r, r ∈ DB.log db → ¬ same_key jr r) →
  ∃ jr' db',
    InsertOrUpdateJobRun db jr = ((jr', None), db')
    ∧ JobRun.LogEntryId jr' = DB.log_seq db + 1
    ∧ LoadJobRun db' jobName (JobRun.LogEntryId jr')
      = ((JobRun.mk (JobRun.LogEntryId jr') (JobRun.Status jr) ""
            (JobRun.Log jr) "" (JobRun.TriggeredAt jr)
            (JobRun.TriggeredBy jr) [] (JobRun.Duration jr), None), db').
Proof.
  intros Hf [Hseq Hb] Hid Habs.
  destruct (first_save db jr Hf Hseq Hid Habs) as (db1 & Hsave & Hf1 & Hlog).
  eexists _, db1. split; [done|]. split; [done|].
  unfold LoadJobRun, DB.step. simpl.
  rewrite bool_decide_eq_false_2 by lia. rewrite Hf1, Hlog.
  rewrite filter_app.
  assert (filter (λ r, Row.id r = DB.log_seq db + 1) (DB.log db) = []) as ->.
  { apply filter_none. intros r Hr Hrid. specialize (Hb r Hr). lia. }
  by rewrite filter_cons_True.
Qed.

Lemma save_then_load_witness :
  ∃ jr' db',
    InsertOrUpdateJobRun db_two_jobs run_test_job = ((jr', None), db')
    ∧ JobRun.LogEntryId jr' = 4
    ∧ (LoadJobRun db' "another_job" 4).1
      = (JobRun.mk 4 None "" "Job is starting..." "" 1696154400 "manual"
           [] 0, None).
Proof.
  destruct (save_then_load db_two_jobs run_test_job "another_job")
    as (jr' & db' & Hsave & Hid & Hload); [done| |done| |].
  { split; [done|]. apply Forall_forall. repeat constructor; simpl; lia. }
  { apply (Forall_forall (λ r, ¬ same_key run_test_job r)).
    repeat constructor; by intros [=]. }
  change (DB.log_seq db_two_jobs + 1) with 4 in Hid.
  exists jr', db'. split; [done|]. split; [done|].
  rewrite Hid in Hload. by rewrite Hload.
Defined.

Lemma filter_all {A} (P : A → Prop) `{!∀ x, Decision (P x)} (l : list A) :
  (∀ x, x ∈ l → P x) → filter P l = l.
Proof.
  induction l as [|x l IH]; intros Hall; [done|].
  rewrite filter_cons_True by (apply Hall; by left).
  f_equal. apply IH. intros y Hy. apply Hall. by right.
Qed.

Section cleanup.
Implicit Types (rows : list Row.t) (r : Row.t).

Lemma foldr_min_le (a : Z) (l : list Z) :
foldr Z.min a l ≤ a ∧ ∀ x, x ∈ l → foldr Z.min a l ≤ x.
Proof.
induction l as [|y l [IHa IHl]]; simpl.
{ split; [lia|]. intros x Hx. by apply elem_of_nil in Hx. }
split; [lia|]. intros x [->|Hx]%elem_of_cons; [lia|].
specialize (IHl x Hx). lia.
Qed.

Lemma foldr_min_in (a : Z) (l : list Z) :
foldr Z.min a l = a ∨ foldr Z.min a l ∈ l.
Proof.
induction l as [|y l IH]; simpl; [by left|].
destruct (Z.min_spec y (foldr Z.min a l)) as [[_ ->]|[_ ->]].
- right. by left.
- destruct IH as [?|?]; [by left|right; by right].
Qed.

(** The smallest id of the group of [r0] is the id of a row of that group,
  and no row of the group has a smaller one. *)
Lemma group_min rows r0 :
r0 ∈ rows →
∃ r, r ∈ rows ∧ Row.key r = Row.key r0
  ∧ Row.id r
    = foldr Z.min (Row.id r0)
        (Row.id <$> filter (λ r', Row.key r' = Row.key r0) rows)
  ∧ ∀ r', r' ∈ rows → Row.key r' = Row.key r0 → Row.id r ≤ Row.id r'.
Proof.
intros Hin0.
set (ids := Row.id <$> filter (λ r', Row.key r' = Row.key r0) rows).
destruct (foldr_min_le (Row.id r0) ids) as [_ Hle].
assert (∀ r', r' ∈ rows → Row.key r' = Row.key r0 →
              foldr Z.min (Row.id r0) ids ≤ Row.id r') as Hmin.
{ intros r' Hr' Hk. apply Hle. apply list_elem_of_fmap. exists r'.
  split; [done|]. by apply list_elem_of_filter. }
destruct (foldr_min_in (Row.id r0) ids) as [Heq|Hmem].
- exists r0. rewrite Heq. repeat split; try done.
  intros r' Hr' Hk. rewrite <-Heq. by apply Hmin.
- apply list_elem_of_fmap in Hmem as (r & Hid & Hr).
  apply list_elem_of_filter in Hr as [Hk Hr].
  exists r. rewrite <-Hid. by repeat split.
Qed.

(** The rows the cleanup keeps are those with the smallest id of their
  key. *)
Lemma elem_of_cleanup rows r :
unique_ids rows →
r ∈ cleanup rows
↔ r ∈ rows ∧ ∀ r', r' ∈ rows → Row.key r' = Row.key r → Row.id r ≤ Row.id r'.
Proof.
intros Hu. unfold cleanup, minIds. rewrite list_elem_of_filter. split.
- intros [Hmem Hin]. split; [done|].
  apply list_elem_of_fmap in Hmem as (r0 & Hid & Hin0).
  destruct (group_min rows r0 Hin0) as (r1 & Hin1 & Hk1 & Hid1 & Hmin1).
  assert (r = r1) as ->.
  { apply (unique_ids_eq rows); [done..|]. congruence. }
  intros r' Hr' Hk'. apply Hmin1; [done|]. congruence.
- intros [Hin Hmin]. split; [|done].
  apply list_elem_of_fmap. exists r. split; [|done].
  destruct (group_min rows r Hin) as (r1 & Hin1 & Hk1 & Hid1 & Hmin1).
  rewrite <-Hid1. specialize (Hmin r1 Hin1 Hk1).
  specialize (Hmin1 r Hin eq_refl). lia.
Qed.

Lemma cleanup_unique_keys rows :
unique_ids rows → unique_keys (cleanup rows).
Proof.
intros Hu. unfold unique_keys. apply NoDup_fmap_2_strong.
- intros r1 r2 [H1 Hmin1]%elem_of_cleanup [H2 Hmin2]%elem_of_cleanup Hk;
    [|done..].
  apply (unique_ids_eq rows); [done..|].
  specialize (Hmin1 r2 H2 (eq_sym Hk)). specialize (Hmin2 r1 H1 Hk). lia.
- apply NoDup_filter. by eapply NoDup_fmap_1.
Qed.

Lemma cleanup_unique_ids rows :
unique_ids rows → unique_ids (cleanup rows).
Proof.
intros Hu. unfold unique_ids. apply NoDup_fmap_2_strong.
- intros r1 r2 [_ H1]%list_elem_of_filter [_ H2]%list_elem_of_filter Hid.
  by apply (unique_ids_eq rows).
- apply NoDup_filter. by eapply NoDup_fmap_1.
Qed.

Lemma cleanup_keeps_keys rows r :
unique_ids rows → r ∈ rows →
∃ r', r' ∈ cleanup rows ∧ Row.key r' = Row.key r ∧ Row.id r' ≤ Row.id r.
Proof.
intros Hu Hin.
destruct (group_min rows r Hin) as (r1 & Hin1 & Hk1 & _ & Hmin1).
exists r1. split; [|split; [done|by apply Hmin1]].
apply elem_of_cleanup; [done|]. split; [done|].
intros r' Hr' Hk'. apply Hmin1; [done|]. congruence.
Qed.

Lemma cleanup_conforming rows :
unique_ids rows → unique_keys rows → cleanup rows = rows.
Proof.
intros Hu Hk.
assert (∀ r, r ∈ rows → r ∈ cleanup rows) as Hall.
{ intros r Hr. apply elem_of_cleanup; [done|]. split; [done|].
  intros r' Hr' Hkk. assert (r' = r) as ->; [|done].
  unfold unique_keys in Hk.
  apply list_elem_of_lookup in Hr as [i Hi].
  apply list_elem_of_lookup in Hr' as [i' Hi'].
  assert (i' = i) as ->; [|congruence].
  eapply NoDup_lookup; [exact Hk|..]; rewrite list_lookup_fmap;
    [by rewrite Hi'|rewrite Hi; simpl; congruence]. }
apply filter_all. intros r Hr. specialize (Hall r Hr).
by apply list_elem_of_filter in Hall as [? _].
Qed.
End cleanup.

Lemma step_tables (db : DB.t) :
  DB.log (DB.step db).2 = DB.log db
  ∧ DB.log_seq (DB.step db).2 = DB.log_seq db
  ∧ DB.log_lines (DB.step db).2 = DB.log_lines db
  ∧ DB.log_lines_seq (DB.step db).2 = DB.log_lines_seq db.
Proof. unfold DB.step. by destruct (DB.faults db). Qed.

(** With no fault pending, or with one for the [ALTER TABLE] only, [InitDB]
    runs its five statements and leaves the cleaned table. *)
Lemma InitDB_run (db : DB.t) (alter : error) :
  DB.faults db = [] ∨ DB.faults db = [None; alter] →
  InitDB db
  = (None, DB.mk (cleanup (DB.log db)) (DB.log_seq db) (DB.log_lines db)
             (DB.log_lines_seq db) (DB.last_insert_rowid db) []).
Proof.
  destruct db as [rows sq ll lsq rid fs]. simpl.
  by intros [->| ->].
Qed.

(** X6.  [InitDB] removes duplicate runs: on a [log] table with a primary
    key, with no statement failing but possibly the [ALTER TABLE], whose
    error is ignored, the table that is left has one row per
    (job, triggered_at, triggered_by); the rows left are exactly the rows
    with the smallest id of their key, so every key that was there is still
    there; the log lines and the sequence are not touched. *)
Theorem InitDB_dedupes (db : DB.t) (alter : error) :
  DB.faults db = [] ∨ DB.faults db = [None; alter] →
  unique_ids (DB.log db) →
  ∃ db', InitDB db = (None, db')
    ∧ DB.faults db' = []
    ∧ unique_keys (DB.log db')
    ∧ unique_ids (DB.log db')
    ∧ (∀ r, r ∈ DB.log db'
          ↔ r ∈ DB.log db
            ∧ ∀ r', r' ∈ DB.log db → Row.key r' = Row.key r
                    → Row.id r ≤ Row.id r')
    ∧ (∀ r, r ∈ DB.log db →
          ∃ r', r' ∈ DB.log db' ∧ Row.key r' = Row.key r
                ∧ Row.id r' ≤ Row.id r)
    ∧ DB.log_lines db' = DB.log_lines db
    ∧ DB.log_seq db' = DB.log_seq db.
Proof.
  intros Hf Hu. eexists. split; [by apply (InitDB_run _ alter)|]. simpl.
  split; [done|]. split; [by apply cleanup_unique_keys|].
  split.
  { by apply cleanup_unique_ids. }
  split; [intros r; by apply elem_of_cleanup|].
  split; [|done]. intros r Hr. by apply cleanup_keeps_keys.
Qed.

Lemma InitDB_dedupes_witness :
  ∃ db', InitDB (DB.set_faults [None; Some "duplicate column name: is_running"]
                   db_legacy) = (None, db')
    ∧ Row.id <$> DB.log db' = [1; 3].
Proof.
  destruct (InitDB_dedupes
              (DB.set_faults [None; Some "duplicate column name: is_running"]
                 db_legacy) (Some "duplicate column name: is_running"))
    as (db' & Hinit & _); [by right|by compute_done|].
  exists db'. split; [done|].
  assert (db' = (InitDB
                   (DB.set_faults
                      [None; Some "duplicate column name: is_running"]
                      db_legacy)).2) as -> by (by rewrite Hinit).
  reflexivity.
Defined.

(** X7.  [InitDB] is idempotent, and does nothing to a table that already
    conforms: running it again on what it left changes nothing, and a table
    with one row per key keeps all its rows. *)
Theorem InitDB_idempotent (db : DB.t) (alter : error) :
  DB.faults db = [] ∨ DB.faults db = [None; alter] →
  unique_ids (DB.log db) →
  ∃ db', InitDB db = (None, db')
    ∧ InitDB db' = (None, db')
    ∧ (unique_keys (DB.log db) → DB.log db' = DB.log db).
Proof.
  intros Hf Hu. eexists. split; [by apply (InitDB_run _ alter)|].
  split.
  - rewrite (InitDB_run _ None) by (by left). simpl.
    rewrite cleanup_conforming; [done| |by apply cleanup_unique_keys].
    by apply cleanup_unique_ids.
  - intros Hk. simpl. by apply cleanup_conforming.
Qed.

Lemma InitDB_idempotent_witness :
  ∃ db', InitDB db_legacy = (None, db') ∧ InitDB db' = (None, db').
Proof.
  destruct (InitDB_idempotent db_legacy None) as (db' & H1 & H2 & _);
    [by left|by compute_done|].
  by exists db'.
Defined.

(** X8.  A failing [InitDB] deletes nothing: whichever statement fails,
    the rows of both tables are as they were, and [OpenDB] hands out no
    connection. *)
Theorem InitDB_failure_keeps_rows (db db' : DB.t) (e : string) :
  InitDB db = (Some e, db') →
  DB.log db' = DB.log db
  ∧ DB.log_lines db' = DB.log_lines db
  ∧ OpenDB db = (None, Some ("init db: " +:+ e)).
Proof.
  unfold OpenDB, InitDB.
  pose proof (step_tables db) as (L1 & _ & M1 & _).
  destruct (DB.step db) as [[e1|] db1] eqn:E1; simpl in *.
  { intros [= <- <-]. by rewrite L1, M1. }
  pose proof (step_tables db1) as (L2 & _ & M2 & _).
  set (db2 := (DB.step db1).2) in *.
  pose proof (step_tables db2) as (L3 & _ & M3 & _).
  destruct (DB.step db2) as [[e3|] db3] eqn:E3; simpl in *.
  { intros [= <- <-]. by rewrite L3, L2, L1, M3, M2, M1. }
  pose proof (step_tables db3) as (L4 & _ & M4 & _).
  destruct (DB.step db3) as [[e4|] db4] eqn:E4; simpl in *.
  { intros [= <- <-]. by rewrite L4, L3, L2, L1, M4, M3, M2, M1. }
  pose proof (step_tables db4) as (L5 & _ & M5 & _).
  destruct (DB.step db4) as [[e5|] db5] eqn:E5; simpl in *.
  { intros [= <- <-]. by rewrite L5, L4, L3, L2, L1, M5, M4, M3, M2, M1. }
  done.
Qed.

Lemma InitDB_failure_keeps_rows_witness :
  ∃ db', InitDB (DB.set_faults [None; None; None; None; Some "database is locked"]
                   db_legacy)
         = (Some ("cleanup old log records: " +:+ "database is locked"), db')
    ∧ DB.log db' = rows_legacy.
Proof.
  eexists. split; [reflexivity|].
  by apply (InitDB_failure_keeps_rows
              (DB.set_faults
                 [None; None; None; None; Some "database is locked"]
                 db_legacy) _ _ eq_refl).
Defined.

Lemma LoadJobRuns_run (db : DB.t) (jobName : string) (nruns : Z)
    (includeLogs : bool) :
  DB.faults db = [] →
  LoadJobRuns db jobName nruns includeLogs
  = (((if includeLogs then run_of_row else run_of_row_nolog)
        <$> limitRows nruns
              (merge_sort newer_first
                 (filter (λ r, Row.job r = jobName) (DB.log db))),
      None), db).
Proof. intros Hf. unfold LoadJobRuns, DB.step. by rewrite Hf. Qed.



(** X10.  The first run [LoadJobRuns] lists is the run [LoadJobRun] loads
    as the latest one: with a positive or negative limit and the logs
    included, the list is empty exactly when [LoadJobRun] with id -1 finds
    no row, and otherwise its head is the run [LoadJobRun] returns. *)
Theorem LoadJobRuns_head_is_latest (db : DB.t) (jobName : string)
    (nruns : Z) :
  DB.faults db = [] → nruns ≠ 0 →
  ∃ jrs, LoadJobRuns db jobName nruns true = ((jrs, None), db)
    ∧ match head jrs with
      | Some jr => LoadJobRun db jobName (-1) = ((jr, None), db)
      | None =>
          LoadJobRun db jobName (-1)
          = ((JobRun.zero,
              Some ("load latest job run: " +:+ "sql: no rows in result set")),
             db)
      end.
Proof.
  intros Hf Hn. rewrite LoadJobRuns_run by done. eexists. split; [done|].
  unfold LoadJobRun, DB.step. rewrite Hf. simpl.
  set (sorted := merge_sort newer_first _).
  assert (head (limitRows nruns sorted) = head sorted) as Hhd.
  { unfold limitRows. case_bool_decide; [done|].
    destruct (Z.to_nat nruns) as [|k] eqn:Hk; [lia|]. by destruct sorted. }
  rewrite <-Hhd. by destruct (limitRows nruns sorted).
Qed.

Lemma LoadJobRuns_head_is_latest_witness :
  ∃ jr, head (LoadJobRuns db_two_jobs "job_a" 5 true).1.1 = Some jr
    ∧ LoadJobRun db_two_jobs "job_a" (-1) = ((jr, None), db_two_jobs).
Proof.
  destruct (LoadJobRuns_head_is_latest db_two_jobs "job_a" 5 eq_refl
              ltac:(done)) as (jrs & Hload & Hhd).
  rewrite Hload. simpl.
  assert (jrs = (LoadJobRuns db_two_jobs "job_a" 5 true).1.1) as Hj
    by (by rewrite Hload).
  destruct (head jrs) as [jr|] eqn:E.
  - by exists jr.
  - rewrite Hj in E. discriminate E.
Defined.

(** * More on the run lifecycle *)

(** X11.  The trigger argument of the executor only labels log lines: for
    any two trigger strings the executor hands back the same run, whose
    [TriggeredBy] is the one it was given, and leaves the same world but for
    the trace, which has as many events either way. *)
Theorem execCommandContext_trigger_labels_only
    (j : JobSpec.t) (ctx : Ctx) (jr : JobRun.t) (t1 t2 : string)
    (w : World.t) :
  ∃ jr' w1 w2,
    execCommandContext j ctx jr t1 w = Done jr' w1
    ∧ execCommandContext j ctx jr t2 w = Done jr' w2
    ∧ untraced w1 = untraced w2
    ∧ length (World.trace w1) = length (World.trace w2)
    ∧ JobRun.TriggeredBy jr' = JobRun.TriggeredBy jr.
Proof.
  unfold execCommandContext.
  destruct (JobSpec.Command j) as [|c argv].
  { destruct (Config.SuppressLogs (JobSpec.cfg j)); eexists _, _, _;
      do 2 (split; [reflexivity|]); simpl; by rewrite ?length_app. }
  unfold mbind, M_bind, emit, osEnviron, Start, ctxErr, clock, skip, ret,
    mret, M_ret, advance. simpl.
  destruct (World.procs w (World.nprocs w)) as [e|output elapsed [|code|e]];
    destruct (Config.SuppressLogs (JobSpec.cfg j)); simpl;
    try destruct (doneBy ctx (World.now w + elapsed)); simpl;
    eexists _, _, _; do 2 (split; [reflexivity|]); simpl;
    by rewrite ?length_app.
Qed.

(** The executor's part in the clock, the log buffer and the webhooks. *)
Lemma execCommandContext_story j ctx jr trigger w :
  ∃ jr' w',
    execCommandContext j ctx jr trigger w = Done jr' w'
    ∧ JobRun.logBuf jr' = JobRun.logBuf jr +:+ attemptOutput j w 0
    ∧ World.now w' = World.now w + attemptElapsed j w 0
    ∧ World.runs w' = World.runs w
    ∧ World.nhooks w' = World.nhooks w
    ∧ calls (World.trace w') = calls (World.trace w)
    ∧ JobRun.Triggered jr' = JobRun.Triggered jr.
Proof.
  unfold execCommandContext, attemptOutput, attemptElapsed, calls.
  rewrite Nat.add_0_r.
  destruct (JobSpec.Command j) as [|c argv].
  { destruct (Config.SuppressLogs (JobSpec.cfg j)); eexists _, _;
      (split; [reflexivity|]); simpl;
      rewrite ?omap_app, ?app_nil_r, ?append_empty_r, ?Z.add_0_r;
      by repeat split. }
  unfold mbind, M_bind, emit, osEnviron, Start, ctxErr, clock, skip, ret,
    mret, M_ret, advance. simpl.
  destruct (World.procs w (World.nprocs w)) as [e|output elapsed [|code|e]];
    destruct (Config.SuppressLogs (JobSpec.cfg j)); simpl;
    try destruct (doneBy ctx (World.now w + elapsed)); simpl;
    eexists _, _; (split; [reflexivity|]); simpl;
    rewrite ?omap_app, ?app_nil_r, ?append_empty_r, ?Z.add_0_r;
    by repeat split.
Qed.

(** X12.  The log of a finalized attempt is the buffer: whatever
    [execCommandContext] wrote into [Log] (the exit code line, the notice of
    a killed child, the reason a job could not start), the run [finalize]
    hands back has as its [Log] exactly what the buffer held before the
    attempt followed by what the attempt captured, and keeps the status of
    the attempt. *)
Theorem attempt_log_is_buffer
    (s : Schedule.t) (downstream : JobSpec.t → string → M JobRun.t)
    (j : JobSpec.t) (ctx : Ctx) (jr : JobRun.t) (trigger : string)
    (w w1 w2 : World.t) (jr1 jr2 : JobRun.t) :
  execCommandContext j ctx jr trigger w = Done jr1 w1 →
  finalize s downstream j jr1 w1 = Done jr2 w2 →
  JobRun.Log jr2 = JobRun.logBuf jr +:+ attemptOutput j w 0
  ∧ JobRun.logBuf jr2 = JobRun.Log jr2
  ∧ JobRun.Status jr2 = JobRun.Status jr1.
Proof.
  intros Hexec Hfin.
  destruct (execCommandContext_story j ctx jr trigger w)
    as (jr1' & w1' & Hexec' & Hbuf & _).
  rewrite Hexec in Hexec'. injection Hexec' as <- <-.
  apply finalize_inv in Hfin as [i ->]. simpl. by rewrite Hbuf.
Qed.

Lemma attempt_log_is_buffer_witness :
  ∃ jr1 w1 jr2 w2,
    execCommandContext jFail Background runHello "manual" wFail = Done jr1 w1
    ∧ finalize sched0 (execCommandWithRetry 0 sched0) jFail jr1 w1
      = Done jr2 w2
    ∧ JobRun.Log jr1 = "Exit code: 2" +:+ nl
    ∧ JobRun.Log jr2 = "".
Proof.
  destruct (execCommandContext jFail Background runHello "manual" wFail)
    as [jr1 w1| | |] eqn:E1; try (by vm_compute in E1).
  destruct (finalize sched0 (execCommandWithRetry 0 sched0) jFail jr1 w1)
    as [jr2 w2| | |] eqn:E2.
  2-4: vm_compute in E1; injection E1 as <- <-; by vm_compute in E2.
  exists jr1, w1, jr2, w2. do 2 (split; [done|]).
  destruct (attempt_log_is_buffer _ _ _ _ _ _ _ _ _ _ _ E1 E2)
    as (HL & _ & _).
  split; [|by rewrite HL].
  vm_compute in E1. by injection E1 as <- _.
Defined.

Lemma calls_app tr1 tr2 : calls (tr1 ++ tr2) = calls tr1 ++ calls tr2.
Proof. apply omap_app. Qed.

Lemma notified_from w w1 w' expected :
  calls (World.trace w1) = calls (World.trace w) →
  notified w1 w' expected → notified w w' expected.
Proof. intros Hc (added & Hc' & Hp). exists added. by rewrite <-Hc. Qed.

Lemma notified_to w w1 w' expected :
  notified w w1 expected →
  calls (World.trace w') = calls (World.trace w1) →
  notified w w' expected.
Proof. intros (added & Hc1 & Hp) Hc. exists added. by rewrite Hc. Qed.

Section hooks.
Variable s : Schedule.t.
Variable downstream : JobSpec.t → string → M JobRun.t.
Variable j : JobSpec.t.

Lemma webhookTask_calls jr wu w :
  ∃ w',
    webhookTask j jr wu w = Done () w'
    ∧ calls (World.trace w') = calls (World.trace w) ++ [(wu, jr)]
    ∧ World.nhooks w' = S (World.nhooks w)
    ∧ World.now w' = World.now w.
Proof.
  unfold webhookTask, Call, mbind, M_bind.
  destruct (World.hooks w (World.nhooks w)) as [resp [e|]]; simpl;
    eexists; (split; [reflexivity|]); simpl;
    by rewrite ?calls_app, ?app_nil_r.
Qed.

(** The webhook goroutines call each webhook once, in whatever order
    they run. *)
Lemma webhookTasks_calls jr l w :
  ∃ w',
    goAll (runTask downstream j jr) (WebhookTask <$> l) w = Done () w'
    ∧ notified w w' ((λ wu, (wu, jr)) <$> l).
Proof.
  destruct (goAll_seqAll (runTask downstream j jr) (WebhookTask <$> l) w)
    as (order & Hperm & ->).
  destruct (seqAll_acc (runTask downstream j jr) (λ _, True)
              (λ _ _, Logic.I) (λ w0, calls (World.trace w0))
              (λ t, match t with
                    | WebhookTask wu => [(wu, jr)]
                    | TriggerTask _ _ => []
                    end) order) with w as (w' & Hrun & _ & Hc);
    [done| |done|].
  - intros t Ht w0 _. rewrite Hperm in Ht.
    apply list_elem_of_fmap in Ht as (wu & -> & _).
    destruct (webhookTask_calls jr wu w0) as (w1 & Hone & Hc1 & _).
    by exists w1.
  - exists w'. split; [done|]. eexists. split; [exact Hc|].
    rewrite Hperm. clear. induction l as [|wu l IH]; [done|].
    simpl. by rewrite IH.
Qed.

Lemma OnEvent_calls jr st w :
  JobRun.Status jr = Some st → noDownstream s j →
  ∃ w',
    OnEvent s downstream j jr w = Done () w'
    ∧ notified w w' ((λ wu, (wu, jr)) <$> (eventsFor s j st ≫= webhooksOf))
    ∧ quietStep w w'
    ∧ World.runs w' = World.runs w
    ∧ World.db w' = World.db w.
Proof.
  intros Hst Hq.
  destruct (OnEvent_Done s downstream j jr w Hq)
    as (w' & Hrun & Hquiet & Hruns & Hdb); [by eexists|].
  exists w'. split; [done|].
  unfold OnEvent in Hrun. rewrite Hst in Hrun.
  rewrite (eventsFor_noDownstream s j st Hq) in Hrun.
  destruct (webhookTasks_calls jr (eventsFor s j st ≫= webhooksOf) w)
    as (w2 & Hrun2 & Hc).
  assert (goAll (runTask downstream j jr)
            (WebhookTask <$> (eventsFor s j st ≫= webhooksOf)) w
          = Done () w') as Hrun' by exact Hrun.
  rewrite Hrun' in Hrun2. injection Hrun2 as <-.
  by do 3 (split; [done|]).
Qed.
End hooks.



Lemma logToDb_calls j jr w jr' w' :
  logToDb j jr w = Done jr' w' →
  calls (World.trace w') = calls (World.trace w)
  ∧ World.nhooks w' = World.nhooks w
  ∧ (Config.DB (JobSpec.cfg j) = false → jr' = jr ∧ World.db w' = World.db w).
Proof.
  unfold logToDb. destruct (Config.DB (JobSpec.cfg j)); simpl.
  2:{ intros [= <- <-]. simpl. by rewrite calls_app, app_nil_r. }
  unfold mbind, M_bind.
  destruct (InsertOrUpdateJobRun (World.db w) jr) as [[jr1 [e|]] db'].
  - destruct (JobSpec.globalSchedule j); [|done].
    intros [= <- <-]. simpl. by rewrite calls_app, app_nil_r.
  - by intros [= <- <-].
Qed.

Section finalize.
Variable s : Schedule.t.
Variable downstream : JobSpec.t → string → M JobRun.t.
Variable j : JobSpec.t.

(** [finalize] for a job that cannot panic while saving and fires no
    downstream job. *)
Lemma finalize_story jr st w :
  savesQuietly j
  ∨ (InsertOrUpdateJobRun (World.db w) (flushLogBuffer jr)).1.2 = None →
  noDownstream s j → JobRun.Status jr = Some st →
  ∃ jr' w' i,
    finalize s downstream j jr w = Done jr' w'
    ∧ jr' = JobRun.set_LogEntryId i (flushLogBuffer jr)
    ∧ (Config.DB (JobSpec.cfg j) = false →
         jr' = flushLogBuffer jr ∧ World.db w' = World.db w)
    ∧ quietStep w w'
    ∧ World.runs w'
      = (if Config.DB (JobSpec.cfg j) then World.runs w
         else World.runs w ++ [(JobSpec.Name j, jr')])
    ∧ notified w w'
        ((λ wu, (wu, jr')) <$> (eventsFor s j st ≫= webhooksOf))
    ∧ World.db w'
      = (if Config.DB (JobSpec.cfg j)
         then (InsertOrUpdateJobRun (World.db w) (flushLogBuffer jr)).2
         else World.db w).
Proof.
  intros Hsave Hq Hst. unfold finalize.
  destruct (logToDb_Done j (flushLogBuffer jr) w Hsave)
    as (jr1 & w1 & Hlog & [i Hjr1] & Hq1 & Hr1 & Hdb1 & _).
  destruct (logToDb_calls _ _ _ _ _ Hlog) as (Hc1 & _ & Hnodb).
  rewrite (bind_Done _ _ _ _ _ Hlog).
  set (appendRun := if Config.DB (JobSpec.cfg j) then skip else _).
  assert (∃ w2, appendRun w1 = Done () w2 ∧ quietStep w1 w2
                ∧ World.db w2 = World.db w1
                ∧ World.trace w2 = World.trace w1
                ∧ World.runs w2
                  = (if Config.DB (JobSpec.cfg j) then World.runs w1
                     else World.runs w1 ++ [(JobSpec.Name j, jr1)]))
    as (w2 & Happ & Hq2 & Hdb2 & Htr2 & Hr2).
  { unfold appendRun. destruct (Config.DB (JobSpec.cfg j));
      eexists; (split; [reflexivity|]); by repeat split. }
  rewrite (bind_Done _ _ _ _ _ Happ).
  destruct (OnEvent_calls s downstream j jr1 st w2)
    as (w3 & Hev & Hc3 & Hq3 & Hr3 & Hdb3); [by subst jr1|done|].
  rewrite (bind_Done _ _ _ _ _ Hev).
  exists jr1, w3, i. split; [reflexivity|]. split; [done|].
  split.
  { intros Hno. destruct (Hnodb Hno) as [-> Hdb1'].
    split; [done|]. by rewrite Hdb3, Hdb2. }
  split; [eauto using quietStep_trans|].
  split; [by rewrite Hr3, Hr2, Hr1|].
  split; [apply (notified_from w w2); [by rewrite Htr2|done]|].
  by rewrite Hdb3, Hdb2, Hdb1.
Qed.
End finalize.

(** X14.  [finalize] of a run that has a status, for a job that fires no
    downstream job and cannot panic while saving: the run handed back is
    the run given with its buffer flushed into [Log] (and possibly a new
    [LogEntryId]); it executes nothing.  With a store the in-memory runs of
    the job are left alone; without one exactly one run is appended to them,
    the run handed back, and the store is not touched.  The webhooks are
    notified with the run handed back, that is after the flush. *)
Theorem finalize_keeps_run_in_memory
    (s : Schedule.t) (downstream : JobSpec.t → string → M JobRun.t)
    (j : JobSpec.t) (jr : JobRun.t) (st : Z) (w : World.t) :
  savesQuietly j → noDownstream s j → JobRun.Status jr = Some st →
  ∃ jr' w' i,
    finalize s downstream j jr w = Done jr' w'
    ∧ jr' = JobRun.set_LogEntryId i (JobRun.set_Log (JobRun.logBuf jr) jr)
    ∧ invocations (World.trace w') = invocations (World.trace w)
    ∧ World.nprocs w' = World.nprocs w
    ∧ (Config.DB (JobSpec.cfg j) = true →
         runsOf (JobSpec.Name j) w' = runsOf (JobSpec.Name j) w)
    ∧ (Config.DB (JobSpec.cfg j) = false →
         runsOf (JobSpec.Name j) w' = runsOf (JobSpec.Name j) w ++ [jr']
         ∧ i = JobRun.LogEntryId jr
         ∧ World.db w' = World.db w)
    ∧ (∀ wu r, (wu, r) ∈ calls (World.trace w') →
               (wu, r) ∈ calls (World.trace w) ∨ r = jr').
Proof.
  intros Hsave Hq Hst.
  destruct (finalize_story s downstream j jr st w (or_introl Hsave) Hq Hst)
    as (jr' & w' & i & Hrun & Hjr & Hnodb & (_ & _ & Hn & _ & _ & Hinv)
        & Hruns & Hcalls & _).
  exists jr', w', i. do 4 (split; [done|]). unfold runsOf.
  split; [intros Hdb; by rewrite Hruns, Hdb|]. split.
  - intros Hdb. destruct (Hnodb Hdb) as [Hflush Hdb'].
    rewrite Hruns, Hdb, filter_app, fmap_app, filter_cons_True by done.
    split; [done|]. split; [|done].
    rewrite Hflush in Hjr. by apply (f_equal JobRun.LogEntryId) in Hjr.
  - intros wu r. destruct Hcalls as (added & -> & Hperm).
    rewrite elem_of_app, Hperm, list_elem_of_fmap.
    intros [?|(wu' & [= -> ->] & _)]; by eauto.
Qed.

Lemma finalize_keeps_run_in_memory_witness :
  ∃ jr' w',
    finalize schedNotify (execCommandWithRetry 0 schedNotify) jNotify
      runFailed wNotify = Done jr' w'
    ∧ runsOf "notify" w' = [jr'].
Proof.
  destruct (finalize_keeps_run_in_memory schedNotify
              (execCommandWithRetry 0 schedNotify) jNotify runFailed 2
              wNotify) as (jr' & w' & i & Hrun & _ & _ & _ & _ & Hmem & _);
    [by left|by repeat split|done|].
  exists jr', w'. split; [done|]. destruct (Hmem eq_refl) as [Hm _].
  exact Hm.
Defined.

Lemma LoadJobRun_cases db jobName id :
  DB.log (LoadJobRun db jobName id).2 = DB.log db
  ∧ match (LoadJobRun db jobName id).1.2 with
    | Some _ => (LoadJobRun db jobName id).1.1 = JobRun.zero
    | None =>
        ∃ r, r ∈ DB.log db
          ∧ (LoadJobRun db jobName id).1.1 = run_of_row r
          ∧ (if bool_decide (id = -1) then Row.job r = jobName
             else Row.id r = id)
    end.
Proof.
  unfold LoadJobRun.
  pose proof (step_tables db) as (Hlog & _).
  destruct (DB.step db) as [[e|] db1]; simpl in Hlog;
    case_bool_decide; simpl; try done; rewrite Hlog.
  - destruct (head _) as [r|] eqn:Hhd; simpl; [|done]. split; [done|].
    exists r. apply head_Some_elem_of in Hhd.
    rewrite merge_sort_Permutation in Hhd.
    apply list_elem_of_filter in Hhd as [? ?]. by repeat split.
  - destruct (head _) as [r|] eqn:Hhd; simpl; [|done]. split; [done|].
    exists r. apply head_Some_elem_of in Hhd.
    apply list_elem_of_filter in Hhd as [? ?]. by repeat split.
Qed.

(** X15.  [loadLogFromDb] always answers: without a store, or when the
    store fails or has no such run, it gives the empty run with an error and
    logs one warning; otherwise it gives the run of a stored row (the latest
    of the job for id -1, the row with that id otherwise) and logs nothing.
    It changes neither the rows of the store nor the in-memory runs. *)
Theorem loadLogFromDb_answers (j : JobSpec.t) (id : Z) (w : World.t) :
  ∃ jr err w',
    loadLogFromDb j id w = Done (jr, err) w'
    ∧ DB.log (World.db w') = DB.log (World.db w)
    ∧ World.runs w' = World.runs w
    ∧ (Config.DB (JobSpec.cfg j) = false → err = Some "no db connection")
    ∧ match err with
      | Some e =>
          jr = JobRun.zero
          ∧ ∃ fields msg,
              World.trace w'
              = World.trace w ++ [EvLog JobLogger Warn fields msg]
      | None =>
          World.trace w' = World.trace w
          ∧ ∃ r, r ∈ DB.log (World.db w) ∧ jr = run_of_row r
              ∧ (if bool_decide (id = -1) then Row.job r = JobSpec.Name j
                 else Row.id r = id)
      end.
Proof.
  unfold loadLogFromDb.
  destruct (Config.DB (JobSpec.cfg j)); simpl.
  2:{ eexists _, _, _. split; [reflexivity|]. simpl.
      do 3 (split; [done|]). split; [done|]. by eexists _, _. }
  unfold mbind, M_bind.
  destruct (LoadJobRun_cases (World.db w) (JobSpec.Name j) id)
    as [Hlog Hres].
  destruct (LoadJobRun (World.db w) (JobSpec.Name j) id)
    as [[jr [e|]] db']; simpl in *.
  - eexists _, _, _. split; [reflexivity|]. simpl.
    do 2 (split; [done|]). split; [done|]. split; [done|]. by eexists _, _.
  - eexists _, _, _. split; [reflexivity|]. simpl.
    do 2 (split; [done|]). split; [done|]. split; [done|].
    destruct Hres as (r & ? & ? & ?). by exists r.
Qed.

Section in_memory_runs.
Implicit Types (l : list (string * JobRun.t)) (name n : string).

Lemma runs_of_others name n l :
  name ≠ n →
  filter (λ p, p.1 = name) (filter (λ p, p.1 ≠ n) l)
  = filter (λ p, p.1 = name) l.
Proof.
  intros Hne. induction l as [|[k jr] l IH]; [done|].
  destruct (decide (k = n)) as [->|Hk].
  - rewrite (filter_cons_False (λ p, p.1 ≠ n)) by (simpl; tauto).
    rewrite (filter_cons_False (λ p, p.1 = name)) by (simpl; congruence).
    done.
  - rewrite (filter_cons_True (λ p, p.1 ≠ n)) by done.
    destruct (decide (k = name)) as [->|Hk'].
    + rewrite !(filter_cons_True (λ p, p.1 = name)) by done.
      by rewrite IH.
    + by rewrite !(filter_cons_False (λ p, p.1 = name)) by done.
Qed.

Lemma runs_of_removed n l :
  filter (λ p, p.1 = n) (filter (λ p, p.1 ≠ n) l) = [].
Proof.
  apply filter_none. intros p [Hp _]%list_elem_of_filter. done.
Qed.

Lemma runs_of_tagged name n (jrs : list JobRun.t) :
  (filter (λ p, p.1 = name) ((λ jr, (n, jr)) <$> jrs)).*2
  = if decide (name = n) then jrs else [].
Proof.
  destruct (decide (name = n)) as [->|Hne].
  - rewrite filter_all.
    + rewrite <-list_fmap_compose. apply list_fmap_id.
    + by intros p (jr & -> & _)%list_elem_of_fmap.
  - rewrite filter_none; [done|].
    intros p (jr & -> & _)%list_elem_of_fmap. simpl. congruence.
Qed.
End in_memory_runs.

(** X16.  [loadRunsFromDb] always returns.  When the job has a store and
    [LoadJobRuns] succeeds, the in-memory runs of the job become exactly the
    runs loaded (what was there before is dropped); otherwise they stay as
    they were.  The in-memory runs of other jobs and the rows of the store
    are never changed. *)
Theorem loadRunsFromDb_replaces_runs (j : JobSpec.t) (nruns : Z)
    (includeLogs : bool) (w : World.t) :
  ∃ w',
    loadRunsFromDb j nruns includeLogs w = Done () w'
    ∧ DB.log (World.db w') = DB.log (World.db w)
    ∧ (∀ name, name ≠ JobSpec.Name j → runsOf name w' = runsOf name w)
    ∧ runsOf (JobSpec.Name j) w'
      = (if Config.DB (JobSpec.cfg j)
         then match LoadJobRuns (World.db w) (JobSpec.Name j) nruns
                      includeLogs with
              | ((jrs, None), _) => jrs
              | ((_, Some _), _) => runsOf (JobSpec.Name j) w
              end
         else runsOf (JobSpec.Name j) w).
Proof.
  unfold loadRunsFromDb.
  destruct (Config.DB (JobSpec.cfg j)); simpl.
  2:{ eexists. split; [reflexivity|]. by repeat split. }
  unfold mbind, M_bind, LoadJobRuns.
  pose proof (step_tables (World.db w)) as (Hlog & _).
  destruct (DB.step (World.db w)) as [[e|] db1]; simpl in *.
  { eexists. split; [reflexivity|]. by repeat split. }
  eexists. split; [reflexivity|]. simpl. split; [done|].
  unfold runsOf. simpl. split.
  - intros name Hne.
    rewrite filter_app, fmap_app, runs_of_tagged, decide_False by done.
    by rewrite app_nil_r, runs_of_others.
  - rewrite filter_app, fmap_app, runs_of_tagged, decide_True by done.
    by rewrite runs_of_removed.
Qed.

(** [setup] for a job that cannot panic while saving: the fresh run, with
    the id the store gave it. *)
Lemma setup_story j trigger w :
  savesQuietly j
  ∨ (InsertOrUpdateJobRun (World.db w)
       (JobRun.mk 0 None "" "" (JobSpec.Name j) (World.now w) trigger [] 0)
    ).1.2 = None →
  ∃ jr0 w0 i,
    setup j trigger w = Done jr0 w0
    ∧ jr0 = JobRun.mk i None "" "" (JobSpec.Name j) (World.now w) trigger [] 0
    ∧ quietStep w w0
    ∧ World.runs w0 = World.runs w
    ∧ calls (World.trace w0) = calls (World.trace w)
    ∧ World.db w0
      = (if Config.DB (JobSpec.cfg j)
         then (InsertOrUpdateJobRun (World.db w)
                 (JobRun.mk 0 None "" "" (JobSpec.Name j) (World.now w)
                    trigger [] 0)).2
         else World.db w).
Proof.
  intros Hsave. unfold setup, now.
  rewrite (bind_Done _ _ _ _ _ (eq_refl : clock w = Done (World.now w) w)).
  destruct (logToDb_Done j
              (JobRun.mk 0 None "" "" (JobSpec.Name j) (World.now w) trigger
                 [] 0) w Hsave)
    as (jr0 & w0 & Hlog & [i ->] & Hq & Hr & Hdb & _).
  destruct (logToDb_calls _ _ _ _ _ Hlog) as (Hc & _).
  eexists _, w0, i. split; [exact Hlog|]. by do 4 (split; [done|]).
Qed.

Lemma head_filter_only {A} (P : A → Prop) `{!∀ x, Decision (P x)}
    (l : list A) (x : A) :
  x ∈ l → P x → (∀ y, y ∈ l → P y → y = x) → head (filter P l) = Some x.
Proof.
  intros Hin HP Huniq.
  assert (x ∈ filter P l) as Hf by (by apply list_elem_of_filter).
  destruct (filter P l) as [|y tl] eqn:Heq.
  { by apply elem_of_nil in Hf. }
  simpl. f_equal. assert (y ∈ filter P l) as Hy by (rewrite Heq; by left).
  apply list_elem_of_filter in Hy as [? ?]. by apply Huniq.
Qed.

(** X17.  [RunJob] runs the named job exactly once.  For a job that cannot
    panic while saving (it has a schedule, or no store) and whose hooks name
    no downstream job: whatever the job's retry count and whether or not
    the attempt succeeds, the executor is invoked one time, with trigger
    "manual", and the run handed back has the status of that attempt, the
    captured output as its log and the instant of the call as its trigger
    time.  A name no job of the schedule has is an error, and then nothing
    is changed. *)
Theorem RunJob_runs_once (fuel : nat) (s : Schedule.t)
    (jobs : list JobSpec.t) (scheduleFn jobName : string) (w : World.t) :
  (∀ job, job ∈ jobs → JobSpec.Name job = jobName →
     (∀ job', job' ∈ jobs → JobSpec.Name job' = jobName → job' = job) →
     savesQuietly job → noDownstream s job →
     ∃ jr w',
       RunJob fuel s jobs scheduleFn jobName w = Done (jr, None) w'
       ∧ invocations (World.trace w')
         = invocations (World.trace w) ++ [(jobName, "manual")]
       ∧ JobRun.Status jr = Some (attemptStatus job w 0)
       ∧ JobRun.Log jr = attemptOutput job w 0
       ∧ (JobRun.Name jr, JobRun.TriggeredAt jr, JobRun.TriggeredBy jr)
         = (jobName, World.now w, "manual"))
  ∧ ((∀ job, job ∈ jobs → JobSpec.Name job ≠ jobName) →
     RunJob fuel s jobs scheduleFn jobName w
     = Done (JobRun.zero,
             Some ("cannot find job " +:+ jobName +:+ " in schedule "
                   +:+ scheduleFn)) w).
Proof.
  split.
  - intros job Hin Hname Huniq Hsave Hq. unfold RunJob.
    pose proof (head_filter_only (λ job, JobSpec.Name job = jobName)
                  jobs job Hin Hname Huniq) as Hhd.
    destruct (filter _ jobs) as [|job0 rest]; [done|].
    injection Hhd as ->.
    destruct (setup_story job "manual" w (or_introl Hsave))
      as (jr0 & w0 & i & Hsetup & -> & (Hnow0 & Hp0 & Hn0 & _ & _ & Hinv0)
          & _).
    rewrite (bind_Done _ _ _ _ _ Hsetup). unfold execCommand.
    set (jr0 := JobRun.mk i None "" "" (JobSpec.Name job) (World.now w)
                  "manual" [] 0).
    destruct (execCommandContext_Done job Background jr0 "manual" w0)
      as (jr1 & w1 & Hexec & [st Hst] & Hfields & _ & _ & _ & _ & Hinv1
          & Hpath).
    destruct (execCommandContext_story job Background jr0 "manual" w0)
      as (jr1' & w1' & Hexec' & Hbuf & _).
    rewrite Hexec in Hexec'. injection Hexec' as <- <-.
    rewrite (bind_Done _ _ _ _ _ Hexec).
    destruct (finalize_story s (execCommandWithRetry fuel s) job jr1 st w1
                (or_introl Hsave) Hq Hst)
      as (jr2 & w2 & i2 & Hfin & -> & _ & (_ & _ & _ & _ & _ & Hinv2) & _).
    rewrite (bind_Done _ _ _ _ _ Hfin).
    eexists _, _. split; [reflexivity|].
    split; [by rewrite Hinv2, Hinv1, Hinv0, Hname|].
    assert (attemptStatus job w0 0 = attemptStatus job w 0
            ∧ attemptOutput job w0 0 = attemptOutput job w 0) as [Hs Ho].
    { unfold attemptStatus, attemptOutput. by rewrite Hp0, Hn0. }
    simpl. split; [|split].
    + rewrite Hst, <-Hs. f_equal. unfold attemptStatus.
      rewrite Nat.add_0_r.
      destruct (JobSpec.Command job).
      { destruct Hpath as (Hst' & _). congruence. }
      destruct Hpath as [_ Hpath].
      destruct (World.procs w0 (World.nprocs w0)) as [e|out dt res].
      { destruct Hpath as (Hst' & _). simpl. congruence. }
      destruct Hpath as [_ Hres].
      destruct res; [destruct Hres as (Hst' & _)|destruct Hres as (Hst' & _)
                    |destruct Hres as (Hst' & _)]; simpl in *; congruence.
    + by rewrite Hbuf, <-Ho.
    + injection Hfields as _ -> -> ->. by rewrite Hname.
  - intros Hnone. unfold RunJob. rewrite filter_none; [done|].
    intros job Hin. by apply Hnone.
Qed.

Lemma RunJob_runs_once_witness :
  ∃ jr w',
    RunJob 0 sched0 [jHello; jFail] "schedule.yaml" "fail" wFail
    = Done (jr, None) w'
    ∧ invocations (World.trace w') = [("fail", "manual")]
    ∧ JobRun.Status jr = Some 2.
Proof.
  destruct (RunJob_runs_once 0 sched0 [jHello; jFail] "schedule.yaml" "fail"
              wFail) as [Hrun _].
  destruct (Hrun jFail) as (jr & w' & H1 & H2 & H3 & _).
  - right. left.
  - reflexivity.
  - intros job' [->|[->|Hnil%elem_of_nil]%elem_of_cons]%elem_of_cons Hn;
      [discriminate Hn|reflexivity|destruct Hnil].
  - by left.
  - by repeat split.
  - by exists jr, w'.
Defined.

(** X18.  A job makes [Retries + 1] attempts as a 64-bit sum: when that sum
    is not positive (a retry count of -1 or less, or the largest int64),
    the retrying run sets the run up and attempts nothing.  The run handed
    back has no status, nothing was executed and no hook fired; with a
    working store the row [setup] wrote stays marked as running. *)
Theorem no_budget_no_attempt (fuel : nat) (s : Schedule.t) (j : JobSpec.t)
    (ctx : Ctx) (trigger : string) (w : World.t) :
  wrap64 (JobSpec.Retries j + 1) ≤ 0 →
  execCommandWithRetryContext (S fuel) s j ctx trigger w = setup j trigger w
  ∧ (savesQuietly j →
     ∃ jr0 w0,
       setup j trigger w = Done jr0 w0
       ∧ JobRun.Status jr0 = None
       ∧ invocations (World.trace w0) = invocations (World.trace w)
       ∧ calls (World.trace w0) = calls (World.trace w)
       ∧ World.nprocs w0 = World.nprocs w)
  ∧ (Config.DB (JobSpec.cfg j) = true →
     DB.faults (World.db w) = [] → unique_keys (DB.log (World.db w)) →
     ∃ jr0 w0 r,
       setup j trigger w = Done jr0 w0
       ∧ filter (same_key jr0) (DB.log (World.db w0)) = [r]
       ∧ Row.is_running r = 1
       ∧ Row.status r = None).
Proof.
  intros Hle. split; [|split].
  - simpl.
    unfold mbind at 1. unfold M_bind.
    destruct (setup j trigger w) as [jr0 w0| | |]; try done.
    by rewrite retryLoop_stop by lia.
  - intros Hsave.
    destruct (setup_story j trigger w (or_introl Hsave))
      as (jr0 & w0 & i & Hsetup & -> & (_ & _ & Hn & _ & _ & Hinv) & _ & Hc
          & _).
    by eexists _, w0.
  - intros Hdb Hf Huniq.
    set (jr := JobRun.mk 0 None "" "" (JobSpec.Name j) (World.now w) trigger
                 [] 0).
    destruct (InsertOrUpdateJobRun_ok (World.db w) jr Hf Huniq)
      as (jr' & db' & r & Hcall & _ & Hflt & Hrun & _ & Hst & _).
    destruct (setup_story j trigger w) as (jr0 & w0 & i & Hsetup & -> & _ & _
        & _ & Hdb0).
    { right. fold jr. by rewrite Hcall. }
    fold jr in Hdb0. rewrite Hdb, Hcall in Hdb0. simpl in Hdb0.
    eexists _, w0, r. split; [exact Hsetup|]. rewrite Hdb0.
    split; [|split; [by apply Hrun|by rewrite Hst]].
    rewrite <-Hflt. by apply filter_same_key.
Qed.

Lemma no_budget_no_attempt_witness :
  ∃ jr0 w0 r,
    execCommandWithRetryContext 1 sched0 jNever Background "cron" wHello
    = Done jr0 w0
    ∧ JobRun.Status jr0 = None
    ∧ invocations (World.trace w0) = []
    ∧ DB.log (World.db w0) = [r]
    ∧ Row.is_running r = 1.
Proof.
  destruct (no_budget_no_attempt 0 sched0 jNever Background "cron" wHello)
    as (Heq & Hquiet & Hrow); [done|].
  destruct (Hquiet (or_introl eq_refl))
    as (jr0 & w0 & Hsetup & Hst & Hinv & _).
  destruct (Hrow eq_refl eq_refl) as (jr1 & w1 & r & Hsetup1 & Hflt & Hrun & _).
  { apply NoDup_nil_2. }
  rewrite Hsetup in Hsetup1. injection Hsetup1 as <- <-.
  exists jr0, w0, r. rewrite Heq. do 3 (split; [done|]). split; [|done].
  assert (w0 = match setup jNever "cron" wHello with
               | Done _ w => w | _ => w0 end) as Hw by (by rewrite Hsetup).
  assert (jr0 = match setup jNever "cron" wHello with
                | Done a _ => a | _ => jr0 end) as Hj by (by rewrite Hsetup).
  vm_compute in Hw, Hj. subst w0 jr0. vm_compute in Hflt. exact Hflt.
Defined.

(** X19.  A retrying run whose context is already cancelled when it
    starts, for a job that cannot panic while saving (it has a schedule, or
    no store), whose hooks name no downstream job and that has at least one
    attempt to make, executes nothing: the run is set up and finalized at
    once with status -1, the clock does not move, and the webhooks of the
    error hooks are notified, each once.  The notice the loop writes into
    [Log] does not survive: [finalize] flushes the empty buffer over it, so
    the run handed back (and the one the webhooks see) has an empty log. *)
Theorem cancelled_before_start (fuel : nat) (s : Schedule.t) (j : JobSpec.t)
    (c : Time) (trigger : string) (w : World.t) :
  c ≤ World.now w → 0 < wrap64 (JobSpec.Retries j + 1) →
  savesQuietly j → noDownstream s j →
  ∃ jr' w',
    execCommandWithRetryContext (S fuel) s j (CancelAt c) trigger w
    = Done jr' w'
    ∧ JobRun.Status jr' = Some (-1)
    ∧ JobRun.Log jr' = ""
    ∧ invocations (World.trace w') = invocations (World.trace w)
    ∧ World.nprocs w' = World.nprocs w
    ∧ World.now w' = World.now w
    ∧ notified w w'
        ((λ wu, (wu, jr')) <$> (eventsFor s j (-1) ≫= webhooksOf)).
Proof.
  intros Hc Hbudget Hsave Hq. simpl.
  destruct (setup_story j trigger w (or_introl Hsave))
    as (jr0 & w0 & i & Hsetup & -> & (Hnow0 & _ & Hn0 & _ & _ & Hinv0) & _
        & Hc0 & _).
  rewrite (bind_Done _ _ _ _ _ Hsetup).
  destruct (Z.to_nat (wrap64 (JobSpec.Retries j + 1))) as [|n] eqn:Hn; [lia|].
  simpl. rewrite bool_decide_eq_true_2 by lia.
  rewrite (bind_Done _ _ _ _ _ (ctxErr_eq (CancelAt c) w0)). simpl.
  rewrite bool_decide_eq_true_2 by lia.
  destruct (finalize_story s
              (λ tj trig,
                 execCommandWithRetryContext fuel s tj Background trig) j
              (JobRun.set_Status (Some StatusError)
                 (JobRun.set_Log "Job cancelled due to scheduler shutdown"
                    (JobRun.mk i None "" "" (JobSpec.Name j) (World.now w)
                       trigger [] 0)))
              StatusError w0 (or_introl Hsave) Hq eq_refl)
    as (jr' & w' & i' & Hfin & -> & _ & (Hnow & _ & Hn' & _ & _ & Hinv)
        & _ & Hcalls & _).
  rewrite Hfin. eexists _, w'. split; [reflexivity|]. simpl.
  do 2 (split; [done|]).
  split; [congruence|]. split; [congruence|]. split; [congruence|].
  by apply (notified_from w w0).
Qed.

Lemma cancelled_before_start_witness :
  ∃ jr' w',
    execCommandWithRetryContext 1 schedNotify jNotify (CancelAt 1000) "cron"
      wNotify = Done jr' w'
    ∧ JobRun.Status jr' = Some (-1)
    ∧ JobRun.Log jr' = ""
    ∧ invocations (World.trace w') = []
    ∧ length (calls (World.trace w')) = 3%nat.
Proof.
  destruct (cancelled_before_start 0 schedNotify jNotify 1000 "cron" wNotify)
    as (jr' & w' & Hrun & Hst & Hlog & Hinv & _ & _ & Hcalls);
    [done|done|by left|by repeat split|].
  exists jr', w'. do 4 (split; [done|]).
  destruct Hcalls as (added & -> & ->). done.
Defined.

(** One call of the executor whose child is not killed by the context. *)
Lemma execCommandContext_attempt j ctx jr trig w :
  doneBy ctx (World.now w + attemptElapsed j w 0) = false →
  ∃ jr1 w1,
    execCommandContext j ctx jr trig w = Done jr1 w1
    ∧ JobRun.Status jr1 = Some (attemptStatus j w 0)
    ∧ JobRun.logBuf jr1 = JobRun.logBuf jr +:+ attemptOutput j w 0
    ∧ (JobRun.LogEntryId jr1, JobRun.Name jr1, JobRun.TriggeredAt jr1,
       JobRun.TriggeredBy jr1)
      = (JobRun.LogEntryId jr, JobRun.Name jr, JobRun.TriggeredAt jr,
         JobRun.TriggeredBy jr)
    ∧ (attemptStatus j w 0 = 0 →
       JobRun.Duration jr1
       = Milliseconds (Since (World.now w + attemptElapsed j w 0)
                         (JobRun.TriggeredAt jr)))
    ∧ World.now w1 = World.now w + attemptElapsed j w 0
    ∧ World.db w1 = World.db w
    ∧ World.procs w1 = World.procs w
    ∧ World.nprocs w1 = match JobSpec.Command j with
                        | [] => World.nprocs w
                        | _ => S (World.nprocs w)
                        end
    ∧ World.runs w1 = World.runs w
    ∧ calls (World.trace w1) = calls (World.trace w)
    ∧ invocations (World.trace w1)
      = invocations (World.trace w) ++ [(JobSpec.Name j, trig)]
    ∧ World.locked w1 = World.locked w.
Proof.
  intros Hlive.
  destruct (execCommandContext_Done j ctx jr trig w)
    as (jr1 & w1 & Hexec & _ & Hfields & Hdb & Hprocs & _ & Hlocked & Hinv
        & Hpath).
  destruct (execCommandContext_story j ctx jr trig w)
    as (jr1' & w1' & Hexec' & Hbuf & Hnow & Hruns & _ & Hcalls & _).
  rewrite Hexec in Hexec'. injection Hexec' as <- <-.
  exists jr1, w1. split; [done|].
  assert (JobRun.Status jr1 = Some (attemptStatus j w 0)
          ∧ (attemptStatus j w 0 = 0 →
             JobRun.Duration jr1
             = Milliseconds (Since (World.now w + attemptElapsed j w 0)
                               (JobRun.TriggeredAt jr)))
          ∧ World.nprocs w1 = match JobSpec.Command j with
                              | [] => World.nprocs w
                              | _ => S (World.nprocs w)
                              end) as (Hst & Hdur & Hn).
  { unfold attemptStatus, attemptElapsed in *. rewrite Nat.add_0_r in *.
    destruct (JobSpec.Command j); [by destruct Hpath as (? & _ & ?)|].
    destruct Hpath as [Hn Hpath].
    destruct (World.procs w (World.nprocs w)) as [e|out dt res];
      [by destruct Hpath|].
    destruct Hpath as [_ Hres]. destruct res; simpl.
    - by destruct Hres as (? & _ & ?).
    - rewrite Hlive in Hres. by destruct Hres.
    - by destruct Hres. }
  by repeat split.
Qed.

Lemma afterOrDone_cancelled c d w :
  World.now w < c ≤ World.now w + d →
  ∃ w', afterOrDone (CancelAt c) d w = Done true w'
    ∧ World.now w' = c
    ∧ World.runs w' = World.runs w
    ∧ World.trace w' = World.trace w.
Proof.
  intros Hc. unfold afterOrDone, mbind, M_bind, clock. simpl.
  rewrite bool_decide_eq_true_2 by lia. eexists. split; [reflexivity|].
  simpl. split; [lia|done].
Qed.

(** X20.  A run cancelled while the loop waits after a failed first
    attempt (whose child ended before the cancellation), for a job that
    cannot panic while saving (it has a schedule, or no store) and whose
    hooks name no downstream job, is handed back with status -1 and a
    notice at the end of its log, but that is not the run that was
    recorded: the run saved before the wait (and sent to the webhooks)
    carries the status of the attempt and the log without the notice.  One
    attempt was made and the wait ends at the instant of the
    cancellation. *)
Theorem cancelled_during_backoff (fuel : nat) (s : Schedule.t)
    (j : JobSpec.t) (c : Time) (trigger : string) (w : World.t) :
  0 ≤ attemptElapsed j w 0 →
  World.now w + attemptElapsed j w 0 < c
  ≤ World.now w + attemptElapsed j w 0 + timeOut →
  0 < wrap64 (JobSpec.Retries j + 1) →
  attemptStatus j w 0 ≠ 0 →
  savesQuietly j → noDownstream s j →
  ∃ jr' w' saved,
    execCommandWithRetryContext (S fuel) s j (CancelAt c) trigger w
    = Done jr' w'
    ∧ jr' = JobRun.set_Status (Some (-1))
              (JobRun.set_Log
                 (JobRun.Log saved +:+ nl
                  +:+ "Job cancelled during retry timeout") saved)
    ∧ JobRun.Status saved = Some (attemptStatus j w 0)
    ∧ JobRun.Log saved = attemptOutput j w 0
    ∧ (Config.DB (JobSpec.cfg j) = false →
       runsOf (JobSpec.Name j) w' = runsOf (JobSpec.Name j) w ++ [saved])
    ∧ notified w w'
        ((λ wu, (wu, saved))
           <$> (eventsFor s j (attemptStatus j w 0) ≫= webhooksOf))
    ∧ invocations (World.trace w')
      = invocations (World.trace w) ++ [(JobSpec.Name j, trigger)]
    ∧ World.now w' = c.
Proof.
  intros Hel Hc Hbudget Hfail Hsave Hq. simpl.
  destruct (setup_story j trigger w (or_introl Hsave))
    as (jr0 & w0 & i & Hsetup & -> & (Hnow0 & Hp0 & Hn0 & _ & _ & Hinv0)
        & Hr0 & Hc0 & _).
  rewrite (bind_Done _ _ _ _ _ Hsetup).
  assert (attemptStatus j w0 0 = attemptStatus j w 0
          ∧ attemptOutput j w0 0 = attemptOutput j w 0
          ∧ attemptElapsed j w0 0 = attemptElapsed j w 0) as (Hs & Ho & He).
  { unfold attemptStatus, attemptOutput, attemptElapsed.
    by rewrite Hp0, Hn0. }
  destruct (Z.to_nat (wrap64 (JobSpec.Retries j + 1))) as [|n] eqn:Hn; [lia|].
  simpl. rewrite bool_decide_eq_true_2 by lia.
  rewrite (bind_Done _ _ _ _ _ (ctxErr_eq (CancelAt c) w0)). simpl.
  rewrite bool_decide_eq_false_2 by lia.
  set (jr0 := JobRun.mk i None "" "" (JobSpec.Name j) (World.now w) trigger
                [] 0).
  destruct (execCommandContext_attempt j (CancelAt c) jr0 trigger w0)
    as (jr1 & w1 & Hexec & Hst1 & Hbuf1 & _ & _ & Hnow1 & _ & _ & _ & Hr1
        & Hc1 & Hinv1 & _).
  { simpl. apply bool_decide_eq_false_2. lia. }
  rewrite (bind_Done _ _ _ _ _ Hexec).
  destruct (finalize_story s
              (λ tj trig,
                 execCommandWithRetryContext fuel s tj Background trig) j
              jr1 (attemptStatus j w0 0) w1 (or_introl Hsave) Hq Hst1)
    as (jr2 & w2 & i2 & Hfin & -> & _ & (Hnow2 & _ & _ & _ & _ & Hinv2)
        & Hr2 & Hc2 & _).
  rewrite (bind_Done _ _ _ _ _ Hfin). simpl. rewrite Hst1, Hs.
  rewrite (bool_decide_eq_false_2 _ Hfail).
  destruct (afterOrDone_cancelled c timeOut w2)
    as (w3 & Hsleep & Hnow3 & Hr3 & Htr3); [lia|].
  rewrite (bind_Done _ _ _ _ _ Hsleep).
  eexists _, w3, (JobRun.set_LogEntryId i2 (flushLogBuffer jr1)).
  split; [reflexivity|]. simpl. split; [done|].
  split; [by rewrite Hst1, Hs|]. split; [by rewrite Hbuf1, Ho|].
  rewrite Htr3. split.
  { intros Hdb. unfold runsOf. rewrite Hr3, Hr2, Hdb, Hr1, Hr0.
    by rewrite filter_app, fmap_app, filter_cons_True. }
  split.
  { apply (notified_to _ w2); [|by rewrite Htr3]. rewrite <-Hs.
    apply (notified_from w w1); [by rewrite Hc1, Hc0|done]. }
  split; [by rewrite Hinv2, Hinv1, Hinv0|]. done.
Qed.

Lemma cancelled_during_backoff_witness :
  ∃ jr' w' saved,
    execCommandWithRetryContext 1 schedNotify jNotify (CancelAt 2000000000)
      "cron" wNotify = Done jr' w'
    ∧ JobRun.Status jr' = Some (-1)
    ∧ JobRun.Status saved = Some 2
    ∧ runsOf "notify" w' = [saved]
    ∧ World.now w' = 2000000000.
Proof.
  destruct (cancelled_during_backoff 0 schedNotify jNotify 2000000000 "cron"
              wNotify)
    as (jr' & w' & saved & Hrun & -> & Hst & _ & Hruns & _ & _ & Hnow);
    [done|done|done|done|by left|by repeat split|].
  eexists _, w', saved. split; [exact Hrun|]. split; [done|].
  split; [exact Hst|]. split; [exact (Hruns eq_refl)|exact Hnow].
Defined.

Section story.
Variable s : Schedule.t.
Variable downstream : JobSpec.t → string → M JobRun.t.
Variable j : JobSpec.t.

Lemma shifted_intro w w' :
  World.procs w' = World.procs w →
  World.nprocs w' = match JobSpec.Command j with
                    | [] => World.nprocs w
                    | _ => S (World.nprocs w)
                    end →
  shifted j w w'.
Proof.
  intros Hp Hn i. unfold attemptStatus, attemptOutput, attemptElapsed.
  destruct (JobSpec.Command j); [done|].
  by rewrite Hp, Hn, Nat.add_succ_r.
Qed.

Lemma outputsTo_shift w w' n :
  shifted j w w' →
  attemptOutput j w 0 +:+ outputsTo j w' n = outputsTo j w (S n).
Proof.
  intros Hsh. induction n as [|n IH].
  { simpl. by rewrite append_empty_r. }
  change (outputsTo j w' (S n))
    with (outputsTo j w' n +:+ attemptOutput j w' n).
  change (outputsTo j w (S (S n)))
    with (outputsTo j w (S n) +:+ attemptOutput j w (S n)).
  rewrite <-IH, append_assoc. by destruct (Hsh n) as (_ & -> & _).
Qed.

Lemma elapsedTo_shift w w' n :
  shifted j w w' →
  attemptElapsed j w 0 + elapsedTo j w' n = elapsedTo j w (S n).
Proof.
  intros Hsh. induction n as [|n IH]; [simpl; lia|].
  change (elapsedTo j w' (S n))
    with (elapsedTo j w' n + attemptElapsed j w' n).
  change (elapsedTo j w (S (S n)))
    with (elapsedTo j w (S n) + attemptElapsed j w (S n)).
  destruct (Hsh n) as (_ & _ & ->). lia.
Qed.
Lemma afterOrDone_background d w :
  afterOrDone Background d w = Done false (World.set_now (World.now w + d) w).
Proof. reflexivity. Qed.

(** One attempt and its [finalize] under the background context. *)
Lemma attempt_story trig jr w :
  savesQuietly j → noDownstream s j →
  ∃ jr1 w1 jr2 w2,
    execCommandContext j Background jr trig w = Done jr1 w1
    ∧ finalize s downstream j jr1 w1 = Done jr2 w2
    ∧ JobRun.Status jr2 = Some (attemptStatus j w 0)
    ∧ JobRun.logBuf jr2 = JobRun.logBuf jr +:+ attemptOutput j w 0
    ∧ JobRun.Log jr2 = JobRun.logBuf jr2
    ∧ JobRun.TriggeredAt jr2 = JobRun.TriggeredAt jr
    ∧ (attemptStatus j w 0 = 0 →
       JobRun.Duration jr2
       = Milliseconds (Since (World.now w + attemptElapsed j w 0)
                         (JobRun.TriggeredAt jr)))
    ∧ World.now w2 = World.now w + attemptElapsed j w 0
    ∧ World.procs w2 = World.procs w
    ∧ World.nprocs w2 = match JobSpec.Command j with
                        | [] => World.nprocs w
                        | _ => S (World.nprocs w)
                        end
    ∧ World.runs w2
      = (if Config.DB (JobSpec.cfg j) then World.runs w
         else World.runs w ++ [(JobSpec.Name j, jr2)])
    ∧ invocations (World.trace w2)
      = invocations (World.trace w) ++ [(JobSpec.Name j, trig)].
Proof.
  intros Hsave Hq.
  destruct (execCommandContext_attempt j Background jr trig w eq_refl)
    as (jr1 & w1 & Hexec & Hst1 & Hbuf1 & Hfields & Hdur1 & Hnow1 & _ & Hp1
        & Hn1 & Hr1 & _ & Hinv1 & _).
  destruct (finalize_story s downstream j jr1 (attemptStatus j w 0) w1
              (or_introl Hsave) Hq Hst1)
    as (jr2 & w2 & i2 & Hfin & -> & _ & (Hnow2 & Hp2 & Hn2 & _ & _ & Hinv2)
        & Hr2 & _).
  exists jr1, w1, (JobRun.set_LogEntryId i2 (flushLogBuffer jr1)), w2.
  do 2 (split; [done|]). simpl.
  injection Hfields as _ _ Hat _.
  split; [done|]. split; [done|]. split; [done|]. split; [done|].
  split; [done|]. split; [congruence|]. split; [congruence|].
  split; [congruence|]. split; [by rewrite Hr2, Hr1|].
  by rewrite Hinv2, Hinv1.
Qed.

(** The loop under the background context: after [a] attempts, [m] more
    attempts fail and the next one is the last the loop makes. *)
Lemma retryLoop_story trigger m n a jr w :
  savesQuietly j → noDownstream s j →
  0 ≤ JobSpec.Retries j < 2 ^ 63 - 1 →
  Z.of_nat a + Z.of_nat m ≤ JobSpec.Retries j →
  JobSpec.Retries j + 1 - Z.of_nat a ≤ Z.of_nat n →
  (∀ i, (i < m)%nat → attemptStatus j w i ≠ 0) →
  (Z.of_nat a + Z.of_nat m < JobSpec.Retries j → attemptStatus j w m = 0) →
  ∃ jr' w' earlier,
    retryLoop s downstream n j Background trigger (Z.of_nat a) jr w
    = Done jr' w'
    ∧ JobRun.Status jr' = Some (attemptStatus j w m)
    ∧ JobRun.Log jr' = JobRun.logBuf jr +:+ outputsTo j w (S m)
    ∧ JobRun.logBuf jr' = JobRun.Log jr'
    ∧ JobRun.TriggeredAt jr' = JobRun.TriggeredAt jr
    ∧ World.now w'
      = World.now w + elapsedTo j w (S m)
        + (Z.of_nat m
           + (if bool_decide (attemptStatus j w m = 0) then 0 else 1))
          * timeOut
    ∧ (attemptStatus j w m = 0 →
       JobRun.Duration jr'
       = Milliseconds (Since (World.now w + elapsedTo j w (S m)
                              + Z.of_nat m * timeOut)
                         (JobRun.TriggeredAt jr)))
    ∧ length earlier = m
    ∧ World.runs w'
      = (if Config.DB (JobSpec.cfg j) then World.runs w
         else World.runs w
              ++ ((λ r, (JobSpec.Name j, r)) <$> earlier ++ [jr']))
    ∧ invocations (World.trace w')
      = invocations (World.trace w)
        ++ ((λ i, (JobSpec.Name j, retryTrigger trigger i))
              <$> seqZ (Z.of_nat a) (Z.of_nat m + 1)).
Proof.
  intros Hsave Hq HR. revert n a jr w.
  induction m as [|m IH]; intros n a jr w Ham Hn Hfail Hlast.
  all: destruct n as [|n]; [lia|]; simpl retryLoop.
  all: rewrite (wrap64_id (JobSpec.Retries j + 1)) by lia.
  all: rewrite bool_decide_eq_true_2 by lia.
  all: rewrite (bind_Done _ _ _ _ _ (ctxErr_eq Background w));
    change (doneBy Background (World.now w)) with false; cbv iota.
  all: destruct (attempt_story
                   (if bool_decide (Z.of_nat a = 0) then trigger
                    else trigger +:+ "[retry=" +:+ pretty (Z.of_nat a)
                         +:+ "]") jr w Hsave Hq)
         as (jr1 & w1 & jr2 & w2 & Hexec & Hfin & Hst & Hbuf & Hlog & Hat
             & Hdur & Hnow & Hp & Hnp & Hruns & Hinv).
  all: rewrite (bind_Done _ _ _ _ _ Hexec), (bind_Done _ _ _ _ _ Hfin).
  all: rewrite Hst.
  all: pose proof (afterOrDone_background timeOut w2) as Hsleep.
  - (* the last attempt *)
    change (seqZ (Z.of_nat a) (Z.of_nat 0 + 1)) with [Z.of_nat a].
    assert (outputsTo j w 1 = attemptOutput j w 0) as Hout by done.
    assert (elapsedTo j w 1 = attemptElapsed j w 0) as Hel
      by (simpl; lia).
    rewrite Hout, Hel.
    destruct (decide (attemptStatus j w 0 = StatusOK)) as [Hok|Hko].
    + rewrite (bool_decide_eq_true_2 _ Hok).
      exists jr2, w2, []. split; [done|].
      rewrite (bool_decide_eq_true_2 (attemptStatus j w 0 = 0)) by done.
      split; [done|]. split; [congruence|]. do 2 (split; [done|]).
      split; [lia|]. split; [intros _; rewrite Hdur by done; f_equal;
                             f_equal; lia|].
      split; [done|]. split; [by rewrite Hruns|done].
    + rewrite (bool_decide_eq_false_2 _ Hko).
      rewrite (bind_Done _ _ _ _ _ Hsleep). cbv iota.
      assert (Z.of_nat a = JobSpec.Retries j) as Ha.
      { destruct (decide (Z.of_nat a + Z.of_nat 0 < JobSpec.Retries j));
          [by destruct Hko; apply Hlast|lia]. }
      rewrite retryLoop_stop
        by (rewrite (wrap64_id (Z.of_nat a + 1)), wrap64_id; lia).
      eexists jr2, _, []. split; [done|].
      rewrite (bool_decide_eq_false_2 (attemptStatus j w 0 = 0)) by done.
      split; [done|]. split; [congruence|]. do 2 (split; [done|]).
      simpl. split; [lia|]. split; [done|]. split; [done|].
      split; [by rewrite Hruns|done].
  - (* a failing attempt, then the rest *)
    assert (attemptStatus j w 0 ≠ StatusOK) as Hko by (apply Hfail; lia).
    rewrite (bool_decide_eq_false_2 _ Hko).
    rewrite (bind_Done _ _ _ _ _ Hsleep). cbv iota.
    rewrite (wrap64_id (Z.of_nat a + 1)) by lia.
    replace (Z.of_nat a + 1) with (Z.of_nat (S a)) by lia.
    set (w3 := World.set_now (World.now w2 + timeOut) w2).
    assert (shifted j w w3) as Hsh by (by apply shifted_intro).
    destruct (IH n (S a) jr2 w3)
      as (jr' & w' & earlier & Hloop & Hst' & Hlog' & Hbuf' & Hat' & Hnow'
          & Hdur' & Hlen & Hruns' & Hinv'); [lia|lia| | |].
    { intros i Hi. destruct (Hsh i) as (-> & _). apply Hfail. lia. }
    { intros Hlt. destruct (Hsh m) as (-> & _). apply Hlast. lia. }
    destruct (Hsh m) as (Hsm & _). rewrite Hsm in *.
    assert (invocations (World.trace w')
            = invocations (World.trace w)
              ++ ((λ i, (JobSpec.Name j, retryTrigger trigger i))
                    <$> seqZ (Z.of_nat a) (Z.of_nat (S m) + 1))) as Hinvs.
    { replace (Z.of_nat (S m) + 1) with (Z.succ (Z.of_nat m + 1)) by lia.
      rewrite seqZ_cons by lia. rewrite fmap_cons.
      replace (Z.succ (Z.of_nat a)) with (Z.of_nat (S a)) by lia.
      replace (Z.pred (Z.succ (Z.of_nat m + 1))) with (Z.of_nat m + 1)
        by lia.
      rewrite Hinv'. simpl World.trace. by rewrite Hinv, <-app_assoc. }
    exists jr', w', (jr2 :: earlier). split; [done|].
    split; [done|].
    split.
    { rewrite Hlog', Hbuf, append_assoc. by rewrite (outputsTo_shift w w3). }
    split; [done|]. split; [congruence|].
    pose proof (elapsedTo_shift w w3 (S m) Hsh) as Hel.
    split; [rewrite Hnow'; simpl World.now; lia|].
    split.
    { intros Hok. rewrite Hdur' by done. rewrite Hat. f_equal. f_equal.
      simpl World.now. lia. }
    split; [simpl; lia|].
    split; [|done].
    rewrite Hruns'. simpl World.runs. rewrite Hruns.
    destruct (Config.DB (JobSpec.cfg j)); [done|].
    by rewrite <-app_assoc.
Qed.
End story.

Lemma attempts_ext j w w0 :
  World.procs w0 = World.procs w → World.nprocs w0 = World.nprocs w →
  (∀ i, attemptStatus j w0 i = attemptStatus j w i)
  ∧ (∀ n, outputsTo j w0 n = outputsTo j w n)
  ∧ (∀ n, elapsedTo j w0 n = elapsedTo j w n).
Proof.
  intros Hp Hn.
  assert (∀ i, attemptStatus j w0 i = attemptStatus j w i
               ∧ attemptOutput j w0 i = attemptOutput j w i
               ∧ attemptElapsed j w0 i = attemptElapsed j w i) as Hi.
  { intros i. unfold attemptStatus, attemptOutput, attemptElapsed.
    by rewrite Hp, Hn. }
  split; [intros i; apply Hi|].
  split; induction n as [|n IH]; simpl; try done;
    destruct (Hi n) as (_ & Ho & He); congruence.
Qed.

(** The retrying run of a job that fires no downstream job and cannot panic
    while saving, under the background context: the first [k] attempts fail
    and attempt [k] is the last one made. *)
Lemma run_story fuel s j trigger w (k : nat) :
  savesQuietly j → noDownstream s j →
  0 ≤ JobSpec.Retries j < 2 ^ 63 - 1 →
  Z.of_nat k ≤ JobSpec.Retries j →
  (∀ i, (i < k)%nat → attemptStatus j w i ≠ 0) →
  (Z.of_nat k < JobSpec.Retries j → attemptStatus j w k = 0) →
  ∃ jr' w' earlier,
    execCommandWithRetryContext (S fuel) s j Background trigger w = Done jr' w'
    ∧ JobRun.Status jr' = Some (attemptStatus j w k)
    ∧ JobRun.Log jr' = outputsTo j w (S k)
    ∧ World.now w'
      = World.now w + elapsedTo j w (S k)
        + (Z.of_nat k
           + (if bool_decide (attemptStatus j w k = 0) then 0 else 1))
          * timeOut
    ∧ (attemptStatus j w k = 0 →
       JobRun.Duration jr'
       = Milliseconds (Since (World.now w + elapsedTo j w (S k)
                              + Z.of_nat k * timeOut) (World.now w)))
    ∧ length earlier = k
    ∧ World.runs w'
      = (if Config.DB (JobSpec.cfg j) then World.runs w
         else World.runs w
              ++ ((λ r, (JobSpec.Name j, r)) <$> earlier ++ [jr']))
    ∧ invocations (World.trace w')
      = invocations (World.trace w)
        ++ ((λ n, (JobSpec.Name j, retryTrigger trigger n))
              <$> seqZ 0 (Z.of_nat k + 1)).
Proof.
  intros Hsave Hq HR Hk Hfail Hlast. simpl.
  destruct (setup_story j trigger w (or_introl Hsave))
    as (jr0 & w0 & i & Hsetup & -> & (Hnow0 & Hp0 & Hn0 & _ & _ & Hinv0)
        & Hr0 & _).
  rewrite (bind_Done _ _ _ _ _ Hsetup).
  destruct (attempts_ext j w w0 Hp0 Hn0) as (Hst & Hout & Hel).
  rewrite (wrap64_id (JobSpec.Retries j + 1)) by lia.
  destruct (retryLoop_story s
              (λ tj trig,
                 execCommandWithRetryContext fuel s tj Background trig) j
              trigger k (Z.to_nat (JobSpec.Retries j + 1)) 0
              (JobRun.mk i None "" "" (JobSpec.Name j) (World.now w) trigger
                 [] 0) w0 Hsave Hq HR)
    as (jr' & w' & earlier & Hloop & Hst' & Hlog' & _ & _ & Hnow' & Hdur'
        & Hlen & Hruns' & Hinv'); [lia|lia| | |].
  { intros n Hn. rewrite Hst. by apply Hfail. }
  { intros Hlt. rewrite Hst. apply Hlast. lia. }
  change (Z.of_nat 0) with 0 in Hloop, Hinv'.
  exists jr', w', earlier. split; [done|].
  rewrite Hst, Hout, Hel, Hnow0, Hr0, Hinv0 in *. by repeat split.
Qed.

(** X21.  The buffer of a run is never reset between attempts.  For a job
    that cannot panic while saving (it has a schedule, or no store), whose
    hooks name no downstream job and whose retry count is from 0 up, under
    a context that is never cancelled: the log of a retried run is the
    output of all its attempts, first to last, in one string.  Without a
    store every attempt leaves one more run in the job's in-memory runs,
    the last of which is the run handed back. *)
Theorem retried_run_keeps_all_output (fuel : nat) (s : Schedule.t)
    (j : JobSpec.t) (trigger : string) (w : World.t) (k : nat) :
  savesQuietly j → noDownstream s j →
  0 ≤ JobSpec.Retries j < 2 ^ 63 - 1 →
  Z.of_nat k ≤ JobSpec.Retries j →
  (∀ i, (i < k)%nat → attemptStatus j w i ≠ 0) →
  (Z.of_nat k < JobSpec.Retries j → attemptStatus j w k = 0) →
  ∃ jr' w',
    execCommandWithRetryContext (S fuel) s j Background trigger w = Done jr' w'
    ∧ JobRun.Log jr' = outputsTo j w (S k)
    ∧ (Config.DB (JobSpec.cfg j) = false →
       length (runsOf (JobSpec.Name j) w')
       = (length (runsOf (JobSpec.Name j) w) + S k)%nat
       ∧ last (runsOf (JobSpec.Name j) w') = Some jr').
Proof.
  intros Hsave Hq HR Hk Hfail Hlast.
  destruct (run_story fuel s j trigger w k Hsave Hq HR Hk Hfail Hlast)
    as (jr' & w' & earlier & Hrun & _ & Hlog & _ & _ & Hlen & Hruns & _).
  exists jr', w'. do 2 (split; [done|]). intros Hdb.
  rewrite Hdb in Hruns. unfold runsOf. rewrite Hruns, filter_app, fmap_app.
  rewrite (filter_all (λ p, p.1 = JobSpec.Name j) (_ <$> _))
    by (by intros p (r & -> & _)%list_elem_of_fmap).
  rewrite <-list_fmap_compose, fmap_app. simpl.
  rewrite app_assoc, last_snoc.
  split; [|done]. rewrite !length_app, !length_fmap. simpl. lia.
Qed.

Lemma retried_run_keeps_all_output_witness :
  ∃ jr' w',
    execCommandWithRetryContext 1 sched0 jChatty Background "cron" wChatty
    = Done jr' w'
    ∧ JobRun.Log jr' = "first;second;"
    ∧ length (runsOf "chatty" w') = 2%nat.
Proof.
  destruct (retried_run_keeps_all_output 0 sched0 jChatty "cron" wChatty 1)
    as (jr' & w' & Hrun & Hlog & Hmem).
  - by right.
  - by repeat split.
  - done.
  - done.
  - intros i Hi. assert (i = 0%nat) as -> by lia. done.
  - done.
  - exists jr', w'. do 2 (split; [done|]).
    destruct (Hmem eq_refl) as [Hm _]. exact Hm.
Defined.

(** X22.  After every failed attempt the loop waits five seconds, also
    after the last one, when no retry is left.  For a job that cannot panic
    while saving (it has a schedule, or no store), whose hooks name no
    downstream job and whose retry count is from 0 up, under a context that
    is never cancelled: a run whose attempt [k] is the first to succeed
    returns [k] waits after it started (plus the time its children took), a
    run whose every attempt failed [Retries + 1] waits.  The duration
    recorded for a successful retry counts from the first trigger, so it
    includes the earlier attempts and the waits. *)
Theorem retry_waits_after_each_failure (fuel : nat) (s : Schedule.t)
    (j : JobSpec.t) (trigger : string) (w : World.t) (k : nat) :
  savesQuietly j → noDownstream s j →
  0 ≤ JobSpec.Retries j < 2 ^ 63 - 1 →
  Z.of_nat k ≤ JobSpec.Retries j →
  (∀ i, (i < k)%nat → attemptStatus j w i ≠ 0) →
  (Z.of_nat k < JobSpec.Retries j → attemptStatus j w k = 0) →
  ∃ jr' w',
    execCommandWithRetryContext (S fuel) s j Background trigger w = Done jr' w'
    ∧ (attemptStatus j w k = 0 →
       World.now w'
       = World.now w + elapsedTo j w (S k) + Z.of_nat k * 5000000000
       ∧ JobRun.Duration jr'
         = Milliseconds (Since (World.now w + elapsedTo j w (S k)
                                + Z.of_nat k * 5000000000) (World.now w)))
    ∧ (attemptStatus j w k ≠ 0 →
       Z.of_nat k = JobSpec.Retries j
       ∧ World.now w'
         = World.now w + elapsedTo j w (S k)
           + (JobSpec.Retries j + 1) * 5000000000).
Proof.
  intros Hsave Hq HR Hk Hfail Hlast.
  destruct (run_story fuel s j trigger w k Hsave Hq HR Hk Hfail Hlast)
    as (jr' & w' & earlier & Hrun & _ & _ & Hnow & Hdur & _).
  exists jr', w'. split; [done|]. unfold timeOut in *. split.
  - intros Hok. rewrite (bool_decide_eq_true_2 _ Hok) in Hnow.
    split; [lia|]. rewrite Hdur by done. f_equal.
  - intros Hko. rewrite (bool_decide_eq_false_2 _ Hko) in Hnow.
    assert (Z.of_nat k = JobSpec.Retries j) as Hlast'.
    { destruct (decide (Z.of_nat k < JobSpec.Retries j)) as [Hlt|?]; [|lia].
      by destruct Hko; apply Hlast. }
    split; [done|]. lia.
Qed.

Lemma retry_waits_after_each_failure_witness :
  (∃ jr' w',
     execCommandWithRetryContext 1 sched0 jChatty Background "cron" wChatty
     = Done jr' w'
     ∧ World.now w' = 1000 + (7000000 + 3000000) + 5000000000
     ∧ JobRun.Duration jr' = 5010)
  ∧ (∃ jr' w',
     execCommandWithRetryContext 1 sched0 jFail Background "cron" wFail
     = Done jr' w'
     ∧ World.now w' = 1000 + (7000000 + 7000000) + 2 * 5000000000).
Proof.
  split.
  - destruct (retry_waits_after_each_failure 0 sched0 jChatty "cron" wChatty
                1) as (jr' & w' & Hrun & Hok & _).
    + by right.
    + by repeat split.
    + done.
    + done.
    + intros i Hi. assert (i = 0%nat) as -> by lia. done.
    + done.
    + exists jr', w'. split; [done|]. destruct (Hok eq_refl) as [-> ->].
      by split.
  - destruct (retry_waits_after_each_failure 0 sched0 jFail "cron" wFail 1)
      as (jr' & w' & Hrun & _ & Hko).
    + by left.
    + by repeat split.
    + done.
    + done.
    + intros i Hi. assert (i = 0%nat) as -> by lia. done.
    + done.
    + exists jr', w'. split; [done|].
      by destruct (Hko ltac:(done)) as [_ ->].
Defined.

(** X23.  With [SuppressLogs] set the executor writes nothing to the
    scheduler's standard output.  Without it, it mirrors there what the
    attempt produced: the child's output in one piece, or the start error
    followed by the "job unable to start" line, or the reason when there is
    no command. *)
Theorem execCommandContext_stdout (j : JobSpec.t) (ctx : Ctx)
    (jr : JobRun.t) (trigger : string) (w : World.t) :
  ∃ jr' w',
    execCommandContext j ctx jr trigger w = Done jr' w'
    ∧ stdout (World.trace w')
      = stdout (World.trace w)
        ++ (if Config.SuppressLogs (JobSpec.cfg j) then []
            else match JobSpec.Command j with
                 | [] => ["no command specified" +:+ nl]
                 | _ =>
                     match World.procs w (World.nprocs w) with
                     | StartError e =>
                         [e +:+ nl; "job unable to start: " +:+ e]
                     | Ran output _ _ => [output]
                     end
                 end).
Proof.
  unfold execCommandContext, stdout.
  destruct (JobSpec.Command j) as [|c argv].
  { destruct (Config.SuppressLogs (JobSpec.cfg j)); eexists _, _;
      (split; [reflexivity|]); simpl;
      by rewrite ?omap_app, ?app_nil_r, <-?app_assoc. }
  unfold mbind, M_bind, emit, osEnviron, Start, ctxErr, clock, skip, ret,
    mret, M_ret, advance. simpl.
  destruct (World.procs w (World.nprocs w)) as [e|output elapsed [|code|e]];
    destruct (Config.SuppressLogs (JobSpec.cfg j)); simpl;
    try destruct (doneBy ctx (World.now w + elapsed)); simpl;
    eexists _, _; (split; [reflexivity|]); simpl;
    by rewrite ?omap_app, ?app_nil_r, <-?app_assoc.
Qed.

Lemma bind_Blocked {A B} (m : M A) (f : A → M B) w w' :
  m w = Blocked w' → (m ≫= f) w = Blocked w'.
Proof. unfold mbind, M_bind. by intros ->. Qed.

Section deadlock.
Variable s : Schedule.t.
Variable downstream : JobSpec.t → string → M JobRun.t.
Variable j : JobSpec.t.

(** The goroutines of a success fan-out whose only downstream job is
    [tn]. *)
Lemma OnEvent_one_trigger jr tn w :
  JobRun.Status jr = Some 0 → JobSpec.globalSchedule j = true →
  OnEvent.TriggerJob (JobSpec.OnSuccess j) = [tn] →
  OnEvent.TriggerJob (Schedule.OnSuccess s) = [] →
  ∃ order,
    order ≡ₚ TriggerTask tn (Schedule.Jobs s !! tn)
             :: (WebhookTask <$> (eventsFor s j 0 ≫= webhooksOf))
    ∧ OnEvent s downstream j jr w
      = seqAll (runTask downstream j jr) order false w.
Proof.
  intros Hst Hgs Htrig Hglobal. unfold OnEvent. rewrite Hst.
  assert (eventsFor s j 0 ≫= OnEvent.TriggerJob = [tn]) as ->.
  { unfold eventsFor. rewrite Hgs.
    rewrite (bool_decide_eq_true_2 (0 = StatusOK)) by done.
    simpl. by rewrite Htrig, Hglobal. }
  unfold spawnTriggers. rewrite Hgs.
  apply (goAll_seqAll (runTask downstream j jr)
           (TriggerTask tn (Schedule.Jobs s !! tn)
            :: (WebhookTask <$> (eventsFor s j 0 ≫= webhooksOf))) w).
Qed.

(** The fan-out never returns when the one downstream job runs one at a
    time and its mutex is held; the webhooks are still called. *)
Lemma OnEvent_blocks jr tn tj w :
  JobRun.Status jr = Some 0 → JobSpec.globalSchedule j = true →
  OnEvent.TriggerJob (JobSpec.OnSuccess j) = [tn] →
  OnEvent.TriggerJob (Schedule.OnSuccess s) = [] →
  Schedule.Jobs s !! tn = Some tj →
  JobSpec.DisableConcurrentExecution tj = true →
  tn ∈ World.locked w →
  ∃ w', OnEvent s downstream j jr w = Blocked w'
    ∧ World.locked w' = World.locked w
    ∧ invocations (World.trace w') = invocations (World.trace w).
Proof.
  intros Hst Hgs Htrig Hglobal Hjob Hdce Hheld.
  destruct (OnEvent_one_trigger jr tn w Hst Hgs Htrig Hglobal)
    as (order & Hperm & ->).
  assert (∀ w0, World.locked w0 = World.locked w →
                runTask downstream j jr
                  (TriggerTask tn (Schedule.Jobs s !! tn)) w0
                = Blocked w0) as Hblock.
  { intros w0 Hl0. simpl. rewrite Hjob. unfold triggerTask. rewrite Hdce.
    apply bind_Blocked. unfold Lock.
    rewrite bool_decide_eq_true_2; [done|]. by rewrite Hl0. }
  destruct (seqAll_Blocked (runTask downstream j jr)
              (λ w0, World.locked w0 = World.locked w
                     ∧ invocations (World.trace w0)
                       = invocations (World.trace w))
              (λ _ _, True) (λ _, Logic.I) (λ _ _ _ _ _, Logic.I)
              (λ _ H, H) (λ _, Logic.I) order false) with w
    as (w' & Hrun & [Hl Hinv] & _); [| |done|by exists w'].
  - intros t Ht w0 [Hl0 Hinv0]. rewrite Hperm in Ht.
    apply elem_of_cons in Ht as [->|Ht].
    + exists w0. split; [right; by apply Hblock|done].
    + apply list_elem_of_fmap in Ht as (wu & -> & _).
      destruct (webhookTask_Done j jr wu w0)
        as (w1 & Htask & (_ & _ & _ & _ & Hl1 & Hinv1) & _).
      exists w1. split; [by left|]. split; [|done]. split; congruence.
  - right. exists (TriggerTask tn (Schedule.Jobs s !! tn)).
    split; [rewrite Hperm; by left|].
    intros w0 [Hl0 _]. exists w0. by apply Hblock.
Qed.

Lemma finalize_blocks jr tn tj w :
  JobRun.Status jr = Some 0 → JobSpec.globalSchedule j = true →
  OnEvent.TriggerJob (JobSpec.OnSuccess j) = [tn] →
  OnEvent.TriggerJob (Schedule.OnSuccess s) = [] →
  Schedule.Jobs s !! tn = Some tj →
  JobSpec.DisableConcurrentExecution tj = true →
  tn ∈ World.locked w →
  ∃ w', finalize s downstream j jr w = Blocked w'
    ∧ World.locked w' = World.locked w
    ∧ invocations (World.trace w') = invocations (World.trace w).
Proof.
  intros Hst Hgs Htrig Hglobal Hjob Hdce Hheld. unfold finalize.
  destruct (logToDb_Done j (flushLogBuffer jr) w (or_introl (or_introl Hgs)))
    as (jr1 & w1 & Hlog & [i ->] & (_ & _ & _ & _ & Hl1 & Hinv1) & _).
  rewrite (bind_Done _ _ _ _ _ Hlog).
  set (appendRun := if Config.DB (JobSpec.cfg j) then skip else _).
  assert (∃ w2, appendRun w1 = Done () w2
                ∧ World.locked w2 = World.locked w1
                ∧ World.trace w2 = World.trace w1)
    as (w2 & Happ & Hl2 & Htr2).
  { unfold appendRun. destruct (Config.DB (JobSpec.cfg j));
      eexists; (split; [reflexivity|]); by repeat split. }
  rewrite (bind_Done _ _ _ _ _ Happ).
  destruct (OnEvent_blocks (JobRun.set_LogEntryId i (flushLogBuffer jr))
              tn tj w2) as (w3 & Hev & Hl3 & Hinv3); try done.
  { by rewrite Hl2, Hl1. }
  exists w3. split; [by apply bind_Blocked|].
  split; [congruence|]. by rewrite Hinv3, Htr2.
Qed.
End deadlock.

(** X24.  A job that runs one at a time and whose success fan-out names
    itself, and no other job, never finishes when a hook triggers it: the
    goroutine takes the job's mutex, the first attempt succeeds, and the
    goroutine that attempt's fan-out starts for the job waits for the mutex
    its own ancestor holds, so [wg.Wait()] never returns, whatever the
    order in which the webhook goroutines run.  The job ran once and the
    mutex stays taken. *)
Theorem self_trigger_deadlocks (fuel : nat) (s : Schedule.t)
    (j tj : JobSpec.t) (tn : string) (w : World.t) :
  Schedule.Jobs s !! tn = Some tj →
  JobSpec.DisableConcurrentExecution tj = true →
  JobSpec.globalSchedule tj = true →
  OnEvent.TriggerJob (JobSpec.OnSuccess tj) = [tn] →
  OnEvent.TriggerJob (Schedule.OnSuccess s) = [] →
  0 < wrap64 (JobSpec.Retries tj + 1) →
  attemptStatus tj w 0 = 0 →
  tn ∉ World.locked w →
  ∃ w',
    triggerTask (execCommandWithRetry (S fuel) s) j tn (Some tj) w
    = Blocked w'
    ∧ tn ∈ World.locked w'
    ∧ invocations (World.trace w')
      = invocations (World.trace w)
        ++ [(JobSpec.Name tj, "job[" +:+ JobSpec.Name j +:+ "]")].
Proof.
  intros Hjob Hdce Hgs Htrig Hglobal Hbudget Hok Hfree.
  unfold triggerTask. rewrite Hdce.
  set (w1 := World.set_locked ({[tn]} ∪ World.locked w) w).
  assert (Lock tn w = Done () w1) as Hlock.
  { unfold Lock. by rewrite bool_decide_eq_false_2. }
  rewrite (bind_Done _ _ _ _ _ Hlock).
  set (trig := "job[" +:+ JobSpec.Name j +:+ "]").
  assert (tn ∈ World.locked w1) as Hheld.
  { simpl. apply elem_of_union. left. by apply elem_of_singleton. }
  enough (∃ w', execCommandWithRetry (S fuel) s tj trig w1 = Blocked w'
                ∧ World.locked w' = World.locked w1
                ∧ invocations (World.trace w')
                  = invocations (World.trace w1) ++ [(JobSpec.Name tj, trig)])
    as (w' & Hrun & Hl & Hinv).
  { exists w'. split; [by apply bind_Blocked|]. by rewrite Hl. }
  unfold execCommandWithRetry. simpl.
  destruct (setup_story tj trig w1 (or_introl (or_introl Hgs)))
    as (jr0 & w0 & i & Hsetup & -> & (_ & Hp0 & Hn0 & _ & Hl0 & Hinv0) & _).
  rewrite (bind_Done _ _ _ _ _ Hsetup).
  destruct (Z.to_nat (wrap64 (JobSpec.Retries tj + 1))) as [|n] eqn:Hn;
    [lia|].
  simpl retryLoop. rewrite bool_decide_eq_true_2 by lia.
  rewrite (bind_Done _ _ _ _ _ (ctxErr_eq Background w0)).
  change (doneBy Background (World.now w0)) with false. cbv iota.
  destruct (execCommandContext_attempt tj Background
              (JobRun.mk i None "" "" (JobSpec.Name tj) (World.now w1) trig
                 [] 0) trig w0 eq_refl)
    as (jr1 & w2 & Hexec & Hst1 & _ & _ & _ & _ & _ & _ & _ & _ & _ & Hinv2
        & Hl2).
  assert (attemptStatus tj w0 0 = 0) as Hok0.
  { rewrite <-Hok. unfold attemptStatus. by rewrite Hp0, Hn0. }
  rewrite Hok0 in Hst1.
  rewrite (bind_Done _ _ _ _ _ Hexec).
  destruct (finalize_blocks s
              (λ tj trig,
                 execCommandWithRetryContext fuel s tj Background trig)
              tj jr1 tn tj w2)
    as (w3 & Hfin & Hl3 & Hinv3); try done.
  { by rewrite Hl2, Hl0. }
  exists w3. split; [by apply bind_Blocked|].
  split; [by rewrite Hl3, Hl2, Hl0|]. by rewrite Hinv3, Hinv2, Hinv0.
Qed.

Lemma self_trigger_deadlocks_witness :
  ∃ w',
    triggerTask (execCommandWithRetry 1 schedLoop) jParent "loop"
      (Some jLoop) wFamily = Blocked w'
    ∧ "loop" ∈ World.locked w'
    ∧ invocations (World.trace w') = [("loop", "job[parent]")].
Proof.
  destruct (self_trigger_deadlocks 0 schedLoop jParent jLoop "loop"
              wFamily) as (w' & Hrun & Hheld & Hinv);
    [done|done|done|done|done|done|done|apply not_elem_of_empty|].
  by exists w'.
Defined.

Lemma bind_OutOfFuel {A B} (m : M A) (f : A → M B) w :
  m w = OutOfFuel → (m ≫= f) w = OutOfFuel.
Proof. unfold mbind, M_bind. by intros ->. Qed.

(** [finalize] does not return when the one downstream job it starts does
    not. *)
Lemma finalize_diverges s downstream j jr st tn tj w :
  JobRun.Status jr = Some st → JobSpec.globalSchedule j = true →
  eventsFor s j st ≫= OnEvent.TriggerJob = [tn] →
  Schedule.Jobs s !! tn = Some tj →
  JobSpec.DisableConcurrentExecution tj = false →
  (∀ w', World.procs w' = World.procs w → World.nprocs w' = World.nprocs w →
         downstream tj ("job[" +:+ JobSpec.Name j +:+ "]") w' = OutOfFuel) →
  finalize s downstream j jr w = OutOfFuel.
Proof.
  intros Hst Hgs Hfired Hjob Hdce Hdown. unfold finalize.
  destruct (logToDb_Done j (flushLogBuffer jr) w
              (or_introl (or_introl Hgs)))
    as (jr1 & w1 & Hlog & [i ->] & (_ & Hp1 & Hn1 & _) & _).
  rewrite (bind_Done _ _ _ _ _ Hlog).
  set (appendRun := if Config.DB (JobSpec.cfg j) then skip else _).
  assert (∃ w2, appendRun w1 = Done () w2
                ∧ World.procs w2 = World.procs w1
                ∧ World.nprocs w2 = World.nprocs w1)
    as (w2 & Happ & Hp2 & Hn2).
  { unfold appendRun. destruct (Config.DB (JobSpec.cfg j));
      eexists; (split; [reflexivity|]); by repeat split. }
  rewrite (bind_Done _ _ _ _ _ Happ).
  apply bind_OutOfFuel. unfold OnEvent.
  change (JobRun.Status (JobRun.set_LogEntryId i (flushLogBuffer jr)))
    with (JobRun.Status jr).
  rewrite Hst.
  rewrite Hfired. unfold spawnTriggers. rewrite Hgs.
  set (jr1 := JobRun.set_LogEntryId i (flushLogBuffer jr)).
  destruct (goAll_seqAll (runTask downstream j jr1)
              (TriggerTask tn (Schedule.Jobs s !! tn)
               :: (WebhookTask <$> (eventsFor s j st ≫= webhooksOf))) w2)
    as (order & Hperm & Heq).
  etrans; [exact Heq|].
  apply (seqAll_OutOfFuel (runTask downstream j jr1)
           (λ w0, World.procs w0 = World.procs w
                  ∧ World.nprocs w0 = World.nprocs w)
           (λ _ H, H)).
  - intros t Ht w0 [Hp0 Hn0]. rewrite Hperm in Ht.
    apply elem_of_cons in Ht as [->|Ht].
    + left. simpl. rewrite Hjob. unfold triggerTask. rewrite Hdce.
      apply bind_OutOfFuel. by apply Hdown.
    + right. apply list_elem_of_fmap in Ht as (wu & -> & _).
      destruct (webhookTask_Done j jr1 wu w0)
        as (w3 & Htask & (_ & Hp3 & Hn3 & _) & _).
      exists w3. split; [by left|]. split; congruence.
  - exists (TriggerTask tn (Schedule.Jobs s !! tn)).
    split; [rewrite Hperm; by left|].
    intros w0 [Hp0 Hn0]. simpl. rewrite Hjob. unfold triggerTask.
    rewrite Hdce. apply bind_OutOfFuel. by apply Hdown.
  - split; congruence.
Qed.

(** A job whose fan-out, after a status its attempts always have, names
    itself and no other job never returns. *)
Lemma retrigger_diverges (s : Schedule.t) (tj : JobSpec.t) (tn : string)
    (st : Z) :
  Schedule.Jobs s !! tn = Some tj →
  JobSpec.DisableConcurrentExecution tj = false →
  JobSpec.globalSchedule tj = true →
  eventsFor s tj st ≫= OnEvent.TriggerJob = [tn] →
  0 < wrap64 (JobSpec.Retries tj + 1) →
  ∀ fuel trigger w,
    (∀ i, attemptStatus tj w i = st) →
    execCommandWithRetryContext fuel s tj Background trigger w = OutOfFuel.
Proof.
  intros Hjob Hdce Hgs Hfired Hbudget.
  induction fuel as [|fuel IH]; intros trigger w Hall; [done|]. simpl.
  destruct (setup_story tj trigger w (or_introl (or_introl Hgs)))
    as (jr0 & w0 & i & Hsetup & -> & (_ & Hp0 & Hn0 & _) & _).
  rewrite (bind_Done _ _ _ _ _ Hsetup).
  destruct (Z.to_nat (wrap64 (JobSpec.Retries tj + 1))) as [|n] eqn:Hn;
    [lia|].
  simpl retryLoop. rewrite bool_decide_eq_true_2 by lia.
  rewrite (bind_Done _ _ _ _ _ (ctxErr_eq Background w0)).
  change (doneBy Background (World.now w0)) with false. cbv iota.
  destruct (execCommandContext_attempt tj Background
              (JobRun.mk i None "" "" (JobSpec.Name tj) (World.now w) trigger
                 [] 0)
              (if bool_decide (0 = 0) then trigger
               else trigger +:+ "[retry=" +:+ pretty 0 +:+ "]") w0 eq_refl)
    as (jr1 & w1 & Hexec & Hst1 & _ & _ & _ & _ & _ & Hp1 & Hn1 & _).
  destruct (attempts_ext tj w w0 Hp0 Hn0) as (Hst0 & _).
  rewrite Hst0, Hall in Hst1.
  rewrite (bind_Done _ _ _ _ _ Hexec).
  apply bind_OutOfFuel.
  apply (finalize_diverges s _ tj jr1 st tn tj); try done.
  intros w' Hp' Hn'. apply IH. intros k.
  assert (shifted tj w w') as Hsh.
  { apply shifted_intro; [congruence|]. rewrite Hn', Hn1, Hn0. done. }
  destruct (Hsh k) as (-> & _). apply Hall.
Qed.

(** X25.  A job whose success fan-out names itself, and no other job, and
    that is not limited to one run at a time never returns while its
    command succeeds: every successful attempt starts the job again one
    level further down and waits for it, so no nesting depth is enough for
    the run to end, whatever the order in which the goroutines run. *)
Theorem self_trigger_never_returns (s : Schedule.t) (tj : JobSpec.t)
    (tn : string) :
  Schedule.Jobs s !! tn = Some tj →
  JobSpec.DisableConcurrentExecution tj = false →
  JobSpec.globalSchedule tj = true →
  OnEvent.TriggerJob (JobSpec.OnSuccess tj) = [tn] →
  OnEvent.TriggerJob (Schedule.OnSuccess s) = [] →
  0 < wrap64 (JobSpec.Retries tj + 1) →
  ∀ fuel trigger w,
    (∀ i, attemptStatus tj w i = 0) →
    execCommandWithRetryContext fuel s tj Background trigger w = OutOfFuel.
Proof.
  intros Hjob Hdce Hgs Htrig Hglobal Hbudget.
  apply (retrigger_diverges s tj tn 0); try done.
  unfold eventsFor. rewrite Hgs.
  rewrite (bool_decide_eq_true_2 (0 = StatusOK)) by done.
  simpl. by rewrite Htrig, Hglobal.
Qed.

Lemma self_trigger_never_returns_witness :
  execCommandWithRetryContext 3 schedAgain jAgain Background "cron" wFamily
  = OutOfFuel.
Proof.
  apply (self_trigger_never_returns schedAgain jAgain "again"); try done.
Defined.

(** * The retry budget *)

(** C5 (as the code has it). A job with [Retries = R], from 0 up, whose
    hooks name no downstream job and that cannot panic while saving (it has
    a schedule, or no store), run under a context that is never cancelled.
    When the command fails on every attempt, the executor is invoked exactly
    R+1 times, attempt 0 with the original trigger and attempt n>0 with
    ["<trigger>[retry=n]"], and the run ends with the non-zero status of
    the last attempt; with a store that works, the persisted row of the run
    carries that status.  When attempt [k] is the first to return status 0,
    the loop stops there: k+1 invocations, final status 0, also in the
    row. *)
Theorem retry_budget (fuel : nat) (s : Schedule.t) (j : JobSpec.t)
    (trigger : string) (w : World.t) :
  savesQuietly j → noDownstream s j → 0 ≤ JobSpec.Retries j < 2 ^ 63 - 1 →
  ((∀ i, attemptStatus j w i ≠ 0) →
   ∃ jr' w',
     execCommandWithRetryContext (S fuel) s j Background trigger w
     = Done jr' w'
     ∧ invocations (World.trace w')
       = invocations (World.trace w)
         ++ ((λ n, (JobSpec.Name j, retryTrigger trigger n))
               <$> seqZ 0 (JobSpec.Retries j + 1))
     ∧ length (invocations (World.trace w'))
       = (length (invocations (World.trace w))
          + Z.to_nat (JobSpec.Retries j + 1))%nat
     ∧ JobRun.Status jr'
       = Some (attemptStatus j w (Z.to_nat (JobSpec.Retries j)))
     ∧ attemptStatus j w (Z.to_nat (JobSpec.Retries j)) ≠ 0
     ∧ (Config.DB (JobSpec.cfg j) = true →
        DB.faults (World.db w) = [] → unique_keys (DB.log (World.db w)) →
        ∃ r, filter (same_key jr') (DB.log (World.db w')) = [r]
             ∧ Row.status r = JobRun.Status jr'
             ∧ Row.is_running r = 0))
  ∧ (∀ k : nat,
       Z.of_nat k ≤ JobSpec.Retries j →
       (∀ i, (i < k)%nat → attemptStatus j w i ≠ 0) →
       attemptStatus j w k = 0 →
       ∃ jr' w',
         execCommandWithRetryContext (S fuel) s j Background trigger w
         = Done jr' w'
         ∧ invocations (World.trace w')
           = invocations (World.trace w)
             ++ ((λ n, (JobSpec.Name j, retryTrigger trigger n))
                   <$> seqZ 0 (Z.of_nat k + 1))
         ∧ JobRun.Status jr' = Some 0
         ∧ (Config.DB (JobSpec.cfg j) = true →
            DB.faults (World.db w) = [] → unique_keys (DB.log (World.db w)) →
            ∃ r, filter (same_key jr') (DB.log (World.db w')) = [r]
                 ∧ Row.status r = Some 0
                 ∧ Row.is_running r = 0)).
Proof.
  intros Hsave Hq HR. split.
  - intros Hfail.
    destruct (run_story fuel s j trigger w (Z.to_nat (JobSpec.Retries j)))
      as (jr' & w' & earlier & Hrun & Hst & _ & _ & _ & _ & _ & Hinv);
      try done; try lia.
    replace (Z.of_nat (Z.to_nat (JobSpec.Retries j)) + 1)
      with (JobSpec.Retries j + 1) in Hinv by lia.
    exists jr', w'. do 2 (split; [done|]).
    split; [by rewrite Hinv, length_app, length_fmap, length_seqZ|].
    do 2 (split; [done|]). intros Hdb Hf Huniq.
    destruct (execCommandWithRetryContext_attempts fuel s j trigger w
                (Z.to_nat (JobSpec.Retries j)))
      as (jr2 & w2 & r & Hrun2 & _ & _ & _ & _ & _ & _ & Hflt & _ & Hrst
          & Hrr); try done; try lia.
    rewrite Hrun in Hrun2. injection Hrun2 as <- <-.
    exists r. split; [done|]. split; [congruence|done].
  - intros k Hk Hfail Hok.
    destruct (run_story fuel s j trigger w k)
      as (jr' & w' & earlier & Hrun & Hst & _ & _ & _ & _ & _ & Hinv);
      try done.
    exists jr', w'. do 2 (split; [done|]).
    split; [by rewrite Hst, Hok|]. intros Hdb Hf Huniq.
    destruct (execCommandWithRetryContext_attempts fuel s j trigger w k)
      as (jr2 & w2 & r & Hrun2 & _ & _ & _ & _ & _ & _ & Hflt & _ & Hrst
          & Hrr); try done.
    rewrite Hrun in Hrun2. injection Hrun2 as <- <-.
    exists r. split; [done|]. split; [congruence|done].
Qed.

Lemma retry_budget_witness :
  (∃ jr' w' r,
     execCommandWithRetryContext 1 sched0 jFail Background "manual" wFail
     = Done jr' w'
     ∧ invocations (World.trace w')
       = [("fail", "manual"); ("fail", "manual[retry=1]")]
     ∧ JobRun.Status jr' = Some 2
     ∧ filter (same_key jr') (DB.log (World.db w')) = [r]
     ∧ Row.status r = Some 2)
  ∧ (∃ jr' w',
     execCommandWithRetryContext 1 sched0 jFlaky Background "cron" wFlaky
     = Done jr' w'
     ∧ invocations (World.trace w')
       = [("flaky", "cron"); ("flaky", "cron[retry=1]")]
     ∧ JobRun.Status jr' = Some 0).
Proof.
  split.
  - destruct (retry_budget 0 sched0 jFail "manual" wFail) as [Hall _];
      [by left|done|done|].
    destruct Hall as (jr' & w' & Hrun & Hinv & _ & Hst & _ & Hrow); [done|].
    destruct (Hrow eq_refl eq_refl ltac:(apply NoDup_nil_2)) as (r & Hflt & Hrst & _).
    exists jr', w', r. do 4 (split; [done|]). by rewrite Hrst, Hst.
  - destruct (retry_budget 0 sched0 jFlaky "cron" wFlaky) as [_ Hearly];
      [by left|done|done|].
    destruct (Hearly 1%nat) as (jr' & w' & Hrun & Hinv & Hst & _);
      [done| |done|].
    { intros i Hi. by replace i with 0%nat by lia. }
    by exists jr', w'.
Defined.

(** C5, as stated, fails: a job with one retry whose command always fails
    and whose error hook names the job itself does not stop after two
    invocations.  The fan-out of its first failed attempt starts the job
    again and waits for it, and so on: the run never returns. *)
Lemma retry_budget_exceeded_by_downstream :
  (∀ i, attemptStatus jRetrigger wFail i ≠ 0)
  ∧ ¬ ∃ fuel jr' w',
        execCommandWithRetryContext fuel schedRetrigger jRetrigger Background
          "cron" wFail = Done jr' w'.
Proof.
  split; [done|]. intros (fuel & jr' & w' & Hrun).
  rewrite (retrigger_diverges schedRetrigger jRetrigger "retrigger" 2)
    in Hrun; done.
Qed.
